(** * DevEvents: event records, slug lookup, similar events and bookings

    A shallow embedding of the TypeScript sources

      - [database/event.model.ts]: the Event schema and its pre-save hook
        (module [Event]);
      - [database/booking.model.ts]: the Booking schema and its pre-save hook
        (module [Booking]);
      - [app/api/events/[slug]/route.ts]: the GET handler (module [Route]);
      - the server action [createBooking] of [lib/actions/booking.actions]
        (module [BookingActions]);
      - the server action [getSimilarEventsBySlug] (module [EventActions]);

    followed by the properties established about them.

    Conventions of the embedding.

    - A JavaScript string is a [string]: a sequence of code units, here the
      code units U+0000..U+00FF (one [ascii] each).  Every character class and
      case mapping below is the restriction of the ECMAScript one to that range.
    - [async] code that talks to the document store is a computation in the
      monad [M]: it threads the [World] (the two collections and what the
      environment will do to the coming round trips) and either returns a value
      or throws.
    - Regular expressions are kept as syntax ([Re.re]) and run by a derivative
      matcher, so each pattern can be read against the literal in the source.
    - What belongs to the libraries (Mongoose, the driver, the [Date] object)
      is modelled by its documented behaviour, as far as the sources use it. *)

From Stdlib Require Import Bool Arith ZArith NArith Lia List.
From Stdlib Require Import Ascii String.
From Stdlib Require Import Permutation Sorted.
Import ListNotations.

Set Implicit Arguments.

Local Open Scope string_scope.
Local Open Scope bool_scope.

(* ================================================================== *)
(** * Characters *)
(* ================================================================== *)

Module Char.

Definition code (c : ascii) : nat := nat_of_ascii c.

Definition between (lo hi c : ascii) : bool :=
  (code lo <=? code c)%nat && (code c <=? code hi)%nat.

Definition eq (a c : ascii) : bool := Ascii.eqb a c.

Definition digit (c : ascii) : bool := between "0" "9" c.
Definition lower (c : ascii) : bool := between "a" "z" c.
Definition upper (c : ascii) : bool := between "A" "Z" c.

(** [\w] is [[A-Za-z0-9_]]. *)
Definition word (c : ascii) : bool :=
  upper c || lower c || digit c || eq "_" c.

(** [\s], which is also what [String.prototype.trim] strips: TAB, LF, VT,
    FF, CR, SPACE and NO-BREAK SPACE (the members of WhiteSpace and
    LineTerminator below U+0100). *)
Definition space (c : ascii) : bool :=
  (code c =? 9)%nat || (code c =? 10)%nat || (code c =? 11)%nat
  || (code c =? 12)%nat || (code c =? 13)%nat || (code c =? 32)%nat
  || (code c =? 160)%nat.

Definition not_space (c : ascii) : bool := negb (space c).

(** [[0-9a-f]]. *)
Definition lower_hex (c : ascii) : bool := digit c || between "a" "f" c.

(** [[0-9a-fA-F]]. *)
Definition hex (c : ascii) : bool :=
  digit c || between "a" "f" c || between "A" "F" c.

(** The simple lower-case mapping: A-Z, and U+00C0..U+00DE except the
    multiplication sign U+00D7, move up by 32. *)
Definition toLower (c : ascii) : ascii :=
  let n := code c in
  if ((65 <=? n) && (n <=? 90))%nat
     || ((192 <=? n) && (n <=? 222) && negb (n =? 215))%nat
  then ascii_of_nat (n + 32)
  else c.

End Char.

(* ================================================================== *)
(** * Strings *)
(* ================================================================== *)

Module Str.

Fixpoint all (p : ascii -> bool) (s : string) : bool :=
  match s with
  | EmptyString => true
  | String c s' => p c && all p s'
  end.

Fixpoint map (f : ascii -> ascii) (s : string) : string :=
  match s with
  | EmptyString => EmptyString
  | String c s' => String (f c) (map f s')
  end.

(** [s.toLowerCase()] *)
Definition toLowerCase (s : string) : string := map Char.toLower s.

Fixpoint trimStart (s : string) : string :=
  match s with
  | EmptyString => EmptyString
  | String c s' => if Char.space c then trimStart s' else s
  end.

Fixpoint trimEnd (s : string) : string :=
  match s with
  | EmptyString => EmptyString
  | String c s' =>
      match trimEnd s' with
      | EmptyString => if Char.space c then EmptyString else String c EmptyString
      | t => String c t
      end
  end.

(** [s.trim()] *)
Definition trim (s : string) : string := trimEnd (trimStart s).

(** [s === ''] *)
Definition is_empty (s : string) : bool :=
  match s with EmptyString => true | _ => false end.

(** [s.startsWith(p)] *)
Fixpoint startsWith (p s : string) : bool :=
  match p, s with
  | EmptyString, _ => true
  | String a p', String b s' => Ascii.eqb a b && startsWith p' s'
  | String _ _, EmptyString => false
  end.

(** [s.includes(needle)] *)
Fixpoint includes (needle s : string) : bool :=
  startsWith needle s
  || match s with
     | EmptyString => false
     | String _ s' => includes needle s'
     end.

(** [s.replace(/[^...]/g, '')] for a pattern that is one negated character
    class: every character outside [keep] is deleted. *)
Fixpoint remove_outside (keep : ascii -> bool) (s : string) : string :=
  match s with
  | EmptyString => EmptyString
  | String c s' =>
      if keep c then String c (remove_outside keep s')
      else remove_outside keep s'
  end.

(** [s.replace(/C+/g, by)] for a character class [C]: every maximal run of
    characters of [C] is replaced by [by].  [in_run] records that the
    previous character belonged to the run being replaced. *)
Fixpoint replace_runs_from (C : ascii -> bool) (by_ : string)
         (in_run : bool) (s : string) : string :=
  match s with
  | EmptyString => EmptyString
  | String c s' =>
      if C c then
        if in_run then replace_runs_from C by_ true s'
        else by_ ++ replace_runs_from C by_ true s'
      else String c (replace_runs_from C by_ false s')
  end.

Definition replace_runs (C : ascii -> bool) (by_ : string) (s : string) : string :=
  replace_runs_from C by_ false s.

Fixpoint dropWhile (p : ascii -> bool) (s : string) : string :=
  match s with
  | EmptyString => EmptyString
  | String c s' => if p c then dropWhile p s' else s
  end.

Fixpoint dropWhileEnd (p : ascii -> bool) (s : string) : string :=
  match s with
  | EmptyString => EmptyString
  | String c s' =>
      match dropWhileEnd p s' with
      | EmptyString => if p c then EmptyString else String c EmptyString
      | t => String c t
      end
  end.

(** [s.replace(/^C+|C+$/g, '')]: the run of [C] at the start and the run of
    [C] at the end are deleted. *)
Definition strip_ends (C : ascii -> bool) (s : string) : string :=
  dropWhileEnd C (dropWhile C s).

(** [s.split(sep)[0]] for a one-character separator. *)
Fixpoint before (sep : ascii) (s : string) : string :=
  match s with
  | EmptyString => EmptyString
  | String c s' => if Ascii.eqb c sep then EmptyString else String c (before sep s')
  end.

Definition first (s : string) : option ascii :=
  match s with EmptyString => None | String c _ => Some c end.

Fixpoint last (s : string) : option ascii :=
  match s with
  | EmptyString => None
  | String c EmptyString => Some c
  | String _ s' => last s'
  end.

End Str.

(* ================================================================== *)
(** * Regular expressions *)
(* ================================================================== *)

Module Re.

(** The fragment of the RegExp syntax the sources use.  All their patterns
    are anchored at both ends ([^...$], no [m] flag), so [test] is a match
    of the whole string. *)
Inductive re : Type :=
| Void : re
| Eps : re
| Cls : (ascii -> bool) -> re          (* a character or a class *)
| Seq : re -> re -> re
| Alt : re -> re -> re                 (* r|s *)
| Star : re -> re.                     (* r* *)

Definition Plus (r : re) : re := Seq r (Star r).      (* r+ *)
Definition Opt (r : re) : re := Alt r Eps.            (* r? *)
Definition Chr (a : ascii) : re := Cls (Char.eq a).
Definition Range (lo hi : ascii) : re := Cls (Char.between lo hi).

Fixpoint nullable (r : re) : bool :=
  match r with
  | Void => false
  | Eps => true
  | Cls _ => false
  | Seq r1 r2 => nullable r1 && nullable r2
  | Alt r1 r2 => nullable r1 || nullable r2
  | Star _ => true
  end.

Fixpoint deriv (c : ascii) (r : re) : re :=
  match r with
  | Void => Void
  | Eps => Void
  | Cls p => if p c then Eps else Void
  | Seq r1 r2 =>
      if nullable r1
      then Alt (Seq (deriv c r1) r2) (deriv c r2)
      else Seq (deriv c r1) r2
  | Alt r1 r2 => Alt (deriv c r1) (deriv c r2)
  | Star r1 => Seq (deriv c r1) (Star r1)
  end.

Fixpoint matches (r : re) (s : string) : bool :=
  match s with
  | EmptyString => nullable r
  | String c s' => matches (deriv c r) s'
  end.

(** [/^r$/.test(s)] *)
Definition test (r : re) (s : string) : bool := matches r s.

(** The language of a pattern, as a relation. *)
Inductive Lang : re -> string -> Prop :=
| LEps : Lang Eps ""
| LCls : forall (p : ascii -> bool) c, p c = true -> Lang (Cls p) (String c "")
| LSeq : forall r1 r2 s1 s2, Lang r1 s1 -> Lang r2 s2 -> Lang (Seq r1 r2) (s1 ++ s2)
| LAltL : forall r1 r2 s, Lang r1 s -> Lang (Alt r1 r2) s
| LAltR : forall r1 r2 s, Lang r2 s -> Lang (Alt r1 r2) s
| LStar0 : forall r, Lang (Star r) ""
| LStarS : forall r c s1 s2,
    Lang r (String c s1) -> Lang (Star r) s2 -> Lang (Star r) (String c s1 ++ s2).

(** Every character class of [r] is included in [q]. *)
Fixpoint classes_within (q : ascii -> bool) (r : re) : Prop :=
  match r with
  | Cls p => forall c, p c = true -> q c = true
  | Seq r1 r2 | Alt r1 r2 => classes_within q r1 /\ classes_within q r2
  | Star r1 => classes_within q r1
  | Void | Eps => True
  end.

(** Every character class of [r] is closed under [f]. *)
Fixpoint classes_closed (f : ascii -> ascii) (r : re) : Prop :=
  match r with
  | Cls p => forall c, p c = true -> p (f c) = true
  | Seq r1 r2 | Alt r1 r2 => classes_closed f r1 /\ classes_closed f r2
  | Star r1 => classes_closed f r1
  | Void | Eps => True
  end.

End Re.

(* ================================================================== *)
(** * Object identifiers *)
(* ================================================================== *)

(** [Types.ObjectId] of the driver: twelve bytes, written as 24 hexadecimal
    digits.  An identifier is kept as the number its digits denote. *)
Module ObjectId.

Definition t : Type := N.

Definition digit_value (c : ascii) : N :=
  let n := N.of_nat (Char.code c) in
  if Char.digit c then n - 48
  else if Char.between "a" "f" c then n - 87
  else if Char.between "A" "F" c then n - 55
  else 0.

Fixpoint parse_hex (acc : N) (s : string) : N :=
  match s with
  | EmptyString => acc
  | String c s' => parse_hex (16 * acc + digit_value c) s'
  end.

(** [Types.ObjectId.isValid(s)] on a string: 24 hexadecimal digits. *)
Definition isValid (s : string) : bool :=
  (String.length s =? 24)%nat && Str.all Char.hex s.

(** [new Types.ObjectId(s)] for a string accepted by [isValid]. *)
Definition ofString (s : string) : t := parse_hex 0 s.

Definition digit_char (n : N) : ascii :=
  if (n <? 10)%N then ascii_of_N (48 + n) else ascii_of_N (87 + n).

Fixpoint hex_digits (k : nat) (n : N) (acc : string) : string :=
  match k with
  | O => acc
  | S k' => hex_digits k' (n / 16) (String (digit_char (n mod 16)) acc)
  end.

(** [id.toString()]: 24 lower-case hexadecimal digits. *)
Definition toString (o : t) : string := hex_digits 24 o "".

Definition eqb (a b : t) : bool := N.eqb a b.

End ObjectId.

(* ================================================================== *)
(** * Exceptions and the store monad *)
(* ================================================================== *)

(** What a [catch] clause can receive: an [Error] with its message, or a value
    that is not an instance of [Error]. *)
Inductive thrown : Type :=
| ErrorObj (message : string)
| NonError.

Inductive outcome (A : Type) : Type :=
| Ok (a : A)
| Throw (e : thrown).

Arguments Ok {A} a.
Arguments Throw {A} e.

(** ** Documents *)

Module IEvent.

Record t : Type := mk {
  _id : ObjectId.t;
  title : string;
  slug : string;
  description : string;
  overview : string;
  image : string;
  venue : string;
  location : string;
  date : string;
  time : string;
  mode : string;
  audience : string;
  agenda : list string;
  organizer : string;
  tags : list string;
  createdAt : Z;          (* time value, milliseconds since the epoch *)
  updatedAt : Z
}.

Definition with_slug (v : string) (e : t) : t :=
  mk (_id e) (title e) v (description e) (overview e) (image e) (venue e)
     (location e) (date e) (time e) (mode e) (audience e) (agenda e)
     (organizer e) (tags e) (createdAt e) (updatedAt e).

Definition with_date (v : string) (e : t) : t :=
  mk (_id e) (title e) (slug e) (description e) (overview e) (image e) (venue e)
     (location e) v (time e) (mode e) (audience e) (agenda e)
     (organizer e) (tags e) (createdAt e) (updatedAt e).

End IEvent.

Module IBooking.

Record t : Type := mk {
  _id : ObjectId.t;
  eventId : ObjectId.t;
  email : string;
  createdAt : Z;
  updatedAt : Z
}.

End IBooking.

(** ** The world *)

(** The two collections, in insertion order, and the environment: [faults]
    scripts the coming round trips to the store (the head is consumed by the
    next one; [Some e] makes it fail with [e], [None] or an exhausted script
    lets it through), [round_trips] counts the round trips made so far,
    [next_oid] is the identifier the driver will generate next and [now] the
    clock used for timestamps. *)
Record World : Type := mkWorld {
  events : list IEvent.t;
  bookings : list IBooking.t;
  faults : list (option thrown);
  round_trips : nat;
  next_oid : ObjectId.t;
  now : Z
}.

Definition M (A : Type) : Type := World -> outcome A * World.

Definition ret {A} (a : A) : M A := fun w => (Ok a, w).

Definition throw {A} (e : thrown) : M A := fun w => (Throw e, w).

Definition bind {A B} (m : M A) (k : A -> M B) : M B :=
  fun w =>
    match m w with
    | (Ok a, w') => k a w'
    | (Throw e, w') => (Throw e, w')
    end.

(** [try { body } catch (error) { handler }] *)
Definition try_catch {A} (body : M A) (handler : thrown -> M A) : M A :=
  fun w =>
    match body w with
    | (Ok a, w') => (Ok a, w')
    | (Throw e, w') => handler e w'
    end.

Declare Scope store_scope.
Delimit Scope store_scope with store.
Notation "x <- m ;; k" := (bind m (fun x => k))
  (at level 61, m at next level, right associativity) : store_scope.
Notation "m ;; k" := (bind m (fun _ => k))
  (at level 61, right associativity) : store_scope.
Local Open Scope store_scope.

(** The world after one more round trip. *)
Definition answered (w : World) : World :=
  mkWorld (events w) (bookings w) (tl (faults w)) (S (round_trips w))
          (next_oid w) (now w).

(** One round trip to the store: it consumes the head of the fault script. *)
Definition round_trip : M unit :=
  fun w =>
    match faults w with
    | Some e :: _ => (Throw e, answered w)
    | _ => (Ok tt, answered w)
    end.

(** A read of the collections that follows a successful round trip. *)
Definition query {A} (f : World -> A) : M A :=
  round_trip ;; (fun w => (Ok (f w), w)).

(** Modelled from the spec: [connectDB] of [lib/mongodb], which is not among
    the sources.  The Document Store Adapter "establishes/reuses a connection
    to a document database", with the contract "connect, or fail": one round
    trip that either goes through or throws. *)
Definition connectDB : M unit := round_trip.

(* ================================================================== *)
(** * Dates *)
(* ================================================================== *)

(** The part of the ECMAScript [Date] object the Event hook uses:
    [new Date(string)], [getTime()] (with [None] for [NaN]) and
    [toISOString()].  A time value is a number of milliseconds since
    1970-01-01T00:00:00Z. *)
Module JsDate.

Local Open Scope Z_scope.

Definition msPerDay : Z := 86400000.

(** The largest magnitude of a time value ([TimeClip]). *)
Definition maxTime : Z := 8640000000000000.

Definition TimeClip (t : Z) : option Z :=
  if Z.abs t <=? maxTime then Some t else None.

Definition isLeap (y : Z) : bool :=
  ((y mod 4 =? 0) && negb (y mod 100 =? 0)) || (y mod 400 =? 0).

Definition daysInMonth (y m : Z) : Z :=
  if m =? 2 then (if isLeap y then 29 else 28)
  else if (m =? 4) || (m =? 6) || (m =? 9) || (m =? 11) then 30
  else 31.

(** [MakeDay]: the day number of the civil date [y]-[m]-[d] (proleptic
    Gregorian calendar), counted from 1970-01-01. *)
Definition MakeDay (y m d : Z) : Z :=
  let y' := if m <=? 2 then y - 1 else y in
  let era := y' / 400 in
  let yoe := y' - era * 400 in
  let mp := if 2 <? m then m - 3 else m + 9 in
  let doy := (153 * mp + 2) / 5 + d - 1 in
  let doe := yoe * 365 + yoe / 4 - yoe / 100 + doy in
  era * 146097 + doe - 719468.

(** [YearFromTime], [MonthFromTime] (here 1..12) and [DateFromTime] of a day
    number. *)
Definition civil (day : Z) : Z * Z * Z :=
  let z := day + 719468 in
  let era := z / 146097 in
  let doe := z - era * 146097 in
  let yoe := (doe - doe / 1460 + doe / 36524 - doe / 146096) / 365 in
  let doy := doe - (365 * yoe + yoe / 4 - yoe / 100) in
  let mp := (5 * doy + 2) / 153 in
  let d := doy - (153 * mp + 2) / 5 + 1 in
  let m := if mp <? 10 then mp + 3 else mp - 9 in
  let y := yoe + era * 400 + (if m <=? 2 then 1 else 0) in
  (y, m, d).

Definition MakeTime (h mi s ms : Z) : Z :=
  h * 3600000 + mi * 60000 + s * 1000 + ms.

(** *** Parsing *)

Definition digit_of (c : ascii) : option Z :=
  if Char.digit c then Some (Z.of_nat (Char.code c) - 48) else None.

(** Exactly [n] decimal digits at the head of [s]. *)
Fixpoint number (n : nat) (acc : Z) (s : string) : option (Z * string) :=
  match n with
  | O => Some (acc, s)
  | S n' =>
      match s with
      | String c s' =>
          match digit_of c with
          | Some d => number n' (10 * acc + d) s'
          | None => None
          end
      | EmptyString => None
      end
  end.

(** A given character at the head of [s]. *)
Definition expect (a : ascii) (s : string) : option string :=
  match s with
  | String c s' => if Ascii.eqb a c then Some s' else None
  | EmptyString => None
  end.

(** The UTC offset designator: [Z], [+HH:mm] or [-HH:mm], up to the end of the
    string; the result is the offset in milliseconds. *)
Definition offset (s : string) : option Z :=
  match s with
  | String "Z" EmptyString => Some 0
  | String sign s1 =>
      if Ascii.eqb sign "+" || Ascii.eqb sign "-" then
        match number 2 0 s1 with
        | Some (h, s2) =>
            match expect ":" s2 with
            | Some s3 =>
                match number 2 0 s3 with
                | Some (mi, EmptyString) =>
                    if (h <=? 23) && (mi <=? 59) then
                      let off := MakeTime h mi 0 0 in
                      Some (if Ascii.eqb sign "-" then - off else off)
                    else None
                | _ => None
                end
            | None => None
            end
        | None => None
        end
      else None
  | EmptyString => None
  end.

(** [HH:mm], [HH:mm:ss] or [HH:mm:ss.sss] followed by a UTC offset; the result
    is the time within the day, in UTC, in milliseconds. *)
Definition time_with_offset (s : string) : option Z :=
  match number 2 0 s with
  | Some (h, s1) =>
      match expect ":" s1 with
      | Some s2 =>
          match number 2 0 s2 with
          | Some (mi, s3) =>
              let finish (sec ms : Z) (rest : string) : option Z :=
                match offset rest with
                | Some off =>
                    if (h <=? 23) && (mi <=? 59) && (sec <=? 59)
                    then Some (MakeTime h mi sec ms - off)
                    else None
                | None => None
                end in
              match expect ":" s3 with
              | Some s4 =>
                  match number 2 0 s4 with
                  | Some (sec, s5) =>
                      match expect "." s5 with
                      | Some s6 =>
                          match number 3 0 s6 with
                          | Some (ms, s7) => finish sec ms s7
                          | None => None
                          end
                      | None => finish sec 0 s5
                      end
                  | None => None
                  end
              | None => finish 0 0 s3
              end
          | None => None
          end
      | None => None
      end
  | None => None
  end.

(** The year: four digits, or a sign and six digits (with [-000000]
    excluded). *)
Definition year (s : string) : option (Z * string) :=
  match s with
  | String sign s1 =>
      if Ascii.eqb sign "+" then number 6 0 s1
      else if Ascii.eqb sign "-" then
        match number 6 0 s1 with
        | Some (y, rest) => if y =? 0 then None else Some (- y, rest)
        | None => None
        end
      else number 4 0 s
  | EmptyString => None
  end.

(** The forms of the Date Time String Format whose value does not depend on
    the host: the date-only forms [YYYY], [YYYY-MM] and [YYYY-MM-DD], which are
    UTC, and a full date followed by [T], a time and an explicit UTC offset.
    The fields must denote a date of the calendar. *)
Definition parse_format (s : string) : option Z :=
  match year s with
  | Some (y, s1) =>
      match s1 with
      | EmptyString => Some (MakeDay y 1 1 * msPerDay)
      | _ =>
          match expect "-" s1 with
          | Some s2 =>
              match number 2 0 s2 with
              | Some (m, s3) =>
                  if (1 <=? m) && (m <=? 12) then
                    match s3 with
                    | EmptyString => Some (MakeDay y m 1 * msPerDay)
                    | _ =>
                        match expect "-" s3 with
                        | Some s4 =>
                            match number 2 0 s4 with
                            | Some (d, s5) =>
                                if (1 <=? d) && (d <=? daysInMonth y m) then
                                  match s5 with
                                  | EmptyString => Some (MakeDay y m d * msPerDay)
                                  | String c s6 =>
                                      if Ascii.eqb c "T" then
                                        match time_with_offset s6 with
                                        | Some t => Some (MakeDay y m d * msPerDay + t)
                                        | None => None
                                        end
                                      else None
                                  end
                                else None
                            | None => None
                            end
                        | None => None
                        end
                    end
                  else None
              | None => None
              end
          | None => None
          end
      end
  | None => None
  end.

(** [new Date(s).getTime()], with [None] for [NaN].  Every other string
    (a date-time form without offset, read in the local time zone, and the
    formats an engine accepts beyond the standard one) is left to [host], the
    engine's own parser. *)
Definition parse (host : string -> option Z) (s : string) : option Z :=
  match parse_format s with
  | Some t => TimeClip t
  | None =>
      match host s with
      | Some t => TimeClip t
      | None => None
      end
  end.

(** *** Printing *)

Definition digit_char (d : Z) : ascii := ascii_of_nat (48 + Z.to_nat d).

(** [n] written with [k] decimal digits. *)
Fixpoint pad (k : nat) (n : Z) (acc : string) : string :=
  match k with
  | O => acc
  | S k' => pad k' (n / 10) (String (digit_char (n mod 10)) acc)
  end.

Definition year_string (y : Z) : string :=
  if (0 <=? y) && (y <=? 9999) then pad 4 y ""
  else if y <? 0 then String "-" (pad 6 (- y) "")
  else String "+" (pad 6 y "").

(** [toISOString()] of a valid time value. *)
Definition toISOString (t : Z) : string :=
  let day := t / msPerDay in
  let ms := t mod msPerDay in
  let '(y, m, d) := civil day in
  (year_string y ++ "-" ++ pad 2 m "" ++ "-" ++ pad 2 d "" ++ "T"
   ++ pad 2 (ms / 3600000) "" ++ ":" ++ pad 2 (ms / 60000 mod 60) "" ++ ":"
   ++ pad 2 (ms / 1000 mod 60) "" ++ "." ++ pad 3 (ms mod 1000) "" ++ "Z")%string.

End JsDate.

(* ================================================================== *)
(** * Mongoose documents *)
(* ================================================================== *)

(** What a [pre('save')] hook sees of [this]: the field values, [this.isNew]
    and the paths for which [this.isModified(path)] holds. *)
Record document (A : Type) : Type := mkDocument {
  fields : A;
  isNew : bool;
  modifiedPaths : list string
}.

Definition isModified {A} (path : string) (this : document A) : bool :=
  existsb (String.eqb path) (modifiedPaths this).

(* ================================================================== *)
(** * database/event.model.ts *)
(* ================================================================== *)

Module Event.

Import IEvent.

(** The setters of the [slug] path ([lowercase: true, trim: true]); Mongoose
    runs them on assignment and when it casts a query filter.  The two
    commute, see [trim_toLowerCase]. *)
Definition slug_setter (v : string) : string := Str.trim (Str.toLowerCase v).

(** The character class [[\w\s-]], whose complement the first [replace] of the
    hook deletes. *)
Definition word_space_hyphen (c : ascii) : bool :=
  Char.word c || Char.space c || Char.eq "-" c.

(** The expression assigned to [this.slug]:
<<
    this.title.toLowerCase().trim()
        .replace(/[^\w\s-]/g, '').replace(/\s+/g, '-')
        .replace(/-+/g, '-').replace(/^-+|-+$/g, '')
>> *)
Definition slugify (title : string) : string :=
  Str.strip_ends (Char.eq "-")
    (Str.replace_runs (Char.eq "-") "-"
      (Str.replace_runs Char.space "-"
        (Str.remove_outside word_space_hyphen
          (Str.trim (Str.toLowerCase title))))).

(** [/^([0-1]?[0-9]|2[0-3]):[0-5][0-9]$/] *)
Definition timeRegex : Re.re :=
  Re.Seq
    (Re.Alt (Re.Seq (Re.Opt (Re.Range "0" "1")) (Re.Range "0" "9"))
            (Re.Seq (Re.Chr "2") (Re.Range "0" "3")))
    (Re.Seq (Re.Chr ":") (Re.Seq (Re.Range "0" "5") (Re.Range "0" "9"))).

Definition InvalidDateFormat : thrown :=
  ErrorObj "Invalid date format. Use a valid date string.".

Definition InvalidTimeFormat : thrown :=
  ErrorObj "Invalid time format. Use HH:MM format (e.g., 14:30).".

Definition EmptyAgenda : thrown := ErrorObj "Agenda cannot be empty".

Definition EmptyTags : thrown := ErrorObj "Tags cannot be empty".

(** The four blocks of [eventSchema.pre('save', ...)], in the order of the
    source.  [host] is the engine's date parser, see [JsDate.parse]. *)

Definition generate_slug (this : document t) : document t :=
  if isModified "title" this
  then mkDocument (with_slug (slug_setter (slugify (title (fields this)))) (fields this))
                  (isNew this) (modifiedPaths this)
  else this.

Definition normalize_date (host : string -> option Z) (this : document t)
  : outcome (document t) :=
  if isModified "date" this then
    match JsDate.parse host (date (fields this)) with
    | None => Throw InvalidDateFormat
    | Some parsedDate =>
        Ok (mkDocument
              (with_date (Str.before "T" (JsDate.toISOString parsedDate)) (fields this))
              (isNew this) (modifiedPaths this))
    end
  else Ok this.

Definition validate_time (this : document t) : outcome (document t) :=
  if isModified "time" this && negb (Re.test timeRegex (time (fields this)))
  then Throw InvalidTimeFormat
  else Ok this.

Definition validate_arrays (this : document t) : outcome (document t) :=
  if (List.length (agenda (fields this)) =? 0)%nat then Throw EmptyAgenda
  else if (List.length (tags (fields this)) =? 0)%nat then Throw EmptyTags
  else Ok this.

(** [eventSchema.pre('save', function () { ... })]: the fields of the document
    after the hook, or the error it throws. *)
Definition pre_save (host : string -> option Z) (this : document t) : outcome t :=
  match normalize_date host (generate_slug this) with
  | Throw e => Throw e
  | Ok this1 =>
      match validate_time this1 with
      | Throw e => Throw e
      | Ok this2 =>
          match validate_arrays this2 with
          | Throw e => Throw e
          | Ok this3 => Ok (fields this3)
          end
      end
  end.

(** [Event.findOne({ slug })] *)
Definition findOne (slug_ : string) : M (option t) :=
  query (fun w => find (fun e => String.eqb (slug e) (slug_setter slug_)) (events w)).

(** [Event.findById(id)] *)
Definition findById (id : ObjectId.t) : M (option t) :=
  query (fun w => find (fun e => ObjectId.eqb (_id e) id) (events w)).

(** [sort({ createdAt: -1 })]: most recent first; documents created at the
    same instant keep their order in the collection. *)
Fixpoint insert_recent (e : t) (l : list t) : list t :=
  match l with
  | [] => [e]
  | x :: l' =>
      if (createdAt x <=? createdAt e)%Z then e :: l
      else x :: insert_recent e l'
  end.

Definition sort_recent (l : list t) : list t := fold_right insert_recent [] l.

(** [limit(n)]: the store returns at most [|n|] documents, and all of them
    when [n] is 0. *)
Definition limit (n : Z) (l : list t) : list t :=
  if (n =? 0)%Z then l else firstn (Z.to_nat (Z.abs n)) l.

(** [$in] on an array path: some element of the document's array is one of
    the given values. *)
Definition in_any (values : list string) (array : list string) : bool :=
  existsb (fun x => existsb (String.eqb x) values) array.

(** [Event.find({ _id: { $ne: id }, tags: { $in: values } })
         .limit(n).sort({ createdAt: -1 })].
    [limit] and [sort] are options of one query; the store sorts, then
    limits. *)
Definition find_ne_id_in_tags (id : ObjectId.t) (values : list string) (n : Z)
  : M (list t) :=
  query (fun w =>
    limit n (sort_recent
      (filter (fun e => negb (ObjectId.eqb (_id e) id) && in_any values (tags e))
              (events w)))).

End Event.

(* ================================================================== *)
(** * database/booking.model.ts *)
(* ================================================================== *)

Module Booking.

Import IBooking.

(** The character class [[^\s@]]. *)
Definition not_space_at (c : ascii) : bool := negb (Char.space c || Char.eq "@" c).

(** [/^[^\s@]+@[^\s@]+\.[^\s@]+$/], the pattern of the [validate] option of
    [email]; [createBooking] tests the same one. *)
Definition emailRegex : Re.re :=
  Re.Seq (Re.Plus (Re.Cls not_space_at))
    (Re.Seq (Re.Chr "@")
      (Re.Seq (Re.Plus (Re.Cls not_space_at))
        (Re.Seq (Re.Chr ".") (Re.Plus (Re.Cls not_space_at))))).

(** The setters of the [email] path ([trim: true, lowercase: true]). *)
Definition email_setter (v : string) : string := Str.trim (Str.toLowerCase v).

(** Schema validation of a new document ([required] and the [validate]
    option of [email]); Mongoose runs it before the [pre('save')] hooks. *)
Definition validate (email_ : string) : M unit :=
  if Str.is_empty email_
  then throw (ErrorObj "Booking validation failed: email: Email is required")
  else if negb (Re.test emailRegex email_)
  then throw (ErrorObj
         "Booking validation failed: email: Please provide a valid email address")
  else ret tt.

Definition EventDoesNotExist (id : ObjectId.t) : thrown :=
  ErrorObj ("Event with ID " ++ ObjectId.toString id ++ " does not exist").

(** [bookingSchema.pre('save', async function () { ... })] *)
Definition pre_save (this : document t) : M unit :=
  if isNew this || isModified "eventId" this then
    eventExists <- Event.findById (eventId (fields this)) ;;
    match eventExists with
    | None => throw (EventDoesNotExist (eventId (fields this)))
    | Some _ => ret tt
    end
  else ret tt.

(** The error of the server when an insert violates the unique index
    [{ eventId: 1, email: 1 }] (the message is cut after the index name). *)
Definition DuplicateKey : thrown :=
  ErrorObj "E11000 duplicate key error collection: bookings index: eventId_1_email_1".

Definition same_key (id : ObjectId.t) (email_ : string) (b : t) : bool :=
  ObjectId.eqb (eventId b) id && String.eqb (email b) email_.

(** The insert itself: one round trip, guarded by the unique index. *)
Definition insertOne (b : t) : M t :=
  round_trip ;;
  (fun w =>
     if existsb (same_key (eventId b) (email b)) (bookings w)
     then (Throw DuplicateKey, w)
     else (Ok b, mkWorld (events w) (bookings w ++ [b]) (faults w)
                         (round_trips w) (next_oid w) (now w))).

(** [new Booking({ eventId, email })]: the setters run, the driver draws the
    [_id]; the timestamps are those the save will write. *)
Definition new (id : ObjectId.t) (email_ : string) : M (document t) :=
  fun w =>
    (Ok (mkDocument (mk (next_oid w) id (email_setter email_) (now w) (now w))
                    true ["eventId"; "email"]),
     mkWorld (events w) (bookings w) (faults w) (round_trips w)
             (N.succ (next_oid w)) (now w)).

(** [Booking.create({ eventId, email })] *)
Definition create (id : ObjectId.t) (email_ : string) : M t :=
  this <- new id email_ ;;
  validate (email (fields this)) ;;
  pre_save this ;;
  insertOne (fields this).

(** [Booking.findOne({ eventId, email })] *)
Definition findOne (id : ObjectId.t) (email_ : string) : M (option t) :=
  query (fun w => find (same_key id (email_setter email_)) (bookings w)).

End Booking.

(* ================================================================== *)
(** * lib/actions/booking.actions *)
(* ================================================================== *)

Module BookingActions.

Record BookingData : Type := mkData {
  bookingId : string;
  eventId : string;
  email : string
}.

Record BookingResponse : Type := mkResponse {
  success : bool;
  message : string;
  data : option BookingData;
  error : option string
}.

Definition rejected (msg : string) : BookingResponse :=
  mkResponse false msg None None.

Definition MissingEventId : BookingResponse := rejected "Event ID is required".
Definition MissingEmail : BookingResponse := rejected "Email is required".
Definition InvalidEmailFormat : BookingResponse := rejected "Invalid email format".
Definition InvalidEventIdFormat : BookingResponse := rejected "Invalid event ID format".
Definition AlreadyBooked : BookingResponse :=
  rejected "You have already booked this event".
Definition EventNotFound : BookingResponse := rejected "Event not found".

Definition Created (booking : IBooking.t) : BookingResponse :=
  mkResponse true "Booking created successfully"
    (Some (mkData (ObjectId.toString (IBooking._id booking))
                  (ObjectId.toString (IBooking.eventId booking))
                  (IBooking.email booking)))
    None.

(** The [catch (error)] clause of [createBooking]. *)
Definition on_error (error_ : thrown) : BookingResponse :=
  match error_ with
  | ErrorObj msg =>
      if Str.includes "duplicate key" msg then AlreadyBooked
      else if Str.includes "does not exist" msg then EventNotFound
      else if Str.includes "validation failed" msg
      then mkResponse false "Invalid booking data" None (Some msg)
      else mkResponse false "Failed to create booking. Please try again." None (Some msg)
  | NonError =>
      mkResponse false "Failed to create booking. Please try again." None
                 (Some "Unknown error")
  end.

(** The [try] block of [createBooking], from [await connectDB()] on: the
    duplicate check, then the insert. *)
Definition createBooking_store (eventId_ email_ : string) : M BookingResponse :=
  connectDB ;;
  existingBooking <- Booking.findOne (ObjectId.ofString eventId_)
                                     (Str.trim (Str.toLowerCase email_)) ;;
  match existingBooking with
  | Some _ => ret AlreadyBooked
  | None =>
      booking <- Booking.create (ObjectId.ofString eventId_)
                                (Str.trim (Str.toLowerCase email_)) ;;
      ret (Created booking)
  end.

(** The [try] block of [createBooking]: the four checks of the input, then
    the store. *)
Definition createBooking_try (eventId_ email_ : string) : M BookingResponse :=
  if Str.is_empty eventId_ || Str.is_empty (Str.trim eventId_) then ret MissingEventId
  else if Str.is_empty email_ || Str.is_empty (Str.trim email_) then ret MissingEmail
  else if negb (Re.test Booking.emailRegex email_) then ret InvalidEmailFormat
  else if negb (ObjectId.isValid eventId_) then ret InvalidEventIdFormat
  else createBooking_store eventId_ email_.

(** [createBooking({ eventId, email })] *)
Definition createBooking (eventId_ email_ : string) : M BookingResponse :=
  try_catch (createBooking_try eventId_ email_) (fun error_ => ret (on_error error_)).

End BookingActions.

(* ================================================================== *)
(** * The action getSimilarEventsBySlug *)
(* ================================================================== *)

Module EventActions.

(** The [try] block of [getSimilarEventsBySlug]. *)
Definition getSimilarEventsBySlug_try (slug : string) (limit : Z) : M (list IEvent.t) :=
  if Str.is_empty slug || Str.is_empty (Str.trim slug) then ret []
  else
    connectDB ;;
    event <- Event.findOne slug ;;
    match event with
    | None => ret []
    | Some event =>
        if (List.length (IEvent.tags event) =? 0)%nat then ret []
        else Event.find_ne_id_in_tags (IEvent._id event) (IEvent.tags event) limit
    end.

(** [getSimilarEventsBySlug(slug, limit = 5)]; [None] is an omitted [limit]. *)
Definition getSimilarEventsBySlug (slug : string) (limit : option Z) : M (list IEvent.t) :=
  let limit := match limit with Some n => n | None => 5%Z end in
  try_catch (getSimilarEventsBySlug_try slug limit) (fun _ => ret []).

End EventActions.

(* ================================================================== *)
(** * app/api/events/[slug]/route.ts *)
(* ================================================================== *)

Module Route.

(** [NextResponse.json(body, { status })] with the three keys a body of this
    route can have. *)
Record NextResponse : Type := json {
  status : nat;
  message : string;
  event : option IEvent.t;
  error : option string
}.

(** The character class [[a-z0-9]]. *)
Definition lower_or_digit (c : ascii) : bool := Char.lower c || Char.digit c.

(** [/^[a-z0-9]+(?:-[a-z0-9]+)*$/] *)
Definition slugRegex : Re.re :=
  Re.Seq (Re.Plus (Re.Cls lower_or_digit))
         (Re.Star (Re.Seq (Re.Chr "-") (Re.Plus (Re.Cls lower_or_digit)))).

Definition InvalidSlugFormat : NextResponse :=
  json 400
    "Invalid slug format. Slug must contain only lowercase letters, numbers, and hyphens"
    None None.

Definition on_error (error_ : thrown) : NextResponse :=
  match error_ with
  | ErrorObj msg =>
      if Str.includes "MONGODB_URI" msg
      then json 500 "Database configuration error" None None
      else json 500 "Failed to fetch event" None (Some msg)
  | NonError => json 500 "Failed to fetch event" None (Some "Unknown error occurred")
  end.

Definition GET_try (slug : string) : M NextResponse :=
  if Str.is_empty slug then ret (json 400 "Slug parameter is required" None None)
  else if negb (Re.test slugRegex slug) then ret InvalidSlugFormat
  else
    connectDB ;;
    event_ <- Event.findOne slug ;;
    match event_ with
    | None => ret (json 404 ("Event with slug '" ++ slug ++ "' not found") None None)
    | Some e => ret (json 200 "Event fetched successfully" (Some e) None)
    end.

(** [GET(req, { params })], as a function of the [slug] parameter. *)
Definition GET (slug : string) : M NextResponse :=
  try_catch (GET_try slug) (fun error_ => ret (on_error error_)).

End Route.

(* ================================================================== *)
(** * Vocabulary of the properties *)
(* ================================================================== *)

Module Spec.

(** The store answers every coming round trip. *)
Definition healthy (w : World) : Prop := faults w = [].

(** [!x || x.trim() === ''] on a string: the field is missing or blank. *)
Definition blank (s : string) : bool := Str.is_empty (Str.trim s).


Definition event_exists (id : ObjectId.t) (w : World) : bool :=
  existsb (fun e => ObjectId.eqb (IEvent._id e) id) (events w).

(** A Booking for this event and this stored e-mail address is in the
    collection. *)
Definition booked (id : ObjectId.t) (email : string) (w : World) : bool :=
  existsb (Booking.same_key id email) (bookings w).

(** The Booking that [Booking.create] builds in the world [w]. *)
Definition booking_of (w : World) (id : ObjectId.t) (email : string) : IBooking.t :=
  IBooking.mk (next_oid w) id email (now w) (now w).

(** The store answers the next [n] round trips. *)
Definition answers (n : nat) (w : World) : Prop :=
  forall i, (i < n)%nat -> nth i (faults w) None = None.

(** The store fails the round trip number [n] from now (counted from 0) with
    the error [e]. *)
Definition fails_at (n : nat) (e : thrown) (w : World) : Prop :=
  nth n (faults w) None = Some e.

(** Every Booking of the collection references an Event of the collection. *)
Definition referential_integrity (w : World) : Prop :=
  forall b, In b (bookings w) -> event_exists (IBooking.eventId b) w = true.

(** The unique index on [slug]. *)
Definition unique_slugs (w : World) : Prop := NoDup (List.map IEvent.slug (events w)).

(** ** Slugs *)

(** The alphabet the specification gives to a slug. *)
Definition lower_alnum_or_hyphen (c : ascii) : bool :=
  Char.lower c || Char.digit c || Char.eq "-" c.

(** The alphabet of the slugs the hook derives. *)
Definition lower_alnum_underscore_or_hyphen (c : ascii) : bool :=
  Char.lower c || Char.digit c || Char.eq "_" c || Char.eq "-" c.

Definition starts_with_hyphen (s : string) : bool :=
  match Str.first s with Some c => Char.eq "-" c | None => false end.

Definition ends_with_hyphen (s : string) : bool :=
  match Str.last s with Some c => Char.eq "-" c | None => false end.

(** Characters of [alphabet] only, hyphens single, none at either end. *)
Definition slug_shape (alphabet : ascii -> bool) (s : string) : bool :=
  Str.all alphabet s && negb (Str.includes "--" s)
  && negb (starts_with_hyphen s) && negb (ends_with_hyphen s).

(** ** Times *)

Definition minutes (m1 m2 : ascii) : bool :=
  Char.between "0" "5" m1 && Char.digit m2.

(** Two-digit 24-hour [HH:MM], [00:00] to [23:59]. *)
Definition HHMM (s : string) : bool :=
  match s with
  | String h1 (String h2 (String c (String m1 (String m2 EmptyString)))) =>
      ((Char.between "0" "1" h1 && Char.digit h2)
       || (Char.eq "2" h1 && Char.between "0" "3" h2))
      && Char.eq ":" c && minutes m1 m2
  | _ => false
  end.

(** One-digit hour [H:MM], [0:00] to [9:59]. *)
Definition HMM (s : string) : bool :=
  match s with
  | String h (String c (String m1 (String m2 EmptyString))) =>
      Char.digit h && Char.eq ":" c && minutes m1 m2
  | _ => false
  end.

(** ** Similar events *)

Definition shares_tag (a b : list string) : bool :=
  existsb (fun x => existsb (String.eqb x) b) a.

(** [e] is another Event than [src] and has a tag of [src]. *)
Definition similar (src e : IEvent.t) : bool :=
  negb (ObjectId.eqb (IEvent._id e) (IEvent._id src))
  && shares_tag (IEvent.tags src) (IEvent.tags e).

(** Most recently created first. *)
Definition recent_first (l : list IEvent.t) : Prop :=
  StronglySorted (fun a b => (IEvent.createdAt b <= IEvent.createdAt a)%Z) l.

End Spec.

(* ================================================================== *)
(** * Sample data *)
(* ================================================================== *)

Module Sample.

Definition event (id : N) (title_ slug_ : string) (tags_ : list string) (created : Z)
  : IEvent.t :=
  IEvent.mk id title_ slug_ "description" "overview" "/images/event.png" "venue"
            "location" "2024-03-05" "10:00" "online" "developers" ["opening"]
            "organizer" tags_ created created.

Definition conf_id : string := "507f1f77bcf86cd799439011".

Definition conf : IEvent.t :=
  event (ObjectId.ofString conf_id) "My Event" "my-event" ["ai"; "infra"] 1000.

Definition meetup : IEvent.t := event 2 "AI Meetup" "ai-meetup" ["ai"] 2000.

Definition summit : IEvent.t := event 3 "AI Summit" "ai-summit" ["web"; "ai"] 3000.

Definition gala : IEvent.t := event 4 "Design Gala" "design-gala" ["design"] 4000.

(** A store with four events and no booking, which answers every round
    trip. *)
Definition world : World :=
  mkWorld [conf; meetup; summit; gala] [] [] 0 4096%N 1709632800000%Z.

(** The same store, unreachable: the next round trip fails. *)
Definition offline : World :=
  mkWorld [conf; meetup; summit; gala] [] [Some (ErrorObj "connect ECONNREFUSED")]
          0 4096%N 1709632800000%Z.

(** The same store when the fourth round trip (the insert) is refused by the
    unique index. *)
Definition racing : World :=
  mkWorld [conf; meetup; summit; gala] [] [None; None; None; Some Booking.DuplicateKey]
          0 4096%N 1709632800000%Z.

(** A new Event document, every path set. *)
Definition draft (title_ date_ time_ : string) : document IEvent.t :=
  mkDocument
    (IEvent.mk 5%N title_ "" "description" "overview" "/images/event.png" "venue"
               "location" date_ time_ "online" "developers" ["opening"]
               "organizer" ["ai"] 0%Z 0%Z)
    true ["title"; "date"; "time"; "agenda"; "tags"].

(** An engine whose parser accepts nothing beyond the standard format. *)
Definition strict_host : string -> option Z := fun _ => None.

End Sample.

(* ================================================================== *)
(** * components/BookEvent *)
(* ================================================================== *)

Module BookEvent.

(** The four [useState] cells of the component. *)
Record State : Type := mkState {
  email : string;
  submitted : bool;
  loading : bool;
  error : option string
}.

(** The state of the first render. *)
Definition initial : State := mkState "" false false None.

(** One call of [posthog.capture(name, properties)]. *)
Inductive Capture : Type :=
| booking_successful (eventId email : string) (bookingId : option string)
                     (timestamp : string)
| booking_failed (eventId email error errorType timestamp : string).

(** A string used as a condition: the empty string is false. *)
Definition truthy (s : string) : bool := negb (Str.is_empty s).

(** [handleSubmit], as a function of the state of the render it belongs to,
    of the [eventId] prop and of the server action it awaits (imported as
    [createBooking]): the state after the handler has returned, with the
    captures appended to the analytics log.  [new Date()] reads the clock of
    the world. *)
Definition handleSubmit
  (createBooking : string -> string -> M BookingActions.BookingResponse)
  (eventId : string) (st : State) (log : list Capture)
  : World -> (State * list Capture) * World :=
  fun w =>
    if negb (truthy (Str.trim (email st))) then
      ((mkState (email st) (submitted st) (loading st) (Some "Email is required"), log), w)
    else
      match createBooking eventId (Str.trim (email st)) w with
      | (Ok result, w') =>
          if BookingActions.success result then
            ((mkState "" true false None,
              (log ++ [booking_successful eventId (Str.trim (email st))
                        (option_map BookingActions.bookingId (BookingActions.data result))
                        (JsDate.toISOString (now w'))])%list),
             w')
          else
            ((mkState (email st) (submitted st) false
                      (Some (if truthy (BookingActions.message result)
                             then BookingActions.message result
                             else "Failed to create booking")),
              (log ++ [booking_failed eventId (Str.trim (email st))
                        (BookingActions.message result) "validation_error"
                        (JsDate.toISOString (now w'))])%list),
             w')
      | (Throw err, w') =>
          ((mkState (email st) (submitted st) false
                    (Some "An unexpected error occurred. Please try again."),
            (log ++ [booking_failed eventId (Str.trim (email st))
                      (match err with ErrorObj msg => msg | NonError => "Unknown error" end)
                      "unexpected_error" (JsDate.toISOString (now w'))])%list),
           w')
      end.

(** The [onChange] handler of the input. *)
Definition onChange (value : string) (st : State) : State :=
  mkState value (submitted st) (loading st)
          (match error st with
           | Some msg => if truthy msg then None else Some msg
           | None => None
           end).

(** The [onClick] handler of "Book another spot". *)
Definition bookAnother (st : State) : State :=
  mkState (email st) false (loading st) (error st).

(** What the component renders: the success message, or the form with the
    [disabled] flag of the input, the [disabled] flag of the button, the error
    paragraph and the label of the button. *)
Inductive View : Type :=
| SuccessMessage
| Form (inputDisabled submitDisabled : bool) (errorShown : option string)
       (buttonLabel : string).

Definition render (st : State) : View :=
  if submitted st then SuccessMessage
  else Form (loading st)
            (loading st || negb (truthy (Str.trim (email st))))
            (match error st with
             | Some msg => if truthy msg then Some msg else None
             | None => None
             end)
            (if loading st then "Booking..." else "Book Your Spot").

End BookEvent.

(* ================================================================== *)
(** * The validators of the Event schema *)
(* ================================================================== *)

Module EventSchema.

(** [(v: string[]) => Array.isArray(v) && v.length > 0], the [validate]
    option of the [agenda] path and of the [tags] path. *)
Definition array_validator (v : list string) : bool := (0 <? List.length v)%nat.

End EventSchema.

(* ================================================================== *)
(** * Vocabulary of the further properties *)
(* ================================================================== *)

Module Inv.

(** The key of the unique index [{ eventId: 1, email: 1 }]. *)
Definition key (b : IBooking.t) : ObjectId.t * string :=
  (IBooking.eventId b, IBooking.email b).

(** No two Bookings of the collection have the same key. *)
Definition unique_bookings (w : World) : Prop :=
  NoDup (List.map key (bookings w)).

(** Every stored address matches the e-mail pattern and is in the form the
    setters produce. *)
Definition stored_emails_normal (w : World) : Prop :=
  forall b, In b (bookings w) ->
    Re.test Booking.emailRegex (IBooking.email b) = true
    /\ Booking.email_setter (IBooking.email b) = IBooking.email b.

(** The two collections of [w'] are those of [w]. *)
Definition same_collections (w w' : World) : Prop :=
  events w' = events w /\ bookings w' = bookings w.

Definition is_some {A : Type} (o : option A) : bool :=
  match o with Some _ => true | None => false end.

(** The four checks of the Event hook, as conditions on the document. *)
Definition date_passes (host : string -> option Z) (this : document IEvent.t) : bool :=
  negb (isModified "date" this)
  || is_some (JsDate.parse host (IEvent.date (fields this))).

Definition time_passes (this : document IEvent.t) : bool :=
  negb (isModified "time" this)
  || Re.test Event.timeRegex (IEvent.time (fields this)).

Definition has_agenda (this : document IEvent.t) : bool :=
  negb (List.length (IEvent.agenda (fields this)) =? 0)%nat.

Definition has_tags (this : document IEvent.t) : bool :=
  negb (List.length (IEvent.tags (fields this)) =? 0)%nat.

(** The document that a save hands back to the next save: the fields the hook
    returned, the same paths marked. *)
Definition saved (this : document IEvent.t) (e : IEvent.t) : document IEvent.t :=
  mkDocument e (isNew this) (modifiedPaths this).

(** The seven answers of [createBooking] that are not failures of the store. *)
Definition expected_answer (r : BookingActions.BookingResponse) : Prop :=
  r = BookingActions.MissingEventId \/ r = BookingActions.MissingEmail
  \/ r = BookingActions.InvalidEmailFormat \/ r = BookingActions.InvalidEventIdFormat
  \/ r = BookingActions.AlreadyBooked \/ r = BookingActions.EventNotFound
  \/ exists b, r = BookingActions.Created b.

(** The statuses of the route. *)
Definition known_status (n : nat) : bool :=
  (n =? 200)%nat || (n =? 400)%nat || (n =? 404)%nat || (n =? 500)%nat.

(** The date part of an ISO string. *)
Definition date_string (y m d : Z) : string :=
  JsDate.year_string y ++ "-" ++ JsDate.pad 2 m "" ++ "-" ++ JsDate.pad 2 d "".

(** [new Date(t).toISOString().split('T')[0]] *)
Definition iso_date (t : Z) : string := Str.before "T" (JsDate.toISOString t).

(** The first instant of the UTC day of [t]. *)
Definition utc_midnight (t : Z) : Z := (t / JsDate.msPerDay * JsDate.msPerDay)%Z.

End Inv.

(* ================================================================== *)
(** * Facts about characters and strings *)
(* ================================================================== *)

Unset Implicit Arguments.

(** A property of one character is settled on the 256 of them. *)
Ltac each_char c :=
  destruct c as [[] [] [] [] [] [] [] []]; vm_compute;
  repeat split; intros; try reflexivity; try discriminate; auto.

Lemma hex_not_space : forall c, Char.hex c = true -> Char.space c = false.
Proof. intros c; each_char c. Qed.

Lemma toLower_space : forall c, Char.space (Char.toLower c) = Char.space c.
Proof. intros c; each_char c. Qed.

Lemma toLower_idempotent : forall c, Char.toLower (Char.toLower c) = Char.toLower c.
Proof. intros c; each_char c. Qed.

Lemma toLower_not_upper : forall c, Char.upper (Char.toLower c) = false.
Proof. intros c; each_char c. Qed.

Lemma toLower_at : forall c, Char.eq "@" (Char.toLower c) = Char.eq "@" c.
Proof. intros c; each_char c. Qed.

Lemma toLower_dot : forall c, Char.eq "." (Char.toLower c) = Char.eq "." c.
Proof. intros c; each_char c. Qed.

Lemma slug_char_fixed :
  forall c, Spec.lower_alnum_or_hyphen c = true ->
            Char.toLower c = c /\ Char.space c = false.
Proof. intros c; each_char c. Qed.

Lemma all_impl :
  forall (p q : ascii -> bool) s,
    (forall c, p c = true -> q c = true) -> Str.all p s = true -> Str.all q s = true.
Proof.
  intros p q s Hpq. induction s as [|c s IH]; simpl; intros H; [reflexivity|].
  apply andb_true_iff in H. destruct H as [Hc Hs].
  rewrite (Hpq c Hc), (IH Hs). reflexivity.
Qed.

Lemma all_append :
  forall p s t, Str.all p (s ++ t) = Str.all p s && Str.all p t.
Proof.
  intros p s t. induction s as [|c s IH]; simpl; [reflexivity|].
  rewrite IH. apply andb_assoc.
Qed.



Lemma append_assoc : forall s t u : string, (s ++ t) ++ u = s ++ (t ++ u).
Proof. induction s as [|c s IH]; intros; simpl; [reflexivity|]. now rewrite IH. Qed.

Lemma map_append :
  forall f s t, Str.map f (s ++ t) = Str.map f s ++ Str.map f t.
Proof. intros f s t. induction s as [|c s IH]; simpl; congruence. Qed.

Lemma map_fixed :
  forall f p s,
    (forall c, p c = true -> f c = c) -> Str.all p s = true -> Str.map f s = s.
Proof.
  intros f p s Hf. induction s as [|c s IH]; simpl; intros H; [reflexivity|].
  apply andb_true_iff in H. destruct H as [Hc Hs].
  rewrite (Hf c Hc), (IH Hs). reflexivity.
Qed.

Lemma toLowerCase_idempotent :
  forall s, Str.toLowerCase (Str.toLowerCase s) = Str.toLowerCase s.
Proof.
  unfold Str.toLowerCase. induction s as [|c s IH]; simpl; [reflexivity|].
  now rewrite toLower_idempotent, IH.
Qed.

(** ** Trimming *)

Lemma trimEnd_fixed :
  forall s, Str.all Char.not_space s = true -> Str.trimEnd s = s.
Proof.
  induction s as [|c s IH]; simpl; intros H; [reflexivity|].
  apply andb_true_iff in H. destruct H as [Hc Hs].
  rewrite (IH Hs). unfold Char.not_space in Hc. apply negb_true_iff in Hc.
  destruct s; [now rewrite Hc | reflexivity].
Qed.

Lemma trimStart_fixed :
  forall s, Str.all Char.not_space s = true -> Str.trimStart s = s.
Proof.
  intros [|c s] H; simpl in *; [reflexivity|].
  apply andb_true_iff in H. destruct H as [Hc _].
  unfold Char.not_space in Hc. apply negb_true_iff in Hc. now rewrite Hc.
Qed.

Lemma trim_fixed :
  forall s, Str.all Char.not_space s = true -> Str.trim s = s.
Proof.
  intros s H. unfold Str.trim. rewrite (trimStart_fixed _ H). now apply trimEnd_fixed.
Qed.

Lemma toLowerCase_not_space :
  forall s, Str.all Char.not_space (Str.toLowerCase s) = Str.all Char.not_space s.
Proof.
  unfold Str.toLowerCase, Char.not_space.
  induction s as [|c s IH]; simpl; [reflexivity|].
  now rewrite toLower_space, IH.
Qed.

Lemma trimStart_toLowerCase :
  forall s, Str.trimStart (Str.toLowerCase s) = Str.toLowerCase (Str.trimStart s).
Proof.
  unfold Str.toLowerCase. induction s as [|c s IH]; simpl; [reflexivity|].
  rewrite toLower_space. destruct (Char.space c); [exact IH | reflexivity].
Qed.

Lemma trimEnd_toLowerCase :
  forall s, Str.trimEnd (Str.toLowerCase s) = Str.toLowerCase (Str.trimEnd s).
Proof.
  unfold Str.toLowerCase. induction s as [|c s IH]; simpl; [reflexivity|].
  rewrite IH, toLower_space.
  destruct (Str.trimEnd s); simpl; [destruct (Char.space c) |]; reflexivity.
Qed.

(** The two setters of a [trim: true, lowercase: true] path commute. *)
Lemma trim_toLowerCase :
  forall s, Str.trim (Str.toLowerCase s) = Str.toLowerCase (Str.trim s).
Proof.
  intros s. unfold Str.trim. now rewrite trimStart_toLowerCase, trimEnd_toLowerCase.
Qed.

Lemma no_space_not_blank :
  forall s, Str.all Char.not_space s = true -> Str.is_empty s = false ->
            Spec.blank s = false.
Proof. intros s H He. unfold Spec.blank. now rewrite (trim_fixed _ H). Qed.

(** ** Substrings *)

Lemma startsWith_all :
  forall p needle s,
    Str.startsWith needle s = true -> Str.all p s = true -> Str.all p needle = true.
Proof.
  intros p needle. induction needle as [|a n IH]; intros [|b s] Hs Ha; simpl in *;
    try reflexivity; try discriminate.
  apply andb_true_iff in Hs. destruct Hs as [Hab Hs].
  apply andb_true_iff in Ha. destruct Ha as [Hb Ha].
  apply Ascii.eqb_eq in Hab. subst b. rewrite Hb. simpl. eauto.
Qed.

(** A needle with a character outside [p] does not occur in a string made of
    characters of [p]. *)
Lemma includes_needs_chars :
  forall p needle s,
    Str.all p s = true -> Str.all p needle = false -> Str.includes needle s = false.
Proof.
  intros p needle s Hs Hn. apply not_true_iff_false. intros Hi.
  induction s as [|c s IH].
  - simpl in Hi. rewrite orb_false_r in Hi.
    rewrite (startsWith_all p _ _ Hi Hs) in Hn. discriminate.
  - simpl in Hi. apply orb_true_iff in Hi. destruct Hi as [Hi|Hi].
    + rewrite (startsWith_all p _ _ Hi Hs) in Hn. discriminate.
    + simpl in Hs. apply andb_true_iff in Hs. tauto.
Qed.

Lemma includes_append_r :
  forall needle s t, Str.includes needle t = true -> Str.includes needle (s ++ t) = true.
Proof.
  intros needle s t H. induction s as [|c s IH]; simpl; [exact H|].
  rewrite IH. apply orb_true_r.
Qed.

(* ================================================================== *)
(** * Facts about regular expressions *)
(* ================================================================== *)

Section Matching.

Import Re.

Lemma Lang_Void_inv : forall s, Lang Void s -> False.
Proof. intros s H. inversion H. Qed.

Lemma Lang_Eps_inv : forall s, Lang Eps s -> s = "".
Proof. intros s H. now inversion H. Qed.

Lemma Lang_Cls_inv :
  forall p s, Lang (Cls p) s -> exists c, s = String c "" /\ p c = true.
Proof. intros p s H. inversion H; subst. eauto. Qed.

Lemma Lang_Seq_inv :
  forall r1 r2 s, Lang (Seq r1 r2) s ->
    exists s1 s2, s = s1 ++ s2 /\ Lang r1 s1 /\ Lang r2 s2.
Proof. intros r1 r2 s H. inversion H; subst. eauto. Qed.

Lemma Lang_Alt_inv :
  forall r1 r2 s, Lang (Alt r1 r2) s -> Lang r1 s \/ Lang r2 s.
Proof. intros r1 r2 s H. inversion H; subst; auto. Qed.

Lemma Lang_Star_inv :
  forall r s, Lang (Star r) s ->
    s = "" \/
    exists c s1 s2, s = String c s1 ++ s2 /\ Lang r (String c s1) /\ Lang (Star r) s2.
Proof. intros r s H. inversion H; subst; [now left | right; eauto 6]. Qed.

Lemma nullable_Lang : forall r, nullable r = true <-> Lang r "".
Proof.
  induction r as [| |p|r1 IH1 r2 IH2|r1 IH1 r2 IH2|r IH]; simpl; split; intros H.
  - discriminate.
  - destruct (Lang_Void_inv _ H).
  - constructor.
  - reflexivity.
  - discriminate.
  - apply Lang_Cls_inv in H. destruct H as (c & Hc & _). discriminate.
  - apply andb_true_iff in H. destruct H as [H1 H2].
    change "" with ("" ++ ""). constructor; [now apply IH1 | now apply IH2].
  - apply Lang_Seq_inv in H. destruct H as (s1 & s2 & E & H1 & H2).
    destruct s1; [|discriminate]. destruct s2; [|discriminate].
    apply andb_true_iff. split; [now apply IH1 | now apply IH2].
  - apply orb_true_iff in H. destruct H as [H|H].
    + apply LAltL. now apply IH1.
    + apply LAltR. now apply IH2.
  - apply orb_true_iff. apply Lang_Alt_inv in H. destruct H as [H|H].
    + left. now apply IH1.
    + right. now apply IH2.
  - constructor.
  - reflexivity.
Qed.

Lemma deriv_Lang :
  forall r c s, Lang (deriv c r) s <-> Lang r (String c s).
Proof.
  induction r as [| |p|r1 IH1 r2 IH2|r1 IH1 r2 IH2|r IH]; intros c s; simpl.
  - split; intros H; inversion H.
  - split; intros H; inversion H.
  - split; intros H.
    + destruct (p c) eqn:Hp.
      * apply Lang_Eps_inv in H. subst s. now constructor.
      * destruct (Lang_Void_inv _ H).
    + apply Lang_Cls_inv in H. destruct H as (c' & E & Hp).
      injection E as Ec Es. subst c' s. rewrite Hp. constructor.
  - split; intros H.
    + assert (Hleft : Lang (Seq (deriv c r1) r2) s -> Lang (Seq r1 r2) (String c s)).
      { intros H'. apply Lang_Seq_inv in H'. destruct H' as (s1 & s2 & -> & H1 & H2).
        change (String c (s1 ++ s2)) with (String c s1 ++ s2).
        constructor; [now apply IH1 | exact H2]. }
      destruct (nullable r1) eqn:Hn; [|auto].
      apply Lang_Alt_inv in H. destruct H as [H|H]; [auto|].
      change (String c s) with ("" ++ String c s).
      constructor; [now apply nullable_Lang | now apply IH2].
    + apply Lang_Seq_inv in H. destruct H as (s1 & s2 & E & H1 & H2).
      destruct s1 as [|a s1]; simpl in E.
      * subst s2. apply nullable_Lang in H1. rewrite H1.
        apply LAltR. now apply IH2.
      * injection E as Ec Es. subst a s.
        assert (Lang (Seq (deriv c r1) r2) (s1 ++ s2))
          by (constructor; [now apply IH1 | exact H2]).
        destruct (nullable r1); [now apply LAltL | assumption].
  - split; intros H.
    + apply Lang_Alt_inv in H. destruct H as [H|H].
      * apply LAltL. now apply IH1.
      * apply LAltR. now apply IH2.
    + apply Lang_Alt_inv in H. destruct H as [H|H].
      * apply LAltL. now apply IH1.
      * apply LAltR. now apply IH2.
  - split; intros H.
    + apply Lang_Seq_inv in H. destruct H as (s1 & s2 & -> & H1 & H2).
      change (String c (s1 ++ s2)) with (String c s1 ++ s2).
      constructor; [now apply IH | exact H2].
    + apply Lang_Star_inv in H. destruct H as [E | (a & s1 & s2 & E & H1 & H2)].
      * discriminate.
      * simpl in E. injection E as Ec Es. subst a s.
        constructor; [now apply IH | exact H2].
Qed.

(** The derivative matcher decides the language of the pattern. *)
Lemma test_Lang : forall s r, test r s = true <-> Lang r s.
Proof.
  unfold test. induction s as [|c s IH]; intros r; simpl.
  - apply nullable_Lang.
  - rewrite IH. apply deriv_Lang.
Qed.

End Matching.

Section Classes.

Import Re.

Lemma Lang_all :
  forall q r s, classes_within q r -> Lang r s -> Str.all q s = true.
Proof.
  intros q r s Hq H. induction H; simpl in Hq; try reflexivity.
  - simpl. now rewrite (Hq c H).
  - destruct Hq as [Hq1 Hq2]. rewrite all_append, IHLang1, IHLang2; auto.
  - apply IHLang. tauto.
  - apply IHLang. tauto.
  - rewrite all_append, IHLang1, IHLang2; auto.
Qed.

Lemma Lang_map :
  forall f r s, classes_closed f r -> Lang r s -> Lang r (Str.map f s).
Proof.
  intros f r s Hf H. induction H; simpl in Hf.
  - constructor.
  - simpl. constructor. auto.
  - rewrite map_append. constructor; tauto.
  - apply LAltL. tauto.
  - apply LAltR. tauto.
  - constructor.
  - rewrite map_append. simpl. constructor; auto.
Qed.

End Classes.

(** ** The e-mail pattern *)

Lemma email_no_space :
  forall e, Re.test Booking.emailRegex e = true -> Str.all Char.not_space e = true.
Proof.
  intros e H. apply test_Lang in H. revert H. apply Lang_all.
  assert (Hc : forall c, Booking.not_space_at c = true -> Char.not_space c = true)
    by (intros c; each_char c).
  assert (Hat : forall c, Char.eq "@" c = true -> Char.not_space c = true)
    by (intros c; each_char c).
  assert (Hdot : forall c, Char.eq "." c = true -> Char.not_space c = true)
    by (intros c; each_char c).
  simpl. tauto.
Qed.

Lemma email_toLowerCase :
  forall e, Re.test Booking.emailRegex e = true ->
            Re.test Booking.emailRegex (Str.toLowerCase e) = true.
Proof.
  intros e H. apply test_Lang. apply test_Lang in H. revert H. apply Lang_map.
  assert (Hc : forall c, Booking.not_space_at c = true ->
                         Booking.not_space_at (Char.toLower c) = true)
    by (intros c; each_char c).
  assert (Hat : forall c, Char.eq "@" c = true -> Char.eq "@" (Char.toLower c) = true)
    by (intros c; rewrite toLower_at; auto).
  assert (Hdot : forall c, Char.eq "." c = true -> Char.eq "." (Char.toLower c) = true)
    by (intros c; rewrite toLower_dot; auto).
  simpl. tauto.
Qed.

Lemma email_not_empty :
  forall e, Re.test Booking.emailRegex e = true -> Str.is_empty e = false.
Proof. intros [|c e] H; [discriminate H | reflexivity]. Qed.

Lemma email_not_blank :
  forall e, Re.test Booking.emailRegex e = true -> Spec.blank e = false.
Proof.
  intros e H. apply no_space_not_blank; [now apply email_no_space | now apply email_not_empty].
Qed.

(** On a well-formed address, [email.toLowerCase().trim()] only lowers the
    case, and the setters of the schema leave the result alone. *)
Lemma email_normal_form :
  forall e, Re.test Booking.emailRegex e = true ->
    Str.trim (Str.toLowerCase e) = Str.toLowerCase e
    /\ Booking.email_setter (Str.trim (Str.toLowerCase e)) = Str.toLowerCase e.
Proof.
  intros e H.
  assert (Ht : Str.trim (Str.toLowerCase e) = Str.toLowerCase e).
  { apply trim_fixed. rewrite toLowerCase_not_space. now apply email_no_space. }
  split; [exact Ht|].
  unfold Booking.email_setter. now rewrite Ht, toLowerCase_idempotent.
Qed.


(** ** The slug pattern of the route *)

Lemma slug_pattern_alphabet :
  forall s, Re.test Route.slugRegex s = true ->
            Str.all Spec.lower_alnum_or_hyphen s = true.
Proof.
  intros s H. apply test_Lang in H. revert H. apply Lang_all.
  assert (Hc : forall c, Route.lower_or_digit c = true ->
                         Spec.lower_alnum_or_hyphen c = true)
    by (intros c; each_char c).
  assert (Hh : forall c, Char.eq "-" c = true -> Spec.lower_alnum_or_hyphen c = true)
    by (intros c; each_char c).
  simpl. tauto.
Qed.

(** A slug accepted by the route is a fixed point of the setters of the
    [slug] path, so the filter of the query is the slug itself. *)
Lemma slug_setter_fixed :
  forall s, Re.test Route.slugRegex s = true -> Event.slug_setter s = s.
Proof.
  intros s H. apply slug_pattern_alphabet in H. unfold Event.slug_setter.
  assert (Hl : Str.toLowerCase s = s).
  { unfold Str.toLowerCase. apply map_fixed with (p := Spec.lower_alnum_or_hyphen); auto.
    intros c Hc. now apply slug_char_fixed. }
  rewrite Hl. apply trim_fixed. revert H. apply all_impl.
  intros c Hc. unfold Char.not_space. apply slug_char_fixed in Hc. now rewrite (proj2 Hc).
Qed.

(** ** The time pattern *)

Lemma time_pattern_sound :
  forall s, Re.Lang Event.timeRegex s -> Spec.HHMM s || Spec.HMM s = true.
Proof.
  intros s H. unfold Event.timeRegex in H.
  apply Lang_Seq_inv in H. destruct H as (sh & st & -> & Hh & Ht).
  apply Lang_Seq_inv in Ht. destruct Ht as (sc & sm & -> & Hc & Hm).
  apply Lang_Cls_inv in Hc. destruct Hc as (c & -> & Hc).
  apply Lang_Seq_inv in Hm. destruct Hm as (s1 & s2 & -> & Hm1 & Hm2).
  apply Lang_Cls_inv in Hm1. destruct Hm1 as (m1 & -> & Hm1).
  apply Lang_Cls_inv in Hm2. destruct Hm2 as (m2 & -> & Hm2).
  apply Lang_Alt_inv in Hh. destruct Hh as [Hh|Hh].
  - apply Lang_Seq_inv in Hh. destruct Hh as (so & sd & -> & Ho & Hd).
    apply Lang_Cls_inv in Hd. destruct Hd as (h2 & -> & Hh2).
    apply Lang_Alt_inv in Ho. destruct Ho as [Ho|Ho].
    + apply Lang_Cls_inv in Ho. destruct Ho as (h1 & -> & Hh1).
      apply orb_true_iff. left.
      cbn [append Spec.HHMM]. unfold Spec.minutes, Char.digit.
      now rewrite Hh1, Hh2, Hc, Hm1, Hm2.
    + apply Lang_Eps_inv in Ho. subst so.
      apply orb_true_iff. right.
      cbn [append Spec.HMM]. unfold Spec.minutes, Char.digit.
      now rewrite Hh2, Hc, Hm1, Hm2.
  - apply Lang_Seq_inv in Hh. destruct Hh as (sa & sb & -> & Ha & Hb).
    apply Lang_Cls_inv in Ha. destruct Ha as (h1 & -> & Hh1).
    apply Lang_Cls_inv in Hb. destruct Hb as (h2 & -> & Hh2).
    apply orb_true_iff. left.
    cbn [append Spec.HHMM]. unfold Spec.minutes, Char.digit.
    rewrite Hh1, Hh2, Hc, Hm1, Hm2. now rewrite orb_true_r.
Qed.

Lemma time_pattern_complete :
  forall s, Spec.HHMM s || Spec.HMM s = true -> Re.Lang Event.timeRegex s.
Proof.
  intros s H. apply orb_true_iff in H. destruct H as [H|H].
  - destruct s as [|h1 [|h2 [|c [|m1 [|m2 [|x s]]]]]]; try discriminate H.
    cbn [Spec.HHMM] in H. unfold Spec.minutes, Char.digit in H.
    apply andb_true_iff in H. destruct H as [H Hm].
    apply andb_true_iff in H. destruct H as [Hh Hc].
    apply andb_true_iff in Hm. destruct Hm as [Hm1 Hm2].
    change (String h1 (String h2 (String c (String m1 (String m2 "")))))
      with ((String h1 "" ++ String h2 "")
            ++ (String c "" ++ (String m1 "" ++ String m2 ""))).
    unfold Event.timeRegex. constructor.
    + apply orb_true_iff in Hh. destruct Hh as [Hh|Hh];
        apply andb_true_iff in Hh; destruct Hh as [Hh1 Hh2].
      * apply Re.LAltL. constructor; [|now constructor].
        apply Re.LAltL. now constructor.
      * apply Re.LAltR. constructor; now constructor.
    + repeat constructor; assumption.
  - destruct s as [|h [|c [|m1 [|m2 [|x s]]]]]; try discriminate H.
    cbn [Spec.HMM] in H. unfold Spec.minutes, Char.digit in H.
    apply andb_true_iff in H. destruct H as [H Hm].
    apply andb_true_iff in H. destruct H as [Hh Hc].
    apply andb_true_iff in Hm. destruct Hm as [Hm1 Hm2].
    change (String h (String c (String m1 (String m2 ""))))
      with (("" ++ String h "") ++ (String c "" ++ (String m1 "" ++ String m2 ""))).
    unfold Event.timeRegex. constructor.
    + apply Re.LAltL. constructor; [|now constructor].
      apply Re.LAltR. constructor.
    + repeat constructor; assumption.
Qed.

(** What [timeRegex] accepts: a two-digit or a one-digit hour. *)
Lemma time_pattern :
  forall s, Re.test Event.timeRegex s = Spec.HHMM s || Spec.HMM s.
Proof.
  intros s. apply eq_true_iff_eq. rewrite test_Lang. split.
  - apply time_pattern_sound.
  - apply time_pattern_complete.
Qed.

(* ================================================================== *)
(** * The pre-save hook of Event *)
(* ================================================================== *)

Lemma generate_slug_keeps :
  forall this : document IEvent.t,
    modifiedPaths (Event.generate_slug this) = modifiedPaths this
    /\ IEvent.date (fields (Event.generate_slug this)) = IEvent.date (fields this)
    /\ IEvent.time (fields (Event.generate_slug this)) = IEvent.time (fields this)
    /\ IEvent.agenda (fields (Event.generate_slug this)) = IEvent.agenda (fields this)
    /\ IEvent.tags (fields (Event.generate_slug this)) = IEvent.tags (fields this).
Proof.
  intros this. unfold Event.generate_slug.
  destruct (isModified "title" this); simpl; auto.
Qed.

Lemma generate_slug_isModified :
  forall path (this : document IEvent.t),
    isModified path (Event.generate_slug this) = isModified path this.
Proof.
  intros path this. unfold isModified.
  now rewrite (proj1 (generate_slug_keeps this)).
Qed.

Lemma normalize_date_keeps :
  forall host (this this' : document IEvent.t),
    Event.normalize_date host this = Ok this' ->
    modifiedPaths this' = modifiedPaths this
    /\ IEvent.time (fields this') = IEvent.time (fields this)
    /\ IEvent.agenda (fields this') = IEvent.agenda (fields this)
    /\ IEvent.tags (fields this') = IEvent.tags (fields this).
Proof.
  intros host this this' H. unfold Event.normalize_date in H.
  destruct (isModified "date" this).
  - destruct (JsDate.parse host (IEvent.date (fields this))); [|discriminate].
    injection H as <-. simpl. auto.
  - injection H as <-. auto.
Qed.

(** The date block of the hook either throws [InvalidDateFormat] or stores the
    part of the ISO string before its [T]. *)
Lemma normalize_date_cases :
  forall host (this : document IEvent.t),
    isModified "date" this = true ->
    match JsDate.parse host (IEvent.date (fields this)) with
    | None => Event.normalize_date host this = Throw Event.InvalidDateFormat
    | Some t =>
        exists this', Event.normalize_date host this = Ok this'
          /\ IEvent.date (fields this') = Str.before "T" (JsDate.toISOString t)
    end.
Proof.
  intros host this Hm. unfold Event.normalize_date. rewrite Hm.
  destruct (JsDate.parse host (IEvent.date (fields this))); [|reflexivity].
  eexists. split; reflexivity.
Qed.

Lemma validate_arrays_ok :
  forall this : document IEvent.t,
    IEvent.agenda (fields this) <> [] -> IEvent.tags (fields this) <> [] ->
    Event.validate_arrays this = Ok this.
Proof.
  intros this Ha Ht. unfold Event.validate_arrays.
  destruct (IEvent.agenda (fields this)); [contradiction|].
  destruct (IEvent.tags (fields this)); [contradiction|]. reflexivity.
Qed.

(** Once the date block has gone through, the hook is decided by the time
    pattern and the two arrays. *)
Lemma pre_save_after_date :
  forall host (this this1 : document IEvent.t),
    Event.normalize_date host (Event.generate_slug this) = Ok this1 ->
    Event.pre_save host this =
      if isModified "time" this && negb (Re.test Event.timeRegex (IEvent.time (fields this)))
      then Throw Event.InvalidTimeFormat
      else match Event.validate_arrays this1 with
           | Ok this3 => Ok (fields this3)
           | Throw e => Throw e
           end.
Proof.
  intros host this this1 H. unfold Event.pre_save. rewrite H.
  destruct (normalize_date_keeps _ _ _ H) as (Hp & Ht & _).
  unfold Event.validate_time, isModified. rewrite Hp, Ht.
  rewrite (proj1 (generate_slug_keeps this)).
  rewrite (proj1 (proj2 (proj2 (generate_slug_keeps this)))).
  destruct (existsb (String.eqb "time") (modifiedPaths this)
            && negb (Re.test Event.timeRegex (IEvent.time (fields this)))); reflexivity.
Qed.

Lemma date_block_passes :
  forall host (this : document IEvent.t),
    (isModified "date" this = true ->
     JsDate.parse host (IEvent.date (fields this)) <> None) ->
    exists this1, Event.normalize_date host (Event.generate_slug this) = Ok this1.
Proof.
  intros host this H. unfold Event.normalize_date.
  rewrite generate_slug_isModified.
  rewrite (proj1 (proj2 (generate_slug_keeps this))).
  destruct (isModified "date" this); [|eauto].
  destruct (JsDate.parse host (IEvent.date (fields this))); [eauto|].
  now destruct H.
Qed.

(** C5 (amended).  When the [time] path of an Event is set or modified (and
    the date block before it goes through), the hook accepts the time exactly
    when it is a 24-hour time with a two-digit hour ([HH:MM], 00:00 to 23:59)
    or with a one-digit hour ([H:MM], 0:00 to 9:59): every other string is
    rejected with the InvalidTimeFormat error, and an accepted time is never
    rejected with it and is stored unchanged when the two arrays are not
    empty. *)
Theorem time_validation :
  forall host (this : document IEvent.t),
    isModified "time" this = true ->
    (isModified "date" this = true ->
     JsDate.parse host (IEvent.date (fields this)) <> None) ->
    let t := IEvent.time (fields this) in
    (Spec.HHMM t || Spec.HMM t = false ->
     Event.pre_save host this = Throw Event.InvalidTimeFormat)
    /\ (Spec.HHMM t || Spec.HMM t = true ->
        Event.pre_save host this <> Throw Event.InvalidTimeFormat
        /\ (IEvent.agenda (fields this) <> [] -> IEvent.tags (fields this) <> [] ->
            exists e, Event.pre_save host this = Ok e /\ IEvent.time e = t)).
Proof.
  intros host this Hm Hd t.
  destruct (date_block_passes host this Hd) as [this1 H1].
  rewrite (pre_save_after_date _ _ _ H1), Hm, time_pattern. fold t.
  destruct (normalize_date_keeps _ _ _ H1) as (_ & Ht & Ha & Htg).
  rewrite (proj1 (proj2 (proj2 (generate_slug_keeps this)))) in Ht.
  rewrite (proj1 (proj2 (proj2 (proj2 (generate_slug_keeps this))))) in Ha.
  rewrite (proj2 (proj2 (proj2 (proj2 (generate_slug_keeps this))))) in Htg.
  split; intros Hs; rewrite Hs; simpl; [reflexivity|].
  split.
  - destruct (Event.validate_arrays this1) as [this3|e] eqn:Hv; [discriminate|].
    unfold Event.validate_arrays in Hv.
    destruct (List.length (IEvent.agenda (fields this1)) =? 0)%nat.
    + injection Hv as <-. discriminate.
    + destruct (List.length (IEvent.tags (fields this1)) =? 0)%nat; [|discriminate].
      injection Hv as <-. discriminate.
  - intros Hag Htags. rewrite validate_arrays_ok.
    + exists (fields this1). split; [reflexivity | exact Ht].
    + now rewrite Ha.
    + now rewrite Htg.
Qed.

Lemma time_validation_witness :
  Event.pre_save Sample.strict_host (Sample.draft "My Event" "2024-03-05" "24:00")
    = Throw Event.InvalidTimeFormat
  /\ exists e,
       Event.pre_save Sample.strict_host (Sample.draft "My Event" "2024-03-05" "23:59")
         = Ok e /\ IEvent.time e = "23:59".
Proof.
  split.
  - apply (time_validation Sample.strict_host
             (Sample.draft "My Event" "2024-03-05" "24:00")).
    + reflexivity.
    + intros _. vm_compute. discriminate.
    + reflexivity.
  - apply (time_validation Sample.strict_host
             (Sample.draft "My Event" "2024-03-05" "23:59")).
    + reflexivity.
    + intros _. vm_compute. discriminate.
    + reflexivity.
    + simpl. discriminate.
    + simpl. discriminate.
Defined.

(** C5, as stated, fails: a time with a one-digit hour is not of the two-digit
    [HH:MM] shape, and the hook accepts it and stores it as it is. *)
Lemma one_digit_hour_accepted :
  Spec.HHMM "9:30" = false
  /\ Re.test Event.timeRegex "9:30" = true
  /\ exists e,
       Event.pre_save Sample.strict_host (Sample.draft "My Event" "2024-03-05" "9:30")
         = Ok e /\ IEvent.time e = "9:30".
Proof.
  split; [reflexivity|]. split; [reflexivity|].
  eexists. split; vm_compute; reflexivity.
Qed.

Lemma sample_date_parsed :
  forall host,
    JsDate.parse host "2024-03-05T10:00:00Z" = Some 1709632800000%Z
    /\ Str.before "T" (JsDate.toISOString 1709632800000) = "2024-03-05".
Proof. intros host. split; vm_compute; reflexivity. Qed.

(** C9.  When the [date] path of an Event is set or modified, the hook turns
    the date string "2024-03-05T10:00:00Z" into the stored value "2024-03-05"
    (the date is parsed and the ISO string of the result is cut at its [T]),
    whatever the engine's own date parser is, and the save goes through when
    the time and the arrays pass their checks; and for every date string the
    parse rejects, the hook fails with the InvalidDateFormat error. *)
Theorem date_normalization :
  forall host (this : document IEvent.t),
    isModified "date" this = true ->
    (IEvent.date (fields this) = "2024-03-05T10:00:00Z" ->
     (isModified "time" this = true ->
      Re.test Event.timeRegex (IEvent.time (fields this)) = true) ->
     IEvent.agenda (fields this) <> [] -> IEvent.tags (fields this) <> [] ->
     exists e, Event.pre_save host this = Ok e /\ IEvent.date e = "2024-03-05")
    /\ (JsDate.parse host (IEvent.date (fields this)) = None ->
        Event.pre_save host this = Throw Event.InvalidDateFormat).
Proof.
  intros host this Hm.
  assert (Hm' : isModified "date" (Event.generate_slug this) = true)
    by now rewrite generate_slug_isModified.
  pose proof (normalize_date_cases host _ Hm') as Hc.
  rewrite (proj1 (proj2 (generate_slug_keeps this))) in Hc.
  split.
  - intros Hd Ht Ha Htg. rewrite Hd in Hc.
    destruct (sample_date_parsed host) as [Hp Hs]. rewrite Hp, Hs in Hc.
    destruct Hc as (this1 & H1 & Hdate).
    rewrite (pre_save_after_date _ _ _ H1).
    destruct (normalize_date_keeps _ _ _ H1) as (_ & _ & Ha1 & Htg1).
    rewrite (proj1 (proj2 (proj2 (proj2 (generate_slug_keeps this))))) in Ha1.
    rewrite (proj2 (proj2 (proj2 (proj2 (generate_slug_keeps this))))) in Htg1.
    assert (Hpass : isModified "time" this
                    && negb (Re.test Event.timeRegex (IEvent.time (fields this))) = false).
    { destruct (isModified "time" this); [|reflexivity]. now rewrite Ht. }
    rewrite Hpass, validate_arrays_ok.
    + exists (fields this1). split; [reflexivity | exact Hdate].
    + now rewrite Ha1.
    + now rewrite Htg1.
  - intros Hn. rewrite Hn in Hc. unfold Event.pre_save. now rewrite Hc.
Qed.

Lemma date_normalization_witness :
  (exists e,
     Event.pre_save Sample.strict_host
       (Sample.draft "My Event" "2024-03-05T10:00:00Z" "14:30") = Ok e
     /\ IEvent.date e = "2024-03-05")
  /\ Event.pre_save Sample.strict_host (Sample.draft "My Event" "next tuesday" "14:30")
     = Throw Event.InvalidDateFormat.
Proof.
  split.
  - apply (date_normalization Sample.strict_host
             (Sample.draft "My Event" "2024-03-05T10:00:00Z" "14:30")).
    + reflexivity.
    + reflexivity.
    + intros _. reflexivity.
    + simpl. discriminate.
    + simpl. discriminate.
  - apply (date_normalization Sample.strict_host
             (Sample.draft "My Event" "next tuesday" "14:30")).
    + reflexivity.
    + reflexivity.
Defined.

(** C4, at the title "my_event".  [\w] keeps the underscore and no later
    [replace] of the hook touches it: the slug derived from the title is
    "my_event", which is outside the alphabet of lower-case letters, digits and
    hyphens, and which the slug pattern of the GET route refuses. *)
Theorem slug_keeps_underscore :
  Event.slugify "my_event" = "my_event"
  /\ (exists e,
        Event.pre_save Sample.strict_host (Sample.draft "my_event" "2024-03-05" "14:30")
          = Ok e /\ IEvent.slug e = "my_event")
  /\ Spec.slug_shape Spec.lower_alnum_or_hyphen "my_event" = false
  /\ Re.test Route.slugRegex "my_event" = false
  /\ (exists msg, fst (Route.GET "my_event" Sample.world)
                  = Ok (Route.json 400 msg None None)).
Proof.
  split; [reflexivity|]. split.
  - eexists. split; vm_compute; reflexivity.
  - split; [reflexivity|]. split; [reflexivity|].
    eexists. vm_compute. reflexivity.
Qed.

(* ================================================================== *)
(** * Facts about the store *)
(* ================================================================== *)

Lemma bind_ok :
  forall A B (m : M A) (k : A -> M B) w a w',
    m w = (Ok a, w') -> bind m k w = k a w'.
Proof. intros A B m k w a w' H. unfold bind. now rewrite H. Qed.

Lemma bind_throw :
  forall A B (m : M A) (k : A -> M B) w e w',
    m w = (Throw e, w') -> bind m k w = (Throw e, w').
Proof. intros A B m k w e w' H. unfold bind. now rewrite H. Qed.

Lemma answers_next :
  forall n w, Spec.answers (S n) w ->
    hd None (faults w) = None /\ Spec.answers n (answered w).
Proof.
  intros n w H. split.
  - specialize (H 0%nat (Nat.lt_0_succ n)). destruct (faults w); auto.
  - intros i Hi. specialize (H (S i) (proj1 (Nat.succ_lt_mono i n) Hi)).
    simpl. destruct (faults w); simpl in *; [now destruct i | exact H].
Qed.

Lemma healthy_answers : forall n w, Spec.healthy w -> Spec.answers n w.
Proof. intros n w H i _. rewrite H. now destruct i. Qed.

Lemma healthy_answered : forall w, Spec.healthy w -> Spec.healthy (answered w).
Proof. unfold Spec.healthy. intros w H. simpl. now rewrite H. Qed.

Lemma round_trip_ok :
  forall w, hd None (faults w) = None -> round_trip w = (Ok tt, answered w).
Proof.
  intros w H. unfold round_trip. destruct (faults w) as [|[e|] fs]; auto. discriminate.
Qed.

Lemma round_trip_fail :
  forall w e, hd None (faults w) = Some e -> round_trip w = (Throw e, answered w).
Proof.
  intros w e H. unfold round_trip. destruct (faults w) as [|[e'|] fs]; try discriminate.
  simpl in H. congruence.
Qed.

Lemma round_trip_cases :
  forall w, round_trip w = (Ok tt, answered w)
            \/ exists e, round_trip w = (Throw e, answered w).
Proof.
  intros w. unfold round_trip. destruct (faults w) as [|[e|] fs]; eauto.
Qed.

Lemma query_ok :
  forall A (f : World -> A) w,
    hd None (faults w) = None -> query f w = (Ok (f (answered w)), answered w).
Proof.
  intros A f w H. unfold query. now rewrite (bind_ok _ _ _ _ _ _ _ (round_trip_ok w H)).
Qed.

Lemma query_fail :
  forall A (f : World -> A) w e,
    hd None (faults w) = Some e -> query f w = (Throw e, answered w).
Proof.
  intros A f w e H. unfold query. now rewrite (bind_throw _ _ _ _ _ _ _ (round_trip_fail w e H)).
Qed.

Lemma query_cases :
  forall A (f : World -> A) w,
    query f w = (Ok (f (answered w)), answered w)
    \/ exists e, query f w = (Throw e, answered w).
Proof.
  intros A f w. unfold query.
  destruct (round_trip_cases w) as [H|[e H]].
  - left. now rewrite (bind_ok _ _ _ _ _ _ _ H).
  - right. exists e. now rewrite (bind_throw _ _ _ _ _ _ _ H).
Qed.

Lemma find_existsb_false :
  forall A (p : A -> bool) l, existsb p l = false -> find p l = None.
Proof.
  intros A p l. induction l as [|x l IH]; simpl; [reflexivity|].
  destruct (p x); [discriminate | exact IH].
Qed.

Lemma find_existsb_true :
  forall A (p : A -> bool) l, existsb p l = true ->
    exists x, find p l = Some x /\ p x = true.
Proof.
  intros A p l. induction l as [|x l IH]; simpl; [discriminate|].
  destruct (p x) eqn:Hp; [eauto | exact IH].
Qed.


(** ** Identifiers *)

(** ** Identifiers *)

Lemma digit_char_lower_hex :
  forall m, (m < 16)%N -> Char.lower_hex (ObjectId.digit_char m) = true.
Proof.
  intros m H.
  assert (E : In m (List.map N.of_nat (seq 0 16))).
  { rewrite <- (N2Nat.id m). apply in_map. apply in_seq. lia. }
  simpl in E.
  repeat (destruct E as [E|E]; [subst m; vm_compute; reflexivity|]).
  destruct E.
Qed.

Lemma hex_digits_lower_hex :
  forall k n acc,
    Str.all Char.lower_hex acc = true ->
    Str.all Char.lower_hex (ObjectId.hex_digits k n acc) = true.
Proof.
  induction k as [|k IH]; intros n acc H; simpl; [exact H|].
  apply IH. simpl. rewrite H, digit_char_lower_hex; [reflexivity|].
  apply N.mod_lt. discriminate.
Qed.

Lemma toString_lower_hex :
  forall o, Str.all Char.lower_hex (ObjectId.toString o) = true.
Proof. intros o. now apply hex_digits_lower_hex. Qed.

Lemma isValid_present :
  forall s, ObjectId.isValid s = true ->
            Str.is_empty s = false /\ Spec.blank s = false.
Proof.
  intros s H. unfold ObjectId.isValid in H. apply andb_true_iff in H.
  destruct H as [Hl Hh].
  assert (He : Str.is_empty s = false) by (destruct s; [discriminate Hl | reflexivity]).
  split; [exact He|]. apply no_space_not_blank; [|exact He].
  revert Hh. apply all_impl. intros c Hc. unfold Char.not_space.
  now rewrite (hex_not_space c Hc).
Qed.

(** The message of the hook of Booking names no duplicate key and says that
    the event does not exist. *)
Lemma EventDoesNotExist_message :
  forall id,
    exists msg, Booking.EventDoesNotExist id = ErrorObj msg
      /\ Str.includes "duplicate key" msg = false
      /\ Str.includes "does not exist" msg = true.
Proof.
  intros id. eexists. split; [reflexivity|]. split.
  - apply includes_needs_chars with (p := fun c => negb (Char.eq "u" c));
      [|reflexivity].
    rewrite !all_append. apply andb_true_iff. split; [reflexivity|].
    apply andb_true_iff. split; [|reflexivity].
    generalize (toString_lower_hex id). apply all_impl.
    intros c; each_char c.
  - rewrite <- append_assoc.
    apply includes_append_r with (t := " does not exist"). reflexivity.
Qed.

(* ================================================================== *)
(** * Booking.create *)
(* ================================================================== *)

Lemma findById_ok :
  forall id w,
    hd None (faults w) = None ->
    Event.findById id w
    = (Ok (find (fun e => ObjectId.eqb (IEvent._id e) id) (events w)), answered w).
Proof. intros id w H. unfold Event.findById. now rewrite query_ok. Qed.

Lemma validate_ok :
  forall e w, Re.test Booking.emailRegex e = true -> Booking.validate e w = (Ok tt, w).
Proof.
  intros e w H. unfold Booking.validate.
  rewrite (email_not_empty e H), H. reflexivity.
Qed.

(** On a store that answers and holds the event, a new pair is inserted:
    the hook reads the event, then the insert appends the document. *)
Lemma create_ok :
  forall id e w,
    Spec.answers 2 w ->
    Booking.email_setter e = e -> Re.test Booking.emailRegex e = true ->
    Spec.event_exists id w = true -> Spec.booked id e w = false ->
    Booking.create id e w
    = (Ok (Spec.booking_of w id e),
       mkWorld (events w) (bookings w ++ [Spec.booking_of w id e])
               (tl (tl (faults w))) (2 + round_trips w) (N.succ (next_oid w)) (now w)).
Proof.
  intros id e w Ha Hs Hv He Hb.
  destruct (answers_next 1 w Ha) as [H0 Ha1].
  destruct (answers_next 0 _ Ha1) as [H1 _].
  destruct (find_existsb_true _ _ _ He) as (ev & Hfind & _).
  unfold Booking.create.
  erewrite bind_ok; [|reflexivity]. cbn [fields IBooking.email]. rewrite Hs.
  erewrite bind_ok; [|now apply validate_ok].
  erewrite bind_ok.
  2:{ unfold Booking.pre_save. cbn [isNew orb fields IBooking.eventId].
      erewrite bind_ok; [|apply findById_ok; exact H0].
      cbn [events answered]. rewrite Hfind. reflexivity. }
  unfold Booking.insertOne.
  erewrite bind_ok; [|apply round_trip_ok; exact H1].
  simpl. unfold Spec.booked in Hb. rewrite Hb. reflexivity.
Qed.

(** On a store that answers and does not hold the event, the hook throws
    before any insert. *)
Lemma create_without_event :
  forall id e w,
    Spec.answers 1 w ->
    Booking.email_setter e = e -> Re.test Booking.emailRegex e = true ->
    Spec.event_exists id w = false ->
    Booking.create id e w
    = (Throw (Booking.EventDoesNotExist id),
       mkWorld (events w) (bookings w) (tl (faults w)) (1 + round_trips w)
               (N.succ (next_oid w)) (now w)).
Proof.
  intros id e w Ha Hs Hv He.
  destruct (answers_next 0 w Ha) as [H0 _].
  unfold Booking.create.
  erewrite bind_ok; [|reflexivity]. cbn [fields IBooking.email]. rewrite Hs.
  erewrite bind_ok; [|now apply validate_ok].
  erewrite bind_throw; [reflexivity|].
  unfold Booking.pre_save. cbn [isNew orb fields IBooking.eventId].
  erewrite bind_ok; [|apply findById_ok; exact H0].
  cbn [events answered]. unfold Spec.event_exists in He.
  rewrite (find_existsb_false _ _ _ He). reflexivity.
Qed.

Lemma bind_inv :
  forall A B (m : M A) (k : A -> M B) w o w',
    bind m k w = (o, w') ->
    (exists a w1, m w = (Ok a, w1) /\ k a w1 = (o, w'))
    \/ (exists e, m w = (Throw e, w') /\ o = Throw e).
Proof.
  intros A B m k w o w' H. unfold bind in H.
  destruct (m w) as [[a|e] w1]; [left; eauto|].
  right. exists e. injection H as <- <-. auto.
Qed.

Lemma round_trip_frame :
  forall w o w', round_trip w = (o, w') -> w' = answered w.
Proof.
  intros w o w' H. destruct (round_trip_cases w) as [E|[e E]]; congruence.
Qed.

Lemma query_frame :
  forall A (f : World -> A) w o w', query f w = (o, w') -> w' = answered w.
Proof.
  intros A f w o w' H. destruct (query_cases A f w) as [E|[e E]]; congruence.
Qed.

Lemma validate_frame :
  forall e w o w', Booking.validate e w = (o, w') -> w' = w.
Proof.
  intros e w o w'. unfold Booking.validate, throw, ret.
  destruct (Str.is_empty e); [congruence|].
  destruct (negb (Re.test Booking.emailRegex e)); congruence.
Qed.

Lemma pre_save_frame :
  forall this w o w',
    Booking.pre_save this w = (o, w') ->
    bookings w' = bookings w /\ events w' = events w
    /\ (isNew this = true -> o = Ok tt ->
        Spec.event_exists (IBooking.eventId (fields this)) w = true).
Proof.
  intros this w o w' H. unfold Booking.pre_save in H.
  destruct (isNew this) eqn:Hn; cbn [orb] in H.
  - apply bind_inv in H. destruct H as [(a & w1 & Hq & Hk)|(e & Hq & ->)].
    + unfold Event.findById in Hq.
      destruct (query_cases _ (fun w => find (fun e => ObjectId.eqb (IEvent._id e)
                  (IBooking.eventId (fields this))) (events w)) w) as [E|[e E]];
        rewrite E in Hq; [|discriminate Hq].
      injection Hq as <- <-. cbn [events answered] in Hk.
      destruct (find _ _) as [ev|] eqn:Hf; unfold ret, throw in Hk;
        injection Hk as <- <-; repeat split; try discriminate.
      intros _ _. apply find_some in Hf. unfold Spec.event_exists.
      apply existsb_exists. exists ev. exact Hf.
    + apply query_frame in Hq. subst w'. repeat split. discriminate.
  - destruct (isModified "eventId" this).
    + apply bind_inv in H. destruct H as [(a & w1 & Hq & Hk)|(e & Hq & _)].
      * apply query_frame in Hq. subst w1.
        destruct a; unfold ret, throw in Hk; injection Hk as _ <-;
          repeat split; discriminate.
      * apply query_frame in Hq. subst w'. repeat split. discriminate.
    + unfold ret in H. injection H as _ <-. repeat split. discriminate.
Qed.

Lemma insertOne_inv :
  forall b w o w',
    Booking.insertOne b w = (o, w') ->
    events w' = events w
    /\ match o with
       | Ok b' => b' = b /\ bookings w' = (bookings w ++ [b])%list
       | Throw _ => bookings w' = bookings w
       end.
Proof.
  intros b w o w' H. unfold Booking.insertOne in H.
  apply bind_inv in H. destruct H as [(a & w1 & Hq & Hk)|(e & Hq & ->)].
  - apply round_trip_frame in Hq. subst w1.
    destruct (existsb _ _); injection Hk as <- <-; simpl; auto.
  - apply round_trip_frame in Hq. now subst w'.
Qed.

(** Whatever the store does, [create] leaves the Events alone; a [create]
    that returns has read the referenced Event and appended the document it
    returns, which carries the identifier and the address it was given, the
    address after the setters; a [create] that throws has inserted nothing. *)
Lemma create_inv :
  forall id e w o w',
    Booking.create id e w = (o, w') ->
    events w' = events w
    /\ match o with
       | Ok b =>
           IBooking.eventId b = id
           /\ IBooking.email b = Booking.email_setter e
           /\ bookings w' = (bookings w ++ [b])%list
           /\ Spec.event_exists id w = true
       | Throw _ => bookings w' = bookings w
       end.
Proof.
  intros id e w o w' H. unfold Booking.create in H.
  apply bind_inv in H. destruct H as [(this & w1 & Hn & H)|(err & Hn & _)];
    [|discriminate Hn].
  injection Hn as <- <-.
  apply bind_inv in H. destruct H as [(u & w2 & Hv & H)|(err & Hv & ->)].
  - apply validate_frame in Hv. subst w2.
    apply bind_inv in H. destruct H as [(u' & w3 & Hp & H)|(err & Hp & ->)].
    + apply pre_save_frame in Hp. destruct Hp as (Hpb & Hpe & Hex).
      destruct u'. specialize (Hex eq_refl eq_refl).
      apply insertOne_inv in H. destruct H as [He H]. split; [now rewrite He, Hpe|].
      destruct o as [b|err].
      * destruct H as [-> Hb]. cbn [IBooking.eventId IBooking.email fields].
        rewrite Hb, Hpb. auto.
      * now rewrite H, Hpb.
    + apply pre_save_frame in Hp. tauto.
  - apply validate_frame in Hv. now subst w'.
Qed.

(* ================================================================== *)
(** * createBooking *)
(* ================================================================== *)

Lemma fails_at_next :
  forall n e w, Spec.fails_at (S n) e w -> Spec.fails_at n e (answered w).
Proof.
  unfold Spec.fails_at. intros n e w H. simpl.
  destruct (faults w); simpl in *; [discriminate | exact H].
Qed.

Lemma fails_at_now :
  forall e w, Spec.fails_at 0 e w -> hd None (faults w) = Some e.
Proof.
  unfold Spec.fails_at. intros e w H. destruct (faults w); [discriminate | exact H].
Qed.

Lemma findOne_ok :
  forall id e w,
    hd None (faults w) = None ->
    Booking.findOne id e w
    = (Ok (find (Booking.same_key id (Booking.email_setter e)) (bookings w)),
       answered w).
Proof. intros id e w H. unfold Booking.findOne. now rewrite query_ok. Qed.

(** An input that passes the four checks reaches the store. *)
Lemma createBooking_try_checked :
  forall eventId email w,
    ObjectId.isValid eventId = true -> Re.test Booking.emailRegex email = true ->
    BookingActions.createBooking_try eventId email w
    = BookingActions.createBooking_store eventId email w.
Proof.
  intros eventId email w Hid Hem. unfold BookingActions.createBooking_try.
  destruct (isValid_present eventId Hid) as [He Hb].
  unfold Spec.blank in Hb. rewrite He, Hb.
  pose proof (email_not_blank email Hem) as Hb'. unfold Spec.blank in Hb'.
  rewrite (email_not_empty email Hem), Hb', Hem, Hid. reflexivity.
Qed.

(** The store part of [createBooking] when the pair is new and the event
    exists: four round trips, one document appended. *)
Lemma createBooking_fresh :
  forall eventId email w,
    Spec.answers 4 w ->
    ObjectId.isValid eventId = true -> Re.test Booking.emailRegex email = true ->
    Spec.event_exists (ObjectId.ofString eventId) w = true ->
    Spec.booked (ObjectId.ofString eventId) (Str.toLowerCase email) w = false ->
    let b := Spec.booking_of w (ObjectId.ofString eventId) (Str.toLowerCase email) in
    BookingActions.createBooking eventId email w
    = (Ok (BookingActions.Created b),
       mkWorld (events w) (bookings w ++ [b]) (tl (tl (tl (tl (faults w)))))
               (4 + round_trips w) (N.succ (next_oid w)) (now w)).
Proof.
  intros eventId email w Ha Hid Hem Hev Hbk b.
  destruct (answers_next 3 w Ha) as [H0 Ha1].
  destruct (answers_next 2 _ Ha1) as [H1 Ha2].
  destruct (email_normal_form email Hem) as [Ht Hs].
  unfold BookingActions.createBooking, try_catch.
  rewrite createBooking_try_checked by assumption.
  unfold BookingActions.createBooking_store, connectDB.
  erewrite bind_ok; [|apply round_trip_ok; exact H0].
  erewrite bind_ok; [|apply findOne_ok; exact H1].
  rewrite Hs. cbn [bookings answered].
  unfold Spec.booked in Hbk. rewrite (find_existsb_false _ _ _ Hbk).
  rewrite Ht.
  erewrite bind_ok.
  2:{ apply create_ok; try assumption.
      - rewrite <- Ht at 1. exact Hs.
      - now apply email_toLowerCase. }
  reflexivity.
Qed.

(** The store part of [createBooking] when the pair is already booked: two
    round trips, nothing written. *)
Lemma createBooking_duplicate :
  forall eventId email w,
    Spec.answers 2 w ->
    ObjectId.isValid eventId = true -> Re.test Booking.emailRegex email = true ->
    Spec.booked (ObjectId.ofString eventId) (Str.toLowerCase email) w = true ->
    BookingActions.createBooking eventId email w
    = (Ok BookingActions.AlreadyBooked, answered (answered w)).
Proof.
  intros eventId email w Ha Hid Hem Hbk.
  destruct (answers_next 1 w Ha) as [H0 Ha1].
  destruct (answers_next 0 _ Ha1) as [H1 _].
  destruct (email_normal_form email Hem) as [Ht Hs].
  unfold BookingActions.createBooking, try_catch.
  rewrite createBooking_try_checked by assumption.
  unfold BookingActions.createBooking_store, connectDB.
  erewrite bind_ok; [|apply round_trip_ok; exact H0].
  erewrite bind_ok; [|apply findOne_ok; exact H1].
  rewrite Hs. cbn [bookings answered].
  destruct (find_existsb_true _ _ _ Hbk) as (b & Hf & _). rewrite Hf.
  reflexivity.
Qed.

(** The store part of [createBooking] when the event does not exist: three
    round trips, the last one the read of the hook, nothing written. *)
Lemma createBooking_missing_event :
  forall eventId email w,
    Spec.answers 3 w ->
    ObjectId.isValid eventId = true -> Re.test Booking.emailRegex email = true ->
    Spec.event_exists (ObjectId.ofString eventId) w = false ->
    Spec.booked (ObjectId.ofString eventId) (Str.toLowerCase email) w = false ->
    BookingActions.createBooking eventId email w
    = (Ok BookingActions.EventNotFound,
       mkWorld (events w) (bookings w) (tl (tl (tl (faults w))))
               (3 + round_trips w) (N.succ (next_oid w)) (now w)).
Proof.
  intros eventId email w Ha Hid Hem Hev Hbk.
  destruct (answers_next 2 w Ha) as [H0 Ha1].
  destruct (answers_next 1 _ Ha1) as [H1 Ha2].
  destruct (email_normal_form email Hem) as [Ht Hs].
  unfold BookingActions.createBooking, try_catch.
  rewrite createBooking_try_checked by assumption.
  unfold BookingActions.createBooking_store, connectDB.
  erewrite bind_ok; [|apply round_trip_ok; exact H0].
  erewrite bind_ok; [|apply findOne_ok; exact H1].
  rewrite Hs. cbn [bookings answered].
  unfold Spec.booked in Hbk. rewrite (find_existsb_false _ _ _ Hbk).
  rewrite Ht.
  erewrite bind_throw.
  2:{ apply create_without_event; try assumption.
      - rewrite <- Ht at 1. exact Hs.
      - now apply email_toLowerCase. }
  destruct (EventDoesNotExist_message (ObjectId.ofString eventId))
    as (msg & -> & Hdup & Hnot).
  unfold ret, BookingActions.on_error. rewrite Hdup, Hnot. reflexivity.
Qed.

Lemma create_insert_refused :
  forall id e err w,
    Spec.answers 1 w -> Spec.fails_at 1 err w ->
    Booking.email_setter e = e -> Re.test Booking.emailRegex e = true ->
    Spec.event_exists id w = true ->
    Booking.create id e w
    = (Throw err,
       mkWorld (events w) (bookings w) (tl (tl (faults w))) (2 + round_trips w)
               (N.succ (next_oid w)) (now w)).
Proof.
  intros id e err w Ha Hf Hs Hv He.
  destruct (answers_next 0 w Ha) as [H0 _].
  pose proof (fails_at_now _ _ (fails_at_next _ _ _ Hf)) as H1.
  destruct (find_existsb_true _ _ _ He) as (ev & Hfind & _).
  unfold Booking.create.
  erewrite bind_ok; [|reflexivity]. cbn [fields IBooking.email]. rewrite Hs.
  erewrite bind_ok; [|now apply validate_ok].
  erewrite bind_ok.
  2:{ unfold Booking.pre_save. cbn [isNew orb fields IBooking.eventId].
      erewrite bind_ok; [|apply findById_ok; exact H0].
      cbn [events answered]. rewrite Hfind. reflexivity. }
  unfold Booking.insertOne.
  erewrite bind_throw; [reflexivity|].
  apply round_trip_fail. exact H1.
Qed.

(** The store part of [createBooking] when the insert, its fourth round trip,
    is refused with a duplicate-key error. *)
Lemma createBooking_insert_refused :
  forall eventId email msg w,
    Spec.answers 3 w -> Spec.fails_at 3 (ErrorObj msg) w ->
    Str.includes "duplicate key" msg = true ->
    ObjectId.isValid eventId = true -> Re.test Booking.emailRegex email = true ->
    Spec.event_exists (ObjectId.ofString eventId) w = true ->
    Spec.booked (ObjectId.ofString eventId) (Str.toLowerCase email) w = false ->
    BookingActions.createBooking eventId email w
    = (Ok BookingActions.AlreadyBooked,
       mkWorld (events w) (bookings w) (tl (tl (tl (tl (faults w)))))
               (4 + round_trips w) (N.succ (next_oid w)) (now w)).
Proof.
  intros eventId email msg w Ha Hf Hmsg Hid Hem Hev Hbk.
  destruct (answers_next 2 w Ha) as [H0 Ha1].
  destruct (answers_next 1 _ Ha1) as [H1 Ha2].
  destruct (email_normal_form email Hem) as [Ht Hs].
  unfold BookingActions.createBooking, try_catch.
  rewrite createBooking_try_checked by assumption.
  unfold BookingActions.createBooking_store, connectDB.
  erewrite bind_ok; [|apply round_trip_ok; exact H0].
  erewrite bind_ok; [|apply findOne_ok; exact H1].
  rewrite Hs. cbn [bookings answered].
  unfold Spec.booked in Hbk. rewrite (find_existsb_false _ _ _ Hbk).
  rewrite Ht.
  erewrite bind_throw.
  2:{ apply create_insert_refused; try assumption.
      - apply fails_at_next, fails_at_next. exact Hf.
      - rewrite <- Ht at 1. exact Hs.
      - now apply email_toLowerCase. }
  unfold ret, BookingActions.on_error. rewrite Hmsg. reflexivity.
Qed.

(** Whatever the [try] block throws, an [Error] whose message contains
    "duplicate key" is answered with AlreadyBooked. *)
Lemma createBooking_duplicate_key :
  forall eventId email msg w w',
    BookingActions.createBooking_try eventId email w = (Throw (ErrorObj msg), w') ->
    Str.includes "duplicate key" msg = true ->
    BookingActions.createBooking eventId email w = (Ok BookingActions.AlreadyBooked, w').
Proof.
  intros eventId email msg w w' H Hmsg.
  unfold BookingActions.createBooking, try_catch. rewrite H.
  unfold ret, BookingActions.on_error. now rewrite Hmsg.
Qed.

Lemma on_error_rejects :
  forall err, BookingActions.success (BookingActions.on_error err) = false.
Proof.
  intros [msg|]; [|reflexivity]. unfold BookingActions.on_error.
  destruct (Str.includes "duplicate key" msg); [reflexivity|].
  destruct (Str.includes "does not exist" msg); [reflexivity|].
  destruct (Str.includes "validation failed" msg); reflexivity.
Qed.

Lemma blank_test :
  forall s, Str.is_empty s || Str.is_empty (Str.trim s) = Spec.blank s.
Proof. intros [|c s]; reflexivity. Qed.

Lemma booked_app :
  forall id e w b,
    existsb (Booking.same_key id e) (bookings w ++ [b])
    = Spec.booked id e w || Booking.same_key id e b.
Proof.
  intros id e w b. unfold Spec.booked. rewrite existsb_app. simpl.
  now rewrite orb_false_r.
Qed.



(** C2.  The four checks of the input of [createBooking] run in the order
    eventId present, email present, email format, eventId shape, and the first
    one that fails decides the answer (MissingEventId, MissingEmail,
    InvalidEmailFormat, InvalidEventIdFormat), whatever the later checks would
    say; the world is then returned as it was received: no round trip to the
    store is made, not even the connection. *)
Theorem validation_order :
  forall eventId email w,
    (Spec.blank eventId = true ->
     BookingActions.createBooking eventId email w
     = (Ok BookingActions.MissingEventId, w))
    /\ (Spec.blank eventId = false -> Spec.blank email = true ->
        BookingActions.createBooking eventId email w
        = (Ok BookingActions.MissingEmail, w))
    /\ (Spec.blank eventId = false -> Spec.blank email = false ->
        Re.test Booking.emailRegex email = false ->
        BookingActions.createBooking eventId email w
        = (Ok BookingActions.InvalidEmailFormat, w))
    /\ (Spec.blank eventId = false -> Spec.blank email = false ->
        Re.test Booking.emailRegex email = true ->
        ObjectId.isValid eventId = false ->
        BookingActions.createBooking eventId email w
        = (Ok BookingActions.InvalidEventIdFormat, w)).
Proof.
  intros eventId email w.
  unfold BookingActions.createBooking, try_catch, BookingActions.createBooking_try.
  rewrite !blank_test.
  split; [|split; [|split]]; intros;
    repeat match goal with H : _ = _ |- _ => rewrite H end; reflexivity.
Qed.

Lemma validation_order_witness :
  BookingActions.createBooking "   " "not an address" Sample.offline
  = (Ok BookingActions.MissingEventId, Sample.offline)
  /\ BookingActions.createBooking "not an id" " " Sample.offline
     = (Ok BookingActions.MissingEmail, Sample.offline)
  /\ BookingActions.createBooking "not an id" "ann.example.com" Sample.offline
     = (Ok BookingActions.InvalidEmailFormat, Sample.offline)
  /\ BookingActions.createBooking "not an id" "ann@example.com" Sample.offline
     = (Ok BookingActions.InvalidEventIdFormat, Sample.offline).
Proof.
  split; [|split; [|split]].
  - apply (validation_order "   " "not an address" Sample.offline). reflexivity.
  - apply (validation_order "not an id" " " Sample.offline); reflexivity.
  - apply (validation_order "not an id" "ann.example.com" Sample.offline); reflexivity.
  - apply (validation_order "not an id" "ann@example.com" Sample.offline); reflexivity.
Defined.

(** C1 (amended).  On a store that answers, for every well-formed eventId
    that references an existing Event and every well-formed email not yet
    booked on it: the first [createBooking] returns Created and appends the
    Booking; a second call with the identical pair is rejected with the
    AlreadyBooked message and writes nothing; a call with the same eventId and
    a well-formed email whose lower-cased form differs from that of the first
    (and is not booked either) returns Created.  And when the insert itself is
    refused by the store with an error whose message contains "duplicate key",
    the answer is the AlreadyBooked rejection and nothing is written. *)
Theorem one_booking_per_address :
  (forall eventId email1 email2 w,
     Spec.healthy w ->
     ObjectId.isValid eventId = true ->
     Re.test Booking.emailRegex email1 = true ->
     Re.test Booking.emailRegex email2 = true ->
     Spec.event_exists (ObjectId.ofString eventId) w = true ->
     Spec.booked (ObjectId.ofString eventId) (Str.toLowerCase email1) w = false ->
     Spec.booked (ObjectId.ofString eventId) (Str.toLowerCase email2) w = false ->
     Str.toLowerCase email2 <> Str.toLowerCase email1 ->
     exists b1 w1 w2 b2 w3,
       BookingActions.createBooking eventId email1 w
       = (Ok (BookingActions.Created b1), w1)
       /\ bookings w1 = (bookings w ++ [b1])%list
       /\ BookingActions.createBooking eventId email1 w1
          = (Ok BookingActions.AlreadyBooked, w2)
       /\ bookings w2 = bookings w1
       /\ BookingActions.createBooking eventId email2 w2
          = (Ok (BookingActions.Created b2), w3)
       /\ bookings w3 = (bookings w2 ++ [b2])%list)
  /\ (forall eventId email msg w,
        Spec.answers 3 w -> Spec.fails_at 3 (ErrorObj msg) w ->
        Str.includes "duplicate key" msg = true ->
        ObjectId.isValid eventId = true ->
        Re.test Booking.emailRegex email = true ->
        Spec.event_exists (ObjectId.ofString eventId) w = true ->
        Spec.booked (ObjectId.ofString eventId) (Str.toLowerCase email) w = false ->
        exists w',
          BookingActions.createBooking eventId email w
          = (Ok BookingActions.AlreadyBooked, w')
          /\ bookings w' = bookings w).
Proof.
  split.
  - intros eventId email1 email2 w Hh Hid Hem1 Hem2 Hev Hb1 Hb2 Hne.
    set (b1 := Spec.booking_of w (ObjectId.ofString eventId) (Str.toLowerCase email1)).
    set (w1 := mkWorld (events w) (bookings w ++ [b1]) (tl (tl (tl (tl (faults w)))))
                       (4 + round_trips w) (N.succ (next_oid w)) (now w)).
    assert (Hh1 : Spec.healthy w1) by (unfold Spec.healthy, w1; simpl; now rewrite Hh).
    set (w2 := answered (answered w1)).
    assert (Hh2 : Spec.healthy w2) by (unfold w2; now do 2 apply healthy_answered).
    set (b2 := Spec.booking_of w2 (ObjectId.ofString eventId) (Str.toLowerCase email2)).
    exists b1, w1, w2, b2.
    eexists.
    split; [apply createBooking_fresh; auto using healthy_answers|].
    split; [reflexivity|].
    split.
    { apply createBooking_duplicate; auto using healthy_answers.
      unfold Spec.booked, w1. cbn [bookings]. rewrite booked_app.
      unfold b1, Spec.booking_of, Booking.same_key. cbn [IBooking.eventId IBooking.email].
      unfold ObjectId.eqb. rewrite N.eqb_refl, String.eqb_refl. apply orb_true_r. }
    split; [reflexivity|].
    split.
    { apply createBooking_fresh; auto using healthy_answers.
      unfold Spec.booked, w2, w1. cbn [bookings answered]. rewrite booked_app, Hb2.
      unfold b1, Spec.booking_of, Booking.same_key. cbn [IBooking.eventId IBooking.email].
      apply andb_false_iff. right. apply String.eqb_neq. congruence. }
    reflexivity.
  - intros eventId email msg w Ha Hf Hmsg Hid Hem Hev Hbk.
    eexists. split; [now apply createBooking_insert_refused with (msg := msg)|].
    reflexivity.
Qed.

Lemma one_booking_per_address_witness :
  (exists b1 w1 w2 b2 w3,
     BookingActions.createBooking Sample.conf_id "ann@example.com" Sample.world
     = (Ok (BookingActions.Created b1), w1)
     /\ bookings w1 = (bookings Sample.world ++ [b1])%list
     /\ BookingActions.createBooking Sample.conf_id "ann@example.com" w1
        = (Ok BookingActions.AlreadyBooked, w2)
     /\ bookings w2 = bookings w1
     /\ BookingActions.createBooking Sample.conf_id "Bob@Example.com" w2
        = (Ok (BookingActions.Created b2), w3)
     /\ bookings w3 = (bookings w2 ++ [b2])%list)
  /\ exists w',
       BookingActions.createBooking Sample.conf_id "ann@example.com" Sample.racing
       = (Ok BookingActions.AlreadyBooked, w')
       /\ bookings w' = bookings Sample.racing.
Proof.
  split.
  - apply (proj1 one_booking_per_address Sample.conf_id "ann@example.com"
             "Bob@Example.com" Sample.world); try reflexivity.
    vm_compute. discriminate.
  - apply (proj2 one_booking_per_address Sample.conf_id "ann@example.com"
             "E11000 duplicate key error collection: bookings index: eventId_1_email_1"
             Sample.racing); try reflexivity.
    intros i Hi. do 3 (destruct i as [|i]; [reflexivity|]). lia.
Defined.

(** C1, as stated, fails: two addresses that differ only by the case of a
    letter are different well-formed emails, and the second is rejected as
    AlreadyBooked once the first is booked on the same event. *)
Lemma other_case_is_same_address :
  "Ann@example.com" <> "ann@example.com"
  /\ Re.test Booking.emailRegex "ann@example.com" = true
  /\ Re.test Booking.emailRegex "Ann@example.com" = true
  /\ Spec.event_exists (ObjectId.ofString Sample.conf_id) Sample.world = true
  /\ fst (BookingActions.createBooking Sample.conf_id "ann@example.com" Sample.world)
     = Ok (BookingActions.Created
             (Spec.booking_of Sample.world (ObjectId.ofString Sample.conf_id)
                              "ann@example.com"))
  /\ fst (BookingActions.createBooking Sample.conf_id "Ann@example.com"
            (snd (BookingActions.createBooking Sample.conf_id "ann@example.com"
                    Sample.world)))
     = Ok BookingActions.AlreadyBooked.
Proof.
  split; [discriminate|]. do 3 (split; [reflexivity|]).
  split; vm_compute; reflexivity.
Qed.

Lemma integrity_not_booked :
  forall id email w,
    Spec.referential_integrity w -> Spec.event_exists id w = false ->
    Spec.booked id email w = false.
Proof.
  intros id email w Hri Hev. apply not_true_iff_false. intros Hb.
  unfold Spec.booked in Hb. apply existsb_exists in Hb.
  destruct Hb as (b & Hin & Hk). unfold Booking.same_key in Hk.
  apply andb_true_iff in Hk. destruct Hk as [Hid _].
  apply N.eqb_eq in Hid. specialize (Hri b Hin). congruence.
Qed.

(** [createBooking] never throws, never touches the Events, and either leaves
    the Bookings alone or appends one Booking whose Event it has read. *)
Lemma createBooking_frame :
  forall eventId email w,
    exists r w',
      BookingActions.createBooking eventId email w = (Ok r, w')
      /\ events w' = events w
      /\ (bookings w' = bookings w
          \/ exists b, bookings w' = (bookings w ++ [b])%list
                       /\ Spec.event_exists (IBooking.eventId b) w = true).
Proof.
  intros eventId email w.
  unfold BookingActions.createBooking, try_catch, BookingActions.createBooking_try.
  destruct (Str.is_empty eventId || Str.is_empty (Str.trim eventId));
    [unfold ret; eauto 6|].
  destruct (Str.is_empty email || Str.is_empty (Str.trim email));
    [unfold ret; eauto 6|].
  destruct (negb (Re.test Booking.emailRegex email)); [unfold ret; eauto 6|].
  destruct (negb (ObjectId.isValid eventId)); [unfold ret; eauto 6|].
  destruct (BookingActions.createBooking_store eventId email w) as [o w'] eqn:H.
  assert (Hframe : events w' = events w
                   /\ (bookings w' = bookings w
                       \/ exists b, bookings w' = (bookings w ++ [b])%list
                                    /\ Spec.event_exists (IBooking.eventId b) w = true)).
  { unfold BookingActions.createBooking_store, connectDB in H.
    apply bind_inv in H. destruct H as [(u & w1 & Hc & H)|(e & Hc & _)].
    2:{ apply round_trip_frame in Hc. subst w'. auto. }
    apply round_trip_frame in Hc. subst w1.
    apply bind_inv in H. destruct H as [(ex & w2 & Hq & H)|(e & Hq & _)].
    2:{ apply query_frame in Hq. subst w'. auto. }
    apply query_frame in Hq. subst w2.
    destruct ex as [found|]; [injection H as _ <-; auto|].
    apply bind_inv in H. destruct H as [(b & w3 & Hcr & H)|(e & Hcr & _)].
    - injection H as _ <-. apply create_inv in Hcr.
      destruct Hcr as (He & Hid & _ & Hb & Hex). split; [exact He|].
      right. exists b. rewrite Hid. auto.
    - apply create_inv in Hcr. destruct Hcr as [He Hb]. auto. }
  destruct o as [r|err]; unfold ret; eauto.
Qed.

(** [createBooking] keeps every Booking attached to a stored Event. *)
Lemma createBooking_keeps_integrity :
  forall eventId email w,
    Spec.referential_integrity w ->
    Spec.referential_integrity (snd (BookingActions.createBooking eventId email w)).
Proof.
  intros eventId email w Hri.
  destruct (createBooking_frame eventId email w) as (r & w' & -> & He & Hb).
  cbn [snd]. intros b Hin. unfold Spec.event_exists. rewrite He.
  destruct Hb as [Hb|(b' & Hb & Hex)]; rewrite Hb in Hin.
  - exact (Hri b Hin).
  - apply in_app_or in Hin. destruct Hin as [Hin|[<-|[]]];
      [exact (Hri b Hin) | exact Hex].
Qed.

(** C3.  On a store that answers and whose Bookings all reference stored
    Events, for every well-formed eventId that references no stored Event (and
    every well-formed email), [createBooking] is rejected with the
    EventNotFound message and no Booking is inserted: the third round trip is
    the read of the pre-save hook of Booking, which throws before the insert
    (which would be the fourth) is sent. *)
Theorem missing_event_rejected :
  forall eventId email w,
    Spec.healthy w -> Spec.referential_integrity w ->
    ObjectId.isValid eventId = true ->
    Re.test Booking.emailRegex email = true ->
    Spec.event_exists (ObjectId.ofString eventId) w = false ->
    exists w',
      BookingActions.createBooking eventId email w
      = (Ok BookingActions.EventNotFound, w')
      /\ bookings w' = bookings w
      /\ round_trips w' = (3 + round_trips w)%nat.
Proof.
  intros eventId email w Hh Hri Hid Hem Hev.
  eexists. split.
  - apply createBooking_missing_event; auto using healthy_answers.
    now apply integrity_not_booked.
  - split; reflexivity.
Qed.

Lemma missing_event_rejected_witness :
  exists w',
    BookingActions.createBooking "507f1f77bcf86cd799439012" "ann@example.com" Sample.world
    = (Ok BookingActions.EventNotFound, w')
    /\ bookings w' = bookings Sample.world
    /\ round_trips w' = (3 + round_trips Sample.world)%nat.
Proof.
  apply (missing_event_rejected "507f1f77bcf86cd799439012" "ann@example.com"
           Sample.world); try reflexivity.
  intros b Hin. destruct Hin.
Defined.



(* ================================================================== *)
(** * The GET route *)
(* ================================================================== *)

Lemma findOne_slug_ok :
  forall s w,
    hd None (faults w) = None ->
    Event.findOne s w
    = (Ok (find (fun e => String.eqb (IEvent.slug e) (Event.slug_setter s)) (events w)),
       answered w).
Proof. intros s w H. unfold Event.findOne. now rewrite query_ok. Qed.

(** Under the unique index, the lookup by slug finds the one Event that has
    the slug. *)
Lemma find_by_unique_slug :
  forall (l : list IEvent.t) e,
    NoDup (List.map IEvent.slug l) -> In e l ->
    find (fun x => String.eqb (IEvent.slug x) (IEvent.slug e)) l = Some e.
Proof.
  induction l as [|x l IH]; intros e Hnd Hin; [destruct Hin|].
  simpl in Hnd. inversion Hnd as [|? ? Hx Hl]; subst. simpl.
  destruct (String.eqb (IEvent.slug x) (IEvent.slug e)) eqn:E.
  - destruct Hin as [->|Hin]; [reflexivity|].
    apply String.eqb_eq in E. destruct Hx. rewrite E. now apply in_map.
  - destruct Hin as [->|Hin]; [now rewrite String.eqb_refl in E|]. now apply IH.
Qed.

Lemma find_no_slug :
  forall (l : list IEvent.t) s,
    (forall e, In e l -> IEvent.slug e <> s) ->
    find (fun x => String.eqb (IEvent.slug x) s) l = None.
Proof.
  intros l s H. apply find_existsb_false. apply not_true_iff_false. intros Hex.
  apply existsb_exists in Hex. destruct Hex as (e & Hin & He).
  apply String.eqb_eq in He. exact (H e Hin He).
Qed.

Lemma slug_pattern_not_empty :
  forall s, Re.test Route.slugRegex s = true -> Str.is_empty s = false.
Proof. intros [|c s] H; [discriminate H | reflexivity]. Qed.

(** C6.  For every store and every slug: when the slug matches
    [^[a-z0-9]+(-[a-z0-9]+)*$] and is the slug of a stored Event (the store
    answers and keeps slugs unique), GET returns that Event with status 200;
    when the slug does not match the pattern, GET answers with status 400 and
    leaves the world as it was, without a round trip to the store, whatever
    the state of the store; when the slug matches and no stored Event has it,
    GET answers with status 404. *)
Theorem get_by_slug :
  (forall slug w e,
     Spec.healthy w -> Spec.unique_slugs w ->
     Re.test Route.slugRegex slug = true ->
     In e (events w) -> IEvent.slug e = slug ->
     exists w',
       Route.GET slug w
       = (Ok (Route.json 200 "Event fetched successfully" (Some e) None), w'))
  /\ (forall slug w,
        Re.test Route.slugRegex slug = false ->
        exists msg, Route.GET slug w = (Ok (Route.json 400 msg None None), w))
  /\ (forall slug w,
        Spec.healthy w ->
        Re.test Route.slugRegex slug = true ->
        (forall e, In e (events w) -> IEvent.slug e <> slug) ->
        exists msg w', Route.GET slug w = (Ok (Route.json 404 msg None None), w')).
Proof.
  split; [|split].
  - intros slug w e Hh Hu Hre Hin Hslug.
    destruct (answers_next 1 w (healthy_answers 2 w Hh)) as [H0 Ha1].
    destruct (answers_next 0 _ Ha1) as [H1 _].
    unfold Route.GET, try_catch, Route.GET_try.
    rewrite (slug_pattern_not_empty slug Hre), Hre. cbn [negb].
    unfold connectDB.
    erewrite bind_ok; [|apply round_trip_ok; exact H0].
    erewrite bind_ok; [|apply findOne_slug_ok; exact H1].
    rewrite (slug_setter_fixed slug Hre). cbn [events answered].
    rewrite <- Hslug. rewrite (find_by_unique_slug _ e Hu Hin).
    eexists. reflexivity.
  - intros slug w Hre. unfold Route.GET, try_catch, Route.GET_try.
    destruct (Str.is_empty slug); [eexists; reflexivity|].
    rewrite Hre. eexists. reflexivity.
  - intros slug w Hh Hre Hno.
    destruct (answers_next 1 w (healthy_answers 2 w Hh)) as [H0 Ha1].
    destruct (answers_next 0 _ Ha1) as [H1 _].
    unfold Route.GET, try_catch, Route.GET_try.
    rewrite (slug_pattern_not_empty slug Hre), Hre. cbn [negb].
    unfold connectDB.
    erewrite bind_ok; [|apply round_trip_ok; exact H0].
    erewrite bind_ok; [|apply findOne_slug_ok; exact H1].
    rewrite (slug_setter_fixed slug Hre). cbn [events answered].
    rewrite (find_no_slug _ slug Hno).
    do 2 eexists. reflexivity.
Qed.

Lemma get_by_slug_witness :
  (exists w',
     Route.GET "my-event" Sample.world
     = (Ok (Route.json 200 "Event fetched successfully" (Some Sample.conf) None), w'))
  /\ (exists msg,
        Route.GET "My_Event" Sample.offline
        = (Ok (Route.json 400 msg None None), Sample.offline))
  /\ (exists msg w',
        Route.GET "unknown-event"
                  (mkWorld [] [] [] 0 4096%N 1709632800000%Z)
        = (Ok (Route.json 404 msg None None), w')).
Proof.
  split; [|split].
  - apply (proj1 get_by_slug "my-event" Sample.world Sample.conf); try reflexivity.
    + unfold Spec.unique_slugs. simpl.
      repeat (constructor; [simpl; intuition discriminate|]). constructor.
    + simpl. auto.
  - apply (proj1 (proj2 get_by_slug) "My_Event" Sample.offline). reflexivity.
  - apply (proj2 (proj2 get_by_slug) "unknown-event"); try reflexivity.
    intros e Hin. destruct Hin.
Defined.

(* ================================================================== *)
(** * Similar events *)
(* ================================================================== *)

Lemma insert_recent_perm :
  forall e l, Permutation (Event.insert_recent e l) (e :: l).
Proof.
  intros e l. induction l as [|x l IH]; simpl; [reflexivity|].
  destruct (IEvent.createdAt x <=? IEvent.createdAt e)%Z; [reflexivity|].
  rewrite IH. apply perm_swap.
Qed.

Lemma sort_recent_perm : forall l, Permutation (Event.sort_recent l) l.
Proof.
  induction l as [|x l IH]; simpl; [reflexivity|].
  rewrite insert_recent_perm. now constructor.
Qed.

Lemma insert_recent_sorted :
  forall e l, Spec.recent_first l -> Spec.recent_first (Event.insert_recent e l).
Proof.
  unfold Spec.recent_first. intros e l H. induction H as [|x l Hs IH Hx]; simpl.
  - repeat constructor.
  - destruct (IEvent.createdAt x <=? IEvent.createdAt e)%Z eqn:E.
    + apply Z.leb_le in E. constructor; [now constructor|].
      constructor; [exact E|]. rewrite Forall_forall in *. intros y Hy.
      specialize (Hx y Hy). lia.
    + apply Z.leb_gt in E. constructor; [exact IH|].
      rewrite Forall_forall in *. intros y Hy.
      apply (Permutation_in _ (insert_recent_perm e l)) in Hy.
      destruct Hy as [<-|Hy]; [lia | now apply Hx].
Qed.

Lemma sort_recent_sorted : forall l, Spec.recent_first (Event.sort_recent l).
Proof.
  induction l as [|x l IH]; simpl; [constructor | now apply insert_recent_sorted].
Qed.

(** The [$in] filter of the query holds when the two tag lists meet. *)
Lemma in_any_shares_tag :
  forall values array, Event.in_any values array = Spec.shares_tag values array.
Proof.
  intros values array. apply eq_true_iff_eq.
  unfold Event.in_any, Spec.shares_tag. rewrite !existsb_exists. split.
  - intros (x & Hx & H). apply existsb_exists in H. destruct H as (y & Hy & E).
    apply String.eqb_eq in E. subst y. exists x. split; [exact Hy|].
    apply existsb_exists. exists x. split; [exact Hx | apply String.eqb_refl].
  - intros (x & Hx & H). apply existsb_exists in H. destruct H as (y & Hy & E).
    apply String.eqb_eq in E. subst y. exists x. split; [exact Hy|].
    apply existsb_exists. exists x. split; [exact Hx | apply String.eqb_refl].
Qed.

Lemma shares_tag_iff :
  forall a b, Spec.shares_tag a b = true <-> exists tag, In tag a /\ In tag b.
Proof.
  intros a b. unfold Spec.shares_tag. rewrite existsb_exists. split.
  - intros (x & Hx & H). apply existsb_exists in H. destruct H as (y & Hy & E).
    apply String.eqb_eq in E. subst y. eauto.
  - intros (x & Ha & Hb). exists x. split; [exact Ha|].
    apply existsb_exists. exists x. split; [exact Hb | apply String.eqb_refl].
Qed.





(** The example of the specification: the source has the tags "ai" and
    "infra", two other Events carry "ai", and they come back most recent
    first; a limit of 1 keeps the most recent one. *)
Example two_events_share_ai :
  option_map (List.map IEvent.slug)
    (match fst (EventActions.getSimilarEventsBySlug "my-event" None Sample.world) with
     | Ok l => Some l
     | Throw _ => None
     end) = Some ["ai-summit"; "ai-meetup"]
  /\ option_map (List.map IEvent.slug)
       (match fst (EventActions.getSimilarEventsBySlug "my-event" (Some 1%Z)
                     Sample.world) with
        | Ok l => Some l
        | Throw _ => None
        end) = Some ["ai-summit"].
Proof. split; vm_compute; reflexivity. Qed.

Lemma fails_at_hd :
  forall k e w,
    Spec.fails_at k e w -> hd None (faults (Nat.iter k answered w)) = Some e.
Proof.
  induction k as [|k IH]; intros e w H.
  - now apply fails_at_now.
  - rewrite Nat.iter_succ, <- Nat.iter_swap. apply IH. now apply fails_at_next.
Qed.

(** The call returns the empty list unless the store answers the three round
    trips of the lookup. *)
Lemma getSimilar_cases :
  forall slug limit w,
    fst (EventActions.getSimilarEventsBySlug slug limit w) = Ok []
    \/ (hd None (faults w) = None
        /\ hd None (faults (answered w)) = None
        /\ hd None (faults (answered (answered w))) = None).
Proof.
  intros slug limit w.
  unfold EventActions.getSimilarEventsBySlug, try_catch,
    EventActions.getSimilarEventsBySlug_try, connectDB.
  destruct (Str.is_empty slug || Str.is_empty (Str.trim slug)); [now left|].
  destruct (hd None (faults w)) as [e|] eqn:H0.
  { left. erewrite bind_throw by (apply round_trip_fail; exact H0). reflexivity. }
  erewrite bind_ok; [|now apply round_trip_ok].
  destruct (hd None (faults (answered w))) as [e|] eqn:H1.
  { left. erewrite bind_throw by (unfold Event.findOne; apply query_fail; exact H1).
    reflexivity. }
  erewrite bind_ok; [|now apply findOne_slug_ok].
  destruct (find _ _) as [src|]; [|now left].
  destruct (List.length (IEvent.tags src) =? 0)%nat; [now left|].
  destruct (hd None (faults (answered (answered w)))) as [e|] eqn:H2.
  { left. unfold Event.find_ne_id_in_tags. erewrite query_fail by exact H2.
    reflexivity. }
  right. auto.
Qed.

(** C8.  [getSimilarEventsBySlug] never raises: for every slug, limit and
    world it returns a list.  The list is empty when no Event is stored under
    the slug, when the source Event has no tag, when the store fails any of
    the round trips of the lookup (the connection, the read of the source, the
    search), and whenever the body of the [try] throws. *)
Theorem getSimilar_never_raises :
  forall slug limit w,
    (exists l w', EventActions.getSimilarEventsBySlug slug limit w = (Ok l, w'))
    /\ (find (fun e => String.eqb (IEvent.slug e) (Event.slug_setter slug)) (events w)
        = None ->
        fst (EventActions.getSimilarEventsBySlug slug limit w) = Ok [])
    /\ (forall src,
          find (fun e => String.eqb (IEvent.slug e) (Event.slug_setter slug)) (events w)
          = Some src ->
          IEvent.tags src = [] ->
          fst (EventActions.getSimilarEventsBySlug slug limit w) = Ok [])
    /\ (forall k err,
          (k < 3)%nat -> Spec.fails_at k err w ->
          fst (EventActions.getSimilarEventsBySlug slug limit w) = Ok [])
    /\ (forall err w',
          EventActions.getSimilarEventsBySlug_try slug
            (match limit with Some n => n | None => 5%Z end) w = (Throw err, w') ->
          EventActions.getSimilarEventsBySlug slug limit w = (Ok [], w')).
Proof.
  intros slug limit w. split; [|split; [|split; [|split]]].
  - unfold EventActions.getSimilarEventsBySlug, try_catch.
    destruct (EventActions.getSimilarEventsBySlug_try slug _ w) as [[l|err] w'];
      unfold ret; eauto.
  - intros Hnone. destruct (getSimilar_cases slug limit w) as [H|(H0 & H1 & _)];
      [exact H|].
    unfold EventActions.getSimilarEventsBySlug, try_catch,
      EventActions.getSimilarEventsBySlug_try, connectDB.
    destruct (Str.is_empty slug || Str.is_empty (Str.trim slug)); [reflexivity|].
    erewrite bind_ok; [|now apply round_trip_ok].
    erewrite bind_ok; [|now apply findOne_slug_ok].
    cbn [events answered]. rewrite Hnone. reflexivity.
  - intros src Hsome Htags.
    destruct (getSimilar_cases slug limit w) as [H|(H0 & H1 & _)]; [exact H|].
    unfold EventActions.getSimilarEventsBySlug, try_catch,
      EventActions.getSimilarEventsBySlug_try, connectDB.
    destruct (Str.is_empty slug || Str.is_empty (Str.trim slug)); [reflexivity|].
    erewrite bind_ok; [|now apply round_trip_ok].
    erewrite bind_ok; [|now apply findOne_slug_ok].
    cbn [events answered]. rewrite Hsome, Htags. reflexivity.
  - intros k err Hk Hf.
    destruct (getSimilar_cases slug limit w) as [H|(H0 & H1 & H2)]; [exact H|].
    apply fails_at_hd in Hf.
    destruct k as [|[|[|k]]]; cbn [Nat.iter nat_rect] in Hf; try congruence. lia.
  - intros err w' H. unfold EventActions.getSimilarEventsBySlug, try_catch.
    now rewrite H.
Qed.

Lemma getSimilar_never_raises_witness :
  fst (EventActions.getSimilarEventsBySlug "unknown-event" None Sample.world) = Ok []
  /\ fst (EventActions.getSimilarEventsBySlug "my-event" None Sample.offline) = Ok []
  /\ fst (EventActions.getSimilarEventsBySlug "my-event" (Some 3%Z)
            (mkWorld (events Sample.world) [] [None; None; Some NonError]
                     0 4096%N 1709632800000%Z)) = Ok [].
Proof.
  split; [|split].
  - apply (getSimilar_never_raises "unknown-event" None Sample.world). reflexivity.
  - apply (proj1 (proj2 (proj2 (proj2
             (getSimilar_never_raises "my-event" None Sample.offline))))
             0%nat (ErrorObj "connect ECONNREFUSED")).
    + lia.
    + reflexivity.
  - apply (proj1 (proj2 (proj2 (proj2
             (getSimilar_never_raises "my-event" (Some 3%Z)
                (mkWorld (events Sample.world) [] [None; None; Some NonError]
                         0 4096%N 1709632800000%Z)))))
             2%nat NonError).
    + lia.
    + reflexivity.
Defined.

(* ================================================================== *)
(** * The shape of derived slugs *)
(* ================================================================== *)

Lemma all_dropWhile :
  forall p q s, Str.all p s = true -> Str.all p (Str.dropWhile q s) = true.
Proof.
  intros p q s. induction s as [|c s IH]; simpl; intros H; [reflexivity|].
  destruct (q c); [|exact H]. apply andb_true_iff in H. now apply IH.
Qed.

Lemma all_dropWhileEnd :
  forall p q s, Str.all p s = true -> Str.all p (Str.dropWhileEnd q s) = true.
Proof.
  intros p q s. induction s as [|c s IH]; simpl; intros H; [reflexivity|].
  apply andb_true_iff in H. destruct H as [Hc Hs]. specialize (IH Hs).
  destruct (Str.dropWhileEnd q s).
  - destruct (q c); simpl; [reflexivity | now rewrite Hc].
  - simpl in *. now rewrite Hc, IH.
Qed.

Lemma trimStart_dropWhile : forall s, Str.trimStart s = Str.dropWhile Char.space s.
Proof. induction s as [|c s IH]; simpl; [reflexivity|]. now rewrite IH. Qed.

Lemma trimEnd_dropWhileEnd : forall s, Str.trimEnd s = Str.dropWhileEnd Char.space s.
Proof. induction s as [|c s IH]; simpl; [reflexivity|]. now rewrite IH. Qed.

Lemma all_trim : forall p s, Str.all p s = true -> Str.all p (Str.trim s) = true.
Proof.
  intros p s H. unfold Str.trim. rewrite trimEnd_dropWhileEnd, trimStart_dropWhile.
  now apply all_dropWhileEnd, all_dropWhile.
Qed.

Lemma all_remove_outside :
  forall p keep s,
    Str.all p s = true ->
    Str.all (fun c => keep c && p c) (Str.remove_outside keep s) = true.
Proof.
  intros p keep s. induction s as [|c s IH]; simpl; intros H; [reflexivity|].
  apply andb_true_iff in H. destruct H as [Hc Hs].
  destruct (keep c) eqn:Hk; [|now apply IH].
  simpl. now rewrite Hk, Hc, IH.
Qed.

Lemma all_replace_runs :
  forall (p q C : ascii -> bool) by_ b s,
    (forall c, p c = true -> C c = false -> q c = true) ->
    Str.all q by_ = true -> Str.all p s = true ->
    Str.all q (Str.replace_runs_from C by_ b s) = true.
Proof.
  intros p q C by_ b s Hpq Hby. revert b.
  induction s as [|c s IH]; intros b H; simpl; [reflexivity|].
  simpl in H. apply andb_true_iff in H. destruct H as [Hc Hs].
  destruct (C c) eqn:HC.
  - destruct b; [now apply IH|]. rewrite all_append, Hby. now apply IH.
  - simpl. rewrite (Hpq c Hc HC). now apply IH.
Qed.

(** After [replace(/-+/g, '-')] no two hyphens are adjacent; inside a run the
    output does not start with a hyphen. *)
Lemma hyphen_runs_collapsed :
  forall s b,
    Str.includes "--" (Str.replace_runs_from (Char.eq "-") "-" b s) = false
    /\ (b = true ->
        Spec.starts_with_hyphen (Str.replace_runs_from (Char.eq "-") "-" b s) = false).
Proof.
  induction s as [|c s IH]; intros b; [split; reflexivity|].
  cbn [Str.replace_runs_from]. destruct (Char.eq "-" c) eqn:Hc.
  - destruct (IH true) as [Hi Hs]. specialize (Hs eq_refl). destruct b.
    + split; [exact Hi | intros _; exact Hs].
    + split; [|discriminate].
      change ("-" ++ Str.replace_runs_from (Char.eq "-") "-" true s)
        with (String "-" (Str.replace_runs_from (Char.eq "-") "-" true s)).
      cbn [Str.includes]. rewrite Hi, orb_false_r.
      unfold Spec.starts_with_hyphen, Str.first in Hs.
      destruct (Str.replace_runs_from (Char.eq "-") "-" true s) as [|a t];
        [reflexivity|].
      cbn [Str.startsWith]. unfold Char.eq in Hs. rewrite Hs. reflexivity.
  - destruct (IH false) as [Hi _]. split.
    + cbn [Str.includes Str.startsWith]. unfold Char.eq in Hc. rewrite Hc, Hi.
      reflexivity.
    + intros _. unfold Spec.starts_with_hyphen. cbn [Str.first]. exact Hc.
Qed.

Lemma includes_dropWhile :
  forall needle q s,
    Str.includes needle s = false -> Str.includes needle (Str.dropWhile q s) = false.
Proof.
  intros needle q s. induction s as [|c s IH]; intros H; [exact H|].
  cbn [Str.dropWhile]. destruct (q c); [|exact H].
  apply IH. cbn [Str.includes] in H. apply orb_false_iff in H. tauto.
Qed.

Lemma dropWhileEnd_prefix :
  forall q s, exists r, s = Str.dropWhileEnd q s ++ r.
Proof.
  intros q s. induction s as [|c s [r IH]]; [exists ""; reflexivity|].
  cbn [Str.dropWhileEnd]. destruct (Str.dropWhileEnd q s) as [|a t] eqn:E.
  - destruct (q c).
    + exists (String c s). reflexivity.
    + exists r. simpl in *. now rewrite <- IH.
  - exists r. simpl in *. now rewrite <- IH.
Qed.

Lemma startsWith_append_r :
  forall needle s r,
    Str.startsWith needle s = true -> Str.startsWith needle (s ++ r) = true.
Proof.
  induction needle as [|a n IH]; intros [|b s] r H; simpl in *;
    try reflexivity; try discriminate.
  apply andb_true_iff in H. destruct H as [Hab Hs]. rewrite Hab. simpl. now apply IH.
Qed.

Lemma includes_append_l :
  forall needle s r,
    Str.includes needle s = true -> Str.includes needle (s ++ r) = true.
Proof.
  intros needle s r. induction s as [|c s IH]; intros H.
  - simpl in H. rewrite orb_false_r in H.
    destruct needle; [now destruct r | discriminate H].
  - cbn [Str.includes] in H. apply orb_true_iff in H.
    change (String c s ++ r) with (String c (s ++ r)). cbn [Str.includes].
    apply orb_true_iff. destruct H as [H|H].
    + left. now apply (startsWith_append_r needle (String c s) r).
    + right. now apply IH.
Qed.

Lemma includes_dropWhileEnd :
  forall needle q s,
    Str.includes needle s = false -> Str.includes needle (Str.dropWhileEnd q s) = false.
Proof.
  intros needle q s H. apply not_true_iff_false. intros Hi.
  destruct (dropWhileEnd_prefix q s) as [r E].
  apply (includes_append_l _ _ r) in Hi. rewrite <- E in Hi. congruence.
Qed.

Lemma dropWhile_first :
  forall q s c, Str.first (Str.dropWhile q s) = Some c -> q c = false.
Proof.
  intros q s c. induction s as [|a s IH]; simpl; [discriminate|].
  destruct (q a) eqn:Ha; [exact IH|]. simpl. intros E. injection E as <-. exact Ha.
Qed.

Lemma dropWhileEnd_first :
  forall q s c, Str.first (Str.dropWhileEnd q s) = Some c -> Str.first s = Some c.
Proof.
  intros q [|a s] c; simpl; [discriminate|].
  destruct (Str.dropWhileEnd q s) as [|b t]; [|exact (fun H => H)].
  destruct (q a); [discriminate | exact (fun H => H)].
Qed.

Lemma dropWhileEnd_last :
  forall q s c, Str.last (Str.dropWhileEnd q s) = Some c -> q c = false.
Proof.
  intros q s. induction s as [|a s IH]; intros c; simpl; [discriminate|].
  destruct (Str.dropWhileEnd q s) as [|b t] eqn:E.
  - destruct (q a) eqn:Ha; simpl; [discriminate|].
    intros H. injection H as <-. exact Ha.
  - intros H. apply IH. exact H.
Qed.

Lemma lowered_no_upper :
  forall s, Str.all (fun c => negb (Char.upper c)) (Str.toLowerCase s) = true.
Proof.
  unfold Str.toLowerCase. induction s as [|c s IH]; simpl; [reflexivity|].
  now rewrite toLower_not_upper, IH.
Qed.

(** What the hook guarantees of a derived slug: lower-case letters, digits,
    underscores and hyphens only, hyphens single, none at either end. *)
Lemma slugify_shape :
  forall title,
    Spec.slug_shape Spec.lower_alnum_underscore_or_hyphen (Event.slugify title) = true.
Proof.
  intros title. unfold Event.slugify, Str.strip_ends, Str.replace_runs.
  set (s1 := Str.remove_outside Event.word_space_hyphen
               (Str.trim (Str.toLowerCase title))).
  set (s2 := Str.replace_runs_from Char.space "-" false s1).
  set (s3 := Str.replace_runs_from (Char.eq "-") "-" false s2).
  assert (H1 : Str.all (fun c => Event.word_space_hyphen c && negb (Char.upper c)) s1
               = true).
  { apply all_remove_outside. apply all_trim. apply lowered_no_upper. }
  assert (H2 : Str.all Spec.lower_alnum_underscore_or_hyphen s2 = true).
  { apply all_replace_runs
      with (p := fun c => Event.word_space_hyphen c && negb (Char.upper c));
      [|reflexivity|exact H1].
    intros c; each_char c. }
  assert (H3 : Str.all Spec.lower_alnum_underscore_or_hyphen s3 = true).
  { apply all_replace_runs with (p := Spec.lower_alnum_underscore_or_hyphen);
      [auto|reflexivity|exact H2]. }
  unfold Spec.slug_shape. repeat (apply andb_true_iff; split).
  - now apply all_dropWhileEnd, all_dropWhile.
  - apply negb_true_iff. apply includes_dropWhileEnd, includes_dropWhile.
    apply (hyphen_runs_collapsed s2 false).
  - apply negb_true_iff. unfold Spec.starts_with_hyphen.
    destruct (Str.first _) as [c|] eqn:E; [|reflexivity].
    apply dropWhileEnd_first in E. now apply dropWhile_first in E.
  - apply negb_true_iff. unfold Spec.ends_with_hyphen.
    destruct (Str.last _) as [c|] eqn:E; [|reflexivity].
    now apply dropWhileEnd_last in E.
Qed.

(** The slug written by the hook is the one derived from the title: the
    setters of the path leave it alone, and it depends on the title only. *)
Lemma slug_setter_slugify :
  forall title, Event.slug_setter (Event.slugify title) = Event.slugify title.
Proof.
  intros title. pose proof (slugify_shape title) as H. unfold Spec.slug_shape in H.
  apply andb_true_iff in H. destruct H as [H _].
  apply andb_true_iff in H. destruct H as [H _].
  apply andb_true_iff in H. destruct H as [H _].
  unfold Event.slug_setter.
  assert (Hl : Str.toLowerCase (Event.slugify title) = Event.slugify title).
  { unfold Str.toLowerCase.
    apply map_fixed with (p := Spec.lower_alnum_underscore_or_hyphen); [|exact H].
    intros c; each_char c. }
  rewrite Hl. apply trim_fixed. revert H. apply all_impl. intros c; each_char c.
Qed.

Lemma generate_slug_deterministic :
  forall this that : document IEvent.t,
    isModified "title" this = true -> isModified "title" that = true ->
    IEvent.title (fields this) = IEvent.title (fields that) ->
    IEvent.slug (fields (Event.generate_slug this))
    = IEvent.slug (fields (Event.generate_slug that))
    /\ IEvent.slug (fields (Event.generate_slug this))
       = Event.slugify (IEvent.title (fields this)).
Proof.
  intros this that Hm Hm' Ht. unfold Event.generate_slug. rewrite Hm, Hm'. simpl.
  rewrite Ht, slug_setter_slugify. auto.
Qed.

(* ================================================================== *)
(** * The calendar *)
(* ================================================================== *)

Section Calendar.

Local Open Scope Z_scope.

Lemma year_of_era :
  forall doe, 0 <= doe < 146097 ->
    let yoe := (doe - doe / 1460 + doe / 36524 - doe / 146096) / 365 in
    let doy := doe - (365 * yoe + yoe / 4 - yoe / 100) in
    0 <= yoe <= 399 /\ 0 <= doy
    /\ (doy <= 364
        \/ (doy = 365
            /\ (yoe + 1) mod 4 = 0
            /\ ((yoe + 1) mod 100 <> 0 \/ (yoe + 1) mod 400 = 0))).
Proof.
  intros doe H yoe doy. subst doy yoe. Z.div_mod_to_equations. lia.
Qed.

Lemma month_of_year :
  forall doy, 0 <= doy <= 365 ->
    let mp := (5 * doy + 2) / 153 in
    let d := doy - (153 * mp + 2) / 5 + 1 in
    0 <= mp <= 11 /\ 1 <= d <= 31
    /\ (mp = 1 \/ mp = 3 \/ mp = 6 \/ mp = 8 -> d <= 30)
    /\ (mp = 11 -> d = doy - 336).
Proof.
  intros doy H mp d. subst d mp. Z.div_mod_to_equations. lia.
Qed.

(** [civil] yields a date of the calendar, [MakeDay] maps it back to the day
    it came from, and the year stays within the cycle of 400 years of the
    day. *)
Lemma civil_spec :
  forall day y m d,
    JsDate.civil day = (y, m, d) ->
    1 <= m <= 12 /\ 1 <= d <= JsDate.daysInMonth y m /\ JsDate.MakeDay y m d = day
    /\ 400 * ((day + 719468) / 146097) <= y <= 400 * ((day + 719468) / 146097) + 400.
Proof.
  intros day y m d H. unfold JsDate.civil in H. cbv zeta in H.
  set (z := day + 719468) in *.
  set (era := z / 146097) in *.
  set (doe := z - era * 146097) in *.
  set (yoe := (doe - doe / 1460 + doe / 36524 - doe / 146096) / 365) in *.
  set (doy := doe - (365 * yoe + yoe / 4 - yoe / 100)) in *.
  set (mp := (5 * doy + 2) / 153) in *.
  assert (Hdoe : 0 <= doe < 146097).
  { unfold doe, era. pose proof (Z.div_mod z 146097).
    pose proof (Z.mod_pos_bound z 146097). lia. }
  destruct (year_of_era doe Hdoe) as (Hyoe & Hdoy0 & Hdoy).
  fold yoe in Hyoe, Hdoy0, Hdoy. fold doy in Hdoy0, Hdoy.
  assert (Hdoy' : 0 <= doy <= 365) by lia.
  destruct (month_of_year doy Hdoy') as (Hmp & Hd & H30 & Hfeb).
  fold mp in Hmp, Hd, H30, Hfeb.
  set (dd := doy - (153 * mp + 2) / 5 + 1) in *.
  injection H as <- <- <-.
  unfold JsDate.daysInMonth, JsDate.isLeap, JsDate.MakeDay. cbv zeta.
  destruct (mp <? 10) eqn:Emp.
  - apply Z.ltb_lt in Emp.
    replace (mp + 3 <=? 2) with false by (symmetry; apply Z.leb_gt; lia).
    replace (2 <? mp + 3) with true by (symmetry; apply Z.ltb_lt; lia).
    replace (mp + 3 =? 2) with false by (symmetry; apply Z.eqb_neq; lia).
    replace (mp + 3 - 3) with mp by lia.
    replace ((yoe + era * 400 + 0) / 400) with era
      by (apply Z.div_unique with (r := yoe); lia).
    split; [lia|]. split.
    + destruct ((mp + 3 =? 4) || (mp + 3 =? 6) || (mp + 3 =? 9) || (mp + 3 =? 11))
        eqn:E.
      * rewrite !orb_true_iff, !Z.eqb_eq in E. split; [lia|]. apply H30. lia.
      * lia.
    + split; [|lia]. replace (yoe + era * 400 + 0 - era * 400) with yoe by lia.
      unfold dd, doy, doe, z. lia.
  - apply Z.ltb_ge in Emp.
    replace (mp - 9 <=? 2) with true by (symmetry; apply Z.leb_le; lia).
    replace (2 <? mp - 9) with false by (symmetry; apply Z.ltb_ge; lia).
    replace (mp - 9 + 9) with mp by lia.
    replace ((yoe + era * 400 + 1 - 1) / 400) with era
      by (apply Z.div_unique with (r := yoe); lia).
    split; [lia|]. split.
    + destruct (mp - 9 =? 2) eqn:E2.
      * apply Z.eqb_eq in E2. assert (Hmp11 : mp = 11) by lia.
        specialize (Hfeb Hmp11).
        destruct (_ || _) eqn:El.
        -- lia.
        -- rewrite orb_false_iff, andb_false_iff, negb_false_iff, !Z.eqb_neq, Z.eqb_eq
             in El.
           split; [lia|]. destruct Hdoy as [Hdoy|(Hdoy & H4 & H100)]; [lia|].
           exfalso. clear - El H4 H100 Hyoe. Z.div_mod_to_equations. lia.
      * apply Z.eqb_neq in E2.
        replace ((mp - 9 =? 4) || (mp - 9 =? 6) || (mp - 9 =? 9) || (mp - 9 =? 11))
          with false.
        -- lia.
        -- symmetry. rewrite !orb_false_iff, !Z.eqb_neq. lia.
    + split; [|lia]. replace (yoe + era * 400 + 1 - 1 - era * 400) with yoe by lia.
      unfold dd, doy, doe, z. lia.
Qed.

End Calendar.

(* ================================================================== *)
(** * Printing and reading dates *)
(* ================================================================== *)

Section Digits.

Local Open Scope Z_scope.

Lemma digit_char_spec :
  forall n, 0 <= n <= 9 ->
    JsDate.digit_of (JsDate.digit_char n) = Some n
    /\ Char.digit (JsDate.digit_char n) = true.
Proof.
  intros n H. set (k := Z.to_nat n).
  assert (Hn : n = Z.of_nat k) by (unfold k; lia).
  assert (Hk : (k <= 9)%nat) by lia.
  clearbody k. subst n. clear H.
  do 10 (destruct k as [|k]; [split; reflexivity|]). lia.
Qed.

Lemma number_step :
  forall k a c s,
    JsDate.number (S k) a (String c s)
    = match JsDate.digit_of c with
      | Some d => JsDate.number k (10 * a + d) s
      | None => None
      end.
Proof. reflexivity. Qed.

(** Reading [k + 1] digits is reading [k] digits, then one more. *)
Lemma number_snoc :
  forall k a s,
    JsDate.number (S k) a s
    = match JsDate.number k a s with
      | Some (v, String c s') =>
          match JsDate.digit_of c with
          | Some d => Some (10 * v + d, s')
          | None => None
          end
      | _ => None
      end.
Proof.
  induction k as [|k IH]; intros a s.
  - destruct s as [|c s]; [reflexivity|]. rewrite number_step.
    cbn [JsDate.number]. destruct (JsDate.digit_of c); reflexivity.
  - destruct s as [|c s]; [reflexivity|]. rewrite !number_step.
    destruct (JsDate.digit_of c) as [d|]; [|reflexivity]. apply IH.
Qed.

(** What [pad] prints, [number] reads back. *)
Lemma number_pad :
  forall k n a rest,
    0 <= n < 10 ^ Z.of_nat k ->
    JsDate.number k a (JsDate.pad k n rest) = Some (a * 10 ^ Z.of_nat k + n, rest).
Proof.
  induction k as [|k IH]; intros n a rest H.
  - simpl in *. f_equal. f_equal. lia.
  - rewrite Nat2Z.inj_succ, Z.pow_succ_r in * by lia.
    rewrite number_snoc. cbn [JsDate.pad].
    assert (Hq : 0 <= n / 10 < 10 ^ Z.of_nat k).
    { split; [apply Z.div_pos; lia|]. apply Z.div_lt_upper_bound; lia. }
    rewrite (IH (n / 10) a _ Hq).
    pose proof (Z.mod_pos_bound n 10 ltac:(lia)) as Hr.
    destruct (digit_char_spec (n mod 10) ltac:(lia)) as [Hd _]. rewrite Hd.
    f_equal. f_equal. pose proof (Z.div_mod n 10 ltac:(lia)). lia.
Qed.

Lemma pad_append :
  forall k n acc rest,
    (JsDate.pad k n acc ++ rest)%string = JsDate.pad k n (acc ++ rest)%string.
Proof.
  induction k as [|k IH]; intros n acc rest; [reflexivity|].
  cbn [JsDate.pad]. now rewrite IH.
Qed.

Lemma pad_all :
  forall (p : ascii -> bool) k n acc,
    (forall c, Char.digit c = true -> p c = true) ->
    Str.all p acc = true -> Str.all p (JsDate.pad k n acc) = true.
Proof.
  intros p k. induction k as [|k IH]; intros n acc Hp H; [exact H|].
  cbn [JsDate.pad]. apply IH; [exact Hp|]. cbn [Str.all]. rewrite H.
  pose proof (Z.mod_pos_bound n 10 ltac:(lia)) as Hr.
  destruct (digit_char_spec (n mod 10) ltac:(lia)) as [_ Hd].
  now rewrite (Hp _ Hd).
Qed.

(** A printed number of at least one digit starts with a digit. *)
Lemma pad_starts_with_digit :
  forall k n acc,
    exists c s, JsDate.pad (S k) n acc = String c s /\ Char.digit c = true.
Proof.
  induction k as [|k IH]; intros n acc.
  - cbn [JsDate.pad]. do 2 eexists. split; [reflexivity|].
    pose proof (Z.mod_pos_bound n 10 ltac:(lia)) as Hr.
    now destruct (digit_char_spec (n mod 10) ltac:(lia)).
  - change (JsDate.pad (S (S k)) n acc)
      with (JsDate.pad (S k) (n / 10) (String (JsDate.digit_char (n mod 10)) acc)).
    apply IH.
Qed.

(** What [year_string] prints, [year] reads back. *)
Lemma year_year_string :
  forall y rest,
    - 10 ^ 6 < y < 10 ^ 6 ->
    JsDate.year (JsDate.year_string y ++ rest)%string = Some (y, rest).
Proof.
  intros y rest H. unfold JsDate.year_string.
  destruct ((0 <=? y) && (y <=? 9999)) eqn:E.
  - apply andb_true_iff in E. destruct E as [E0 E1].
    apply Z.leb_le in E0. apply Z.leb_le in E1.
    rewrite pad_append. cbn [append].
    destruct (pad_starts_with_digit 3 y rest) as (c & s & Hs & Hc).
    unfold JsDate.year. rewrite Hs.
    replace (Ascii.eqb c "+") with false by (revert Hc; clear; each_char c).
    replace (Ascii.eqb c "-") with false by (revert Hc; clear; each_char c).
    rewrite <- Hs. rewrite (number_pad 4 y 0 rest) by (simpl; lia).
    match goal with
      | |- Some (?u, _) = Some (?v, _) => replace u with v by lia
      end. reflexivity.
  - destruct (y <? 0) eqn:En.
    + apply Z.ltb_lt in En. cbn [append JsDate.year Ascii.eqb Bool.eqb].
      rewrite pad_append. cbn [append].
      rewrite (number_pad 6 (- y) 0 rest) by (simpl; lia).
      replace (0 * 10 ^ Z.of_nat 6 + - y =? 0) with false
        by (symmetry; apply Z.eqb_neq; lia).
      match goal with
      | |- Some (?u, _) = Some (?v, _) => replace u with v by lia
      end. reflexivity.
    + apply Z.ltb_ge in En. cbn [append JsDate.year Ascii.eqb Bool.eqb].
      rewrite pad_append. cbn [append].
      rewrite (number_pad 6 y 0 rest) by (simpl; lia).
      match goal with
      | |- Some (?u, _) = Some (?v, _) => replace u with v by lia
      end. reflexivity.
Qed.

Lemma year_string_no_T :
  forall y, Str.all (fun c => negb (Ascii.eqb c "T")) (JsDate.year_string y) = true.
Proof.
  intros y.
  assert (Hp : forall c, Char.digit c = true -> negb (Ascii.eqb c "T") = true)
    by (intros c; each_char c).
  unfold JsDate.year_string.
  destruct ((0 <=? y) && (y <=? 9999)); [now apply pad_all|].
  destruct (y <? 0); cbn [Str.all]; rewrite pad_all; auto.
Qed.

End Digits.

Lemma before_append :
  forall sep s r,
    Str.all (fun c => negb (Ascii.eqb c sep)) s = true ->
    Str.before sep (s ++ r) = s ++ Str.before sep r.
Proof.
  intros sep s r. induction s as [|c s IH]; intros H; [reflexivity|].
  cbn [Str.all] in H. apply andb_true_iff in H. destruct H as [Hc Hs].
  apply negb_true_iff in Hc. cbn [append Str.before]. rewrite Hc. now rewrite IH.
Qed.

Lemma append_nil_r : forall s : string, s ++ "" = s.
Proof. induction s as [|c s IH]; simpl; congruence. Qed.

Section IsoDate.

Local Open Scope Z_scope.

(** The date part of the ISO string of [t] is the civil date of its day. *)
Lemma iso_date_civil :
  forall t y m d,
    JsDate.civil (t / JsDate.msPerDay) = (y, m, d) ->
    Inv.iso_date t = Inv.date_string y m d.
Proof.
  intros t y m d H. unfold Inv.iso_date, JsDate.toISOString. cbv zeta. rewrite H.
  assert (Hp : forall c, Char.digit c = true -> negb (Ascii.eqb c "T") = true)
    by (intros c; each_char c).
  unfold Inv.date_string.
  rewrite before_append by apply year_string_no_T. f_equal.
  rewrite (before_append "T" "-") by reflexivity. f_equal.
  rewrite before_append by (apply pad_all; auto). f_equal.
  rewrite (before_append "T" "-") by reflexivity. f_equal.
  rewrite before_append by (apply pad_all; auto).
  cbn [append Str.before Ascii.eqb Bool.eqb]. reflexivity.
Qed.

(** A printed date of the calendar is read back by the standard format. *)
Lemma parse_format_date_string :
  forall y m d,
    - 10 ^ 6 < y < 10 ^ 6 -> 1 <= m <= 12 -> 1 <= d <= JsDate.daysInMonth y m ->
    JsDate.parse_format (Inv.date_string y m d)
    = Some (JsDate.MakeDay y m d * JsDate.msPerDay).
Proof.
  intros y m d Hy Hm Hd.
  assert (Hd31 : d <= 31).
  { unfold JsDate.daysInMonth in Hd.
    destruct (m =? 2); [destruct (JsDate.isLeap y)|destruct (_ || _)]; lia. }
  unfold JsDate.parse_format, Inv.date_string.
  rewrite year_year_string by exact Hy.
  cbn [append JsDate.expect Ascii.eqb Bool.eqb].
  rewrite pad_append. rewrite (number_pad 2 m 0) by (simpl; lia).
  replace (0 * 10 ^ Z.of_nat 2 + m) with m by lia.
  replace ((1 <=? m) && (m <=? 12)) with true
    by (symmetry; apply andb_true_iff; split; apply Z.leb_le; lia).
  cbn [append JsDate.expect Ascii.eqb Bool.eqb].
  rewrite (number_pad 2 d 0) by (simpl; lia).
  replace (0 * 10 ^ Z.of_nat 2 + d) with d by lia.
  replace ((1 <=? d) && (d <=? JsDate.daysInMonth y m)) with true
    by (symmetry; apply andb_true_iff; split; apply Z.leb_le; lia).
  reflexivity.
Qed.

Lemma day_in_range :
  forall t, Z.abs t <= JsDate.maxTime ->
    - 100000000 <= t / JsDate.msPerDay <= 100000000
    /\ Z.abs (Inv.utc_midnight t) <= JsDate.maxTime.
Proof.
  intros t H. unfold Inv.utc_midnight, JsDate.maxTime, JsDate.msPerDay in *.
  pose proof (Z.div_mod t 86400000 ltac:(lia)).
  pose proof (Z.mod_pos_bound t 86400000 ltac:(lia)). lia.
Qed.

(** Reading the stored date gives the first instant of the UTC day, whatever
    the engine's own parser is. *)
Lemma parse_iso_date :
  forall host t,
    Z.abs t <= JsDate.maxTime ->
    JsDate.parse host (Inv.iso_date t) = Some (Inv.utc_midnight t).
Proof.
  intros host t H. destruct (day_in_range t H) as [Hday Hmid].
  destruct (JsDate.civil (t / JsDate.msPerDay)) as [[y m] d] eqn:Hc.
  destruct (civil_spec _ _ _ _ Hc) as (Hm & Hd & Hmk & Hy).
  rewrite (iso_date_civil t y m d Hc). unfold JsDate.parse.
  rewrite parse_format_date_string; try assumption.
  - rewrite Hmk. unfold JsDate.TimeClip. fold (Inv.utc_midnight t).
    replace (Z.abs (Inv.utc_midnight t) <=? JsDate.maxTime) with true
      by (symmetry; apply Z.leb_le; exact Hmid).
    reflexivity.
  - pose proof (Z.div_mod (t / JsDate.msPerDay + 719468) 146097 ltac:(lia)).
    pose proof (Z.mod_pos_bound (t / JsDate.msPerDay + 719468) 146097 ltac:(lia)).
    lia.
Qed.

(** The stored date of the first instant of the day is the stored date. *)
Lemma iso_date_utc_midnight :
  forall t, Inv.iso_date (Inv.utc_midnight t) = Inv.iso_date t.
Proof.
  intros t. destruct (JsDate.civil (t / JsDate.msPerDay)) as [[y m] d] eqn:Hc.
  rewrite (iso_date_civil t y m d Hc). apply iso_date_civil.
  unfold Inv.utc_midnight. rewrite Z.div_mul by (unfold JsDate.msPerDay; lia).
  exact Hc.
Qed.

Lemma parse_in_range :
  forall host s t, JsDate.parse host s = Some t -> Z.abs t <= JsDate.maxTime.
Proof.
  intros host s t. unfold JsDate.parse, JsDate.TimeClip.
  destruct (JsDate.parse_format s) as [u|].
  - destruct (Z.abs u <=? JsDate.maxTime) eqn:E; [|discriminate].
    intros H. injection H as <-. now apply Z.leb_le.
  - destruct (host s) as [u|]; [|discriminate].
    destruct (Z.abs u <=? JsDate.maxTime) eqn:E; [|discriminate].
    intros H. injection H as <-. now apply Z.leb_le.
Qed.

End IsoDate.

(* ================================================================== *)
(** * More on the pre-save hook of Event *)
(* ================================================================== *)

Lemma pre_save_inv :
  forall host (this : document IEvent.t) e,
    Event.pre_save host this = Ok e ->
    exists this1,
      Event.normalize_date host (Event.generate_slug this) = Ok this1
      /\ Event.validate_time this1 = Ok this1
      /\ Event.validate_arrays this1 = Ok this1
      /\ e = fields this1.
Proof.
  intros host this e H. unfold Event.pre_save in H.
  destruct (Event.normalize_date host (Event.generate_slug this)) as [this1|]
    eqn:H1; [|discriminate].
  exists this1. split; [reflexivity|].
  unfold Event.validate_time in *.
  destruct (isModified "time" this1 && negb (Re.test Event.timeRegex _));
    [discriminate|].
  unfold Event.validate_arrays in *.
  destruct (List.length (IEvent.agenda (fields this1)) =? 0)%nat; [discriminate|].
  destruct (List.length (IEvent.tags (fields this1)) =? 0)%nat; [discriminate|].
  injection H as <-. auto.
Qed.

(** The date block, with the stored date written [Inv.iso_date]. *)
Lemma normalize_date_eq :
  forall host (this : document IEvent.t),
    Event.normalize_date host this
    = if isModified "date" this then
        match JsDate.parse host (IEvent.date (fields this)) with
        | None => Throw Event.InvalidDateFormat
        | Some t =>
            Ok (mkDocument (IEvent.with_date (Inv.iso_date t) (fields this))
                           (isNew this) (modifiedPaths this))
        end
      else Ok this.
Proof. intros host this. unfold Event.normalize_date, Inv.iso_date. reflexivity. Qed.

Lemma date_with_date :
  forall v (e : IEvent.t), IEvent.date (IEvent.with_date v e) = v.
Proof. intros v e. reflexivity. Qed.

Lemma with_date_twice :
  forall u v (e : IEvent.t),
    IEvent.with_date v (IEvent.with_date u e) = IEvent.with_date v e.
Proof. intros u v e. reflexivity. Qed.

(** X6.  Normalizing a date twice is normalizing it once: the date the hook
    stores is in the standard format, every engine reads it back as the same
    day, so the date block leaves a document it has produced as it is and
    cannot fail on it. *)
Theorem normalize_date_idempotent :
  forall host host' (this this1 : document IEvent.t),
    Event.normalize_date host this = Ok this1 ->
    Event.normalize_date host' this1 = Ok this1.
Proof.
  intros host host' this this1 H. rewrite normalize_date_eq in H.
  destruct (isModified "date" this) eqn:Hm.
  - destruct (JsDate.parse host (IEvent.date (fields this))) as [t|] eqn:Ht;
      [|discriminate].
    apply parse_in_range in Ht. injection H as <-.
    rewrite normalize_date_eq. unfold isModified in *. cbn [modifiedPaths fields isNew].
    rewrite Hm, date_with_date, (parse_iso_date host' t Ht).
    rewrite iso_date_utc_midnight, with_date_twice. reflexivity.
  - injection H as <-. rewrite normalize_date_eq, Hm. reflexivity.
Qed.

Lemma normalize_date_idempotent_witness :
  exists this1,
    Event.normalize_date Sample.strict_host
      (Sample.draft "My Event" "2024-03-05T23:30:00-05:00" "14:30") = Ok this1
    /\ IEvent.date (fields this1) = "2024-03-06"
    /\ Event.normalize_date (fun _ => Some 0%Z) this1 = Ok this1.
Proof.
  eexists. split; [vm_compute; reflexivity|]. split; [reflexivity|].
  apply (normalize_date_idempotent Sample.strict_host (fun _ => Some 0%Z)
           (Sample.draft "My Event" "2024-03-05T23:30:00-05:00" "14:30")).
  vm_compute. reflexivity.
Defined.

(** X7.  The date the hook stores is the UTC calendar day of the instant the
    input denotes: when the date is modified and parses to the instant [t],
    the hook stores a date that every engine reads back as the first instant
    of the UTC day of [t]. *)
Theorem stored_date_is_utc_day :
  forall host host' (this : document IEvent.t) t,
    isModified "date" this = true ->
    JsDate.parse host (IEvent.date (fields this)) = Some t ->
    exists this1,
      Event.normalize_date host this = Ok this1
      /\ IEvent.date (fields this1) = Inv.iso_date t
      /\ JsDate.parse host' (IEvent.date (fields this1)) = Some (Inv.utc_midnight t)
      /\ (Inv.utc_midnight t <= t < Inv.utc_midnight t + JsDate.msPerDay)%Z.
Proof.
  intros host host' this t Hm Hp. rewrite normalize_date_eq, Hm, Hp.
  eexists. split; [reflexivity|].
  cbn [fields]. rewrite date_with_date.
  split; [reflexivity|]. split.
  - apply parse_iso_date. now apply parse_in_range in Hp.
  - unfold Inv.utc_midnight, JsDate.msPerDay.
    pose proof (Z.div_mod t 86400000 ltac:(lia)).
    pose proof (Z.mod_pos_bound t 86400000 ltac:(lia)). lia.
Qed.

Lemma stored_date_is_utc_day_witness :
  exists this1,
    Event.normalize_date Sample.strict_host
      (Sample.draft "My Event" "2024-03-05T23:30:00-05:00" "14:30") = Ok this1
    /\ IEvent.date (fields this1) = Inv.iso_date 1709699400000
    /\ JsDate.parse (fun _ => None) (IEvent.date (fields this1))
       = Some (Inv.utc_midnight 1709699400000)
    /\ (Inv.utc_midnight 1709699400000 <= 1709699400000
        < Inv.utc_midnight 1709699400000 + JsDate.msPerDay)%Z.
Proof.
  apply (stored_date_is_utc_day Sample.strict_host (fun _ => None)
           (Sample.draft "My Event" "2024-03-05T23:30:00-05:00" "14:30")
           1709699400000%Z).
  - reflexivity.
  - vm_compute. reflexivity.
Defined.

(** ** What the hook returns *)

Lemma with_slug_date_eta :
  forall e : IEvent.t,
    IEvent.with_date (IEvent.date e) (IEvent.with_slug (IEvent.slug e) e) = e.
Proof. intros []. reflexivity. Qed.

(** A successful hook, read off the document it was given. *)
Lemma pre_save_fields :
  forall host (this : document IEvent.t) e,
    Event.pre_save host this = Ok e ->
    e = IEvent.with_date (IEvent.date e) (IEvent.with_slug (IEvent.slug e) (fields this))
    /\ IEvent.slug e
       = (if isModified "title" this then Event.slugify (IEvent.title (fields this))
          else IEvent.slug (fields this))
    /\ (if isModified "date" this
        then exists t, JsDate.parse host (IEvent.date (fields this)) = Some t
                       /\ IEvent.date e = Inv.iso_date t
        else IEvent.date e = IEvent.date (fields this))
    /\ Inv.time_passes this = true
    /\ Inv.has_agenda this = true
    /\ Inv.has_tags this = true.
Proof.
  intros host this e H. apply pre_save_inv in H.
  destruct H as (this1 & Hd & Ht & Ha & ->).
  rewrite normalize_date_eq, generate_slug_isModified in Hd.
  rewrite (proj1 (proj2 (generate_slug_keeps this))) in Hd.
  assert (Hchecks : Inv.time_passes this = true /\ Inv.has_agenda this = true
                    /\ Inv.has_tags this = true).
  { assert (Hk : modifiedPaths this1 = modifiedPaths this
                 /\ IEvent.time (fields this1) = IEvent.time (fields this)
                 /\ IEvent.agenda (fields this1) = IEvent.agenda (fields this)
                 /\ IEvent.tags (fields this1) = IEvent.tags (fields this)).
    { destruct (generate_slug_keeps this) as (G1 & _ & G2 & G3 & G4).
      destruct (isModified "date" this).
      - destruct (JsDate.parse host _); [|discriminate]. injection Hd as <-.
        cbn [modifiedPaths fields IEvent.with_date IEvent.time IEvent.agenda
             IEvent.tags]. auto.
      - injection Hd as <-. auto. }
    destruct Hk as (K1 & K2 & K3 & K4).
    unfold Event.validate_time, isModified in Ht. unfold Event.validate_arrays in Ha.
    rewrite K1, K2 in Ht. rewrite K3, K4 in Ha.
    unfold Inv.time_passes, Inv.has_agenda, Inv.has_tags, isModified.
    destruct (List.length (IEvent.agenda (fields this)) =? 0)%nat; [discriminate|].
    destruct (List.length (IEvent.tags (fields this)) =? 0)%nat; [discriminate|].
    destruct (existsb (String.eqb "time") (modifiedPaths this)); [|auto].
    destruct (Re.test Event.timeRegex (IEvent.time (fields this)));
      [auto | discriminate]. }
  assert (Hslug : fields (Event.generate_slug this)
                  = IEvent.with_slug
                      (if isModified "title" this
                       then Event.slugify (IEvent.title (fields this))
                       else IEvent.slug (fields this)) (fields this)).
  { unfold Event.generate_slug. destruct (isModified "title" this).
    - cbn [fields]. now rewrite slug_setter_slugify.
    - destruct (fields this). reflexivity. }
  destruct (isModified "date" this).
  - destruct (JsDate.parse host (IEvent.date (fields this))) as [t|]; [|discriminate].
    injection Hd as <-. cbn [fields]. rewrite Hslug.
    destruct (fields this); cbn [IEvent.with_date IEvent.with_slug IEvent.slug
                                 IEvent.date IEvent.title].
    split; [reflexivity|]. split; [reflexivity|]. split; [|exact Hchecks].
    exists t. split; reflexivity.
  - injection Hd as <-. rewrite Hslug.
    destruct (fields this); cbn [IEvent.with_date IEvent.with_slug IEvent.slug
                                 IEvent.date IEvent.title].
    split; [reflexivity|]. split; [reflexivity|]. split; [reflexivity|exact Hchecks].
Qed.

(* ================================================================== *)
(** * Derived slugs and the pattern of the route *)
(* ================================================================== *)

Lemma all_and :
  forall (p q : ascii -> bool) s,
    Str.all p s = true -> Str.all q s = true ->
    Str.all (fun c => p c && q c) s = true.
Proof.
  intros p q s. induction s as [|c s IH]; simpl; intros Hp Hq; [reflexivity|].
  apply andb_true_iff in Hp. apply andb_true_iff in Hq.
  destruct Hp as [-> Hp], Hq as [-> Hq]. now rewrite IH.
Qed.

Lemma all_map :
  forall (p q : ascii -> bool) f s,
    (forall c, p c = true -> q (f c) = true) ->
    Str.all p s = true -> Str.all q (Str.map f s) = true.
Proof.
  intros p q f s Hf. induction s as [|c s IH]; simpl; intros H; [reflexivity|].
  apply andb_true_iff in H. destruct H as [Hc Hs]. now rewrite (Hf c Hc), IH.
Qed.

(** No step of the derivation introduces an underscore. *)
Lemma slugify_no_underscore :
  forall title,
    Str.all (fun c => negb (Char.eq "_" c)) title = true ->
    Str.all (fun c => negb (Char.eq "_" c)) (Event.slugify title) = true.
Proof.
  intros title H. unfold Event.slugify, Str.strip_ends, Str.replace_runs.
  apply all_dropWhileEnd, all_dropWhile.
  apply all_replace_runs with (p := fun c => negb (Char.eq "_" c));
    [auto | reflexivity |].
  apply all_replace_runs with (p := fun c => negb (Char.eq "_" c));
    [auto | reflexivity |].
  apply all_impl
    with (p := fun c => Event.word_space_hyphen c && negb (Char.eq "_" c)).
  { intros c Hc. apply andb_true_iff in Hc. tauto. }
  apply all_remove_outside, all_trim. unfold Str.toLowerCase.
  apply all_map with (p := fun c => negb (Char.eq "_" c)); [|exact H].
  intros c; each_char c.
Qed.

Section SlugPattern.

Import Re.

(** A string of the slug alphabet with single hyphens and none at the end
    splits into a run of letters and digits and a sequence of groups, each a
    hyphen followed by letters and digits. *)
Lemma slug_tail_Lang :
  forall s,
    Str.all Spec.lower_alnum_or_hyphen s = true ->
    Str.includes "--" s = false ->
    Spec.ends_with_hyphen s = false ->
    exists s1 s2,
      s = s1 ++ s2
      /\ Lang (Star (Cls Route.lower_or_digit)) s1
      /\ Lang (Star (Seq (Chr "-") (Plus (Cls Route.lower_or_digit)))) s2
      /\ (forall d, Str.first s = Some d -> Route.lower_or_digit d = true ->
          exists s1', s1 = String d s1' /\ Lang (Star (Cls Route.lower_or_digit)) s1').
Proof.
  assert (Hclass : forall d, Spec.lower_alnum_or_hyphen d = true ->
                             Char.eq "-" d = false -> Route.lower_or_digit d = true)
    by (intros d; each_char d).
  assert (Hhyphen : Route.lower_or_digit "-" = false) by reflexivity.
  induction s as [|c s IH]; intros Ha Hi He.
  - exists "", "". split; [reflexivity|]. split; [constructor|]. split; [constructor|].
    intros d Hd. discriminate.
  - cbn [Str.all] in Ha. apply andb_true_iff in Ha. destruct Ha as [Hc Ha].
    cbn [Str.includes] in Hi. apply orb_false_iff in Hi. destruct Hi as [Hs Hi].
    assert (He' : Spec.ends_with_hyphen s = false).
    { unfold Spec.ends_with_hyphen in *. cbn [Str.last] in He.
      destruct s; [reflexivity | exact He]. }
    destruct (IH Ha Hi He') as (s1 & s2 & E & L1 & L2 & Hfirst).
    destruct (Char.eq "-" c) eqn:Ec.
    + apply Ascii.eqb_eq in Ec. subst c.
      destruct s as [|d s'].
      { unfold Spec.ends_with_hyphen in He. discriminate. }
      assert (Hd : Route.lower_or_digit d = true).
      { cbn [Str.all] in Ha. apply andb_true_iff in Ha. destruct Ha as [Hd _].
        apply Hclass; [exact Hd|].
        cbn [Str.startsWith] in Hs. unfold Char.eq.
        destruct (Ascii.eqb "-" d); [discriminate Hs | reflexivity]. }
      destruct (Hfirst d eq_refl Hd) as (s1' & -> & L1').
      exists "", (String "-" (String d s1') ++ s2).
      split; [cbn [append]; now rewrite E|]. split; [constructor|]. split.
      * constructor; [|exact L2].
        change (String "-" (String d s1')) with (String "-" "" ++ String d s1').
        constructor; [now constructor|].
        change (String d s1') with (String d "" ++ s1').
        constructor; [now constructor | exact L1'].
      * intros d' Hd' Hl. cbn [Str.first] in Hd'. injection Hd' as <-.
        rewrite Hhyphen in Hl. discriminate.
    + pose proof (Hclass c Hc Ec) as Hl.
      exists (String c s1), s2. split; [cbn [append]; now rewrite E|]. split.
      * change (String c s1) with (String c "" ++ s1).
        constructor; [now constructor | exact L1].
      * split; [exact L2|]. intros d Hd _. cbn [Str.first] in Hd.
        injection Hd as <-. exists s1. split; [reflexivity | exact L1].
Qed.

(** The route accepts every non-empty string of the shape the specification
    gives to a slug. *)
Lemma slug_shape_accepted :
  forall s,
    Spec.slug_shape Spec.lower_alnum_or_hyphen s = true -> Str.is_empty s = false ->
    test Route.slugRegex s = true.
Proof.
  assert (Hclass : forall d, Spec.lower_alnum_or_hyphen d = true ->
                             Char.eq "-" d = false -> Route.lower_or_digit d = true)
    by (intros d; each_char d).
  intros s H Hne. unfold Spec.slug_shape in H.
  apply andb_true_iff in H. destruct H as [H He].
  apply andb_true_iff in H. destruct H as [H Hs].
  apply andb_true_iff in H. destruct H as [Ha Hi].
  apply negb_true_iff in He, Hs, Hi.
  destruct (slug_tail_Lang s Ha Hi He) as (s1 & s2 & E & L1 & L2 & Hfirst).
  destruct s as [|c s]; [discriminate|].
  assert (Hc : Route.lower_or_digit c = true).
  { apply Hclass; [|exact Hs]. cbn [Str.all] in Ha. apply andb_true_iff in Ha. tauto. }
  destruct (Hfirst c eq_refl Hc) as (s1' & -> & L1').
  apply test_Lang. rewrite E. unfold Route.slugRegex.
  constructor; [|exact L2].
  change (String c s1') with (String c "" ++ s1').
  constructor; [now constructor | exact L1'].
Qed.

End SlugPattern.

(* ================================================================== *)
(** * Properties of the pre-save hook of Event *)
(* ================================================================== *)

Lemma with_slug_eta :
  forall e : IEvent.t, IEvent.with_slug (IEvent.slug e) e = e.
Proof. intros []. reflexivity. Qed.

Lemma with_date_eta :
  forall e : IEvent.t, IEvent.with_date (IEvent.date e) e = e.
Proof. intros []. reflexivity. Qed.

(** The hook leaves every path but [slug] and [date] alone. *)
Lemma pre_save_other_fields :
  forall host (this : document IEvent.t) e,
    Event.pre_save host this = Ok e ->
    IEvent.title e = IEvent.title (fields this)
    /\ IEvent.time e = IEvent.time (fields this)
    /\ IEvent.agenda e = IEvent.agenda (fields this)
    /\ IEvent.tags e = IEvent.tags (fields this).
Proof.
  intros host this e H. destruct (pre_save_fields _ _ _ H) as (E & _).
  rewrite E. repeat split; reflexivity.
Qed.

(** X1.  The slug a successful hook stores for a document whose title is set
    or modified is derived from the title alone; it is made of lower-case
    letters, digits, underscores and hyphens, its hyphens are single, none is
    at either end, and the setters of the [slug] path leave it as it is. *)
Theorem hook_slug_shape :
  forall host (this : document IEvent.t) e,
    Event.pre_save host this = Ok e ->
    isModified "title" this = true ->
    IEvent.slug e = Event.slugify (IEvent.title e)
    /\ Spec.slug_shape Spec.lower_alnum_underscore_or_hyphen (IEvent.slug e) = true
    /\ Event.slug_setter (IEvent.slug e) = IEvent.slug e.
Proof.
  intros host this e H Hm.
  destruct (pre_save_other_fields _ _ _ H) as (Ht & _).
  destruct (pre_save_fields _ _ _ H) as (_ & Hs & _).
  rewrite Hm in Hs. rewrite Hs, Ht.
  split; [reflexivity|]. split; [apply slugify_shape | apply slug_setter_slugify].
Qed.

Lemma hook_slug_shape_witness :
  exists e,
    Event.pre_save Sample.strict_host
      (Sample.draft "  Hello,  World -- 2024!  " "2024-03-05" "14:30") = Ok e
    /\ IEvent.slug e = "hello-world-2024"
    /\ IEvent.slug e = Event.slugify (IEvent.title e)
    /\ Spec.slug_shape Spec.lower_alnum_underscore_or_hyphen (IEvent.slug e) = true
    /\ Event.slug_setter (IEvent.slug e) = IEvent.slug e.
Proof.
  eexists. split; [vm_compute; reflexivity|]. split; [reflexivity|].
  apply (hook_slug_shape Sample.strict_host
           (Sample.draft "  Hello,  World -- 2024!  " "2024-03-05" "14:30")).
  - vm_compute. reflexivity.
  - reflexivity.
Defined.

(** X2.  A slug derived from a title without underscore has the shape the
    specification gives to a slug and, unless it is empty, is accepted by the
    pattern of the GET route: such an event can be fetched by its slug. *)
Theorem derived_slug_fetchable :
  forall title,
    Str.all (fun c => negb (Char.eq "_" c)) title = true ->
    Spec.slug_shape Spec.lower_alnum_or_hyphen (Event.slugify title) = true
    /\ (Str.is_empty (Event.slugify title) = false ->
        Re.test Route.slugRegex (Event.slugify title) = true).
Proof.
  intros title Hu.
  assert (Hshape : Spec.slug_shape Spec.lower_alnum_or_hyphen (Event.slugify title)
                   = true).
  { pose proof (slugify_shape title) as H. unfold Spec.slug_shape in *.
    apply andb_true_iff in H. destruct H as [H He].
    apply andb_true_iff in H. destruct H as [H Hs].
    apply andb_true_iff in H. destruct H as [Ha Hi].
    rewrite He, Hs, Hi.
    pose proof (all_and _ _ _ Ha (slugify_no_underscore title Hu)) as Hb.
    assert (Hc : forall c,
               Spec.lower_alnum_underscore_or_hyphen c && negb (Char.eq "_" c) = true ->
               Spec.lower_alnum_or_hyphen c = true)
      by (intros c; each_char c).
    rewrite (all_impl _ Spec.lower_alnum_or_hyphen _ Hc Hb).
    reflexivity. }
  split; [exact Hshape|]. intros Hne. now apply slug_shape_accepted.
Qed.

Lemma derived_slug_fetchable_witness :
  Event.slugify "  Hello,  World -- 2024!  " = "hello-world-2024"
  /\ Spec.slug_shape Spec.lower_alnum_or_hyphen
       (Event.slugify "  Hello,  World -- 2024!  ") = true
  /\ (Str.is_empty (Event.slugify "  Hello,  World -- 2024!  ") = false ->
      Re.test Route.slugRegex (Event.slugify "  Hello,  World -- 2024!  ") = true).
Proof.
  split; [reflexivity|].
  apply (derived_slug_fetchable "  Hello,  World -- 2024!  "). reflexivity.
Defined.

(** The outcome of the hook, read off the four checks. *)
Lemma hook_checks :
  forall host (this : document IEvent.t),
    match Event.pre_save host this with
    | Ok _ =>
        Inv.date_passes host this = true /\ Inv.time_passes this = true
        /\ Inv.has_agenda this = true /\ Inv.has_tags this = true
    | Throw err =>
        err = (if negb (Inv.date_passes host this) then Event.InvalidDateFormat
               else if negb (Inv.time_passes this) then Event.InvalidTimeFormat
               else if negb (Inv.has_agenda this) then Event.EmptyAgenda
               else Event.EmptyTags)
        /\ Inv.date_passes host this && Inv.time_passes this
           && Inv.has_agenda this && Inv.has_tags this = false
    end.
Proof.
  intros host this.
  destruct (Event.pre_save host this) as [e|err] eqn:H.
  - destruct (pre_save_fields _ _ _ H) as (_ & _ & Hd & Ht & Ha & Hg).
    split; [|auto]. unfold Inv.date_passes.
    destruct (isModified "date" this); [|reflexivity].
    destruct Hd as (t & -> & _). reflexivity.
  - unfold Inv.date_passes, Inv.time_passes, Inv.has_agenda, Inv.has_tags.
    unfold Event.pre_save in H. rewrite normalize_date_eq in H.
    rewrite generate_slug_isModified in H.
    destruct (generate_slug_keeps this) as (G1 & G2 & G3 & G4 & G5).
    rewrite G2 in H.
    assert (Hrest :
      forall this1 : document IEvent.t,
        modifiedPaths this1 = modifiedPaths this ->
        IEvent.time (fields this1) = IEvent.time (fields this) ->
        IEvent.agenda (fields this1) = IEvent.agenda (fields this) ->
        IEvent.tags (fields this1) = IEvent.tags (fields this) ->
        match Event.validate_time this1 with
        | Throw e => Throw e
        | Ok this2 =>
            match Event.validate_arrays this2 with
            | Throw e => Throw e
            | Ok this3 => Ok (fields this3)
            end
        end = Throw err ->
        err = (if negb (negb (isModified "time" this)
                        || Re.test Event.timeRegex (IEvent.time (fields this)))
               then Event.InvalidTimeFormat
               else if negb (negb (List.length (IEvent.agenda (fields this)) =? 0)%nat)
               then Event.EmptyAgenda else Event.EmptyTags)
        /\ (negb (isModified "time" this)
            || Re.test Event.timeRegex (IEvent.time (fields this)))
           && negb (List.length (IEvent.agenda (fields this)) =? 0)%nat
           && negb (List.length (IEvent.tags (fields this)) =? 0)%nat = false).
    { intros this1 K1 K2 K3 K4. unfold Event.validate_time, Event.validate_arrays.
      unfold isModified. rewrite K1, K2.
      destruct (existsb (String.eqb "time") (modifiedPaths this));
        destruct (Re.test Event.timeRegex (IEvent.time (fields this)));
        cbn [andb negb orb]; rewrite ?K3, ?K4;
        destruct (List.length (IEvent.agenda (fields this)) =? 0)%nat;
        destruct (List.length (IEvent.tags (fields this)) =? 0)%nat;
        cbn [andb negb orb]; intros E; try discriminate E;
        injection E as <-; split; reflexivity. }
    destruct (isModified "date" this); cbn [negb orb].
    + destruct (JsDate.parse host (IEvent.date (fields this))) as [t|];
        cbn [Inv.is_some negb andb].
      * apply Hrest in H; auto.
      * injection H as <-. split; reflexivity.
    + apply Hrest in H; auto.
Qed.

(** X3.  The hook succeeds exactly when the four checks pass on the document
    it is given (the date parses, the time matches, neither array is empty,
    the first two only for a modified path), and otherwise throws the error
    of the first check that fails, in the order date, time, agenda, tags: the
    slug and the date it rewrites on the way do not change the later
    checks. *)
Theorem hook_outcome :
  forall host (this : document IEvent.t),
    ((exists e, Event.pre_save host this = Ok e)
     <-> Inv.date_passes host this && Inv.time_passes this
         && Inv.has_agenda this && Inv.has_tags this = true)
    /\ (forall err,
          Event.pre_save host this = Throw err ->
          err = (if negb (Inv.date_passes host this) then Event.InvalidDateFormat
                 else if negb (Inv.time_passes this) then Event.InvalidTimeFormat
                 else if negb (Inv.has_agenda this) then Event.EmptyAgenda
                 else Event.EmptyTags)).
Proof.
  intros host this. pose proof (hook_checks host this) as H.
  destruct (Event.pre_save host this) as [e|err].
  - destruct H as (-> & -> & -> & ->). split; [|discriminate].
    split; [reflexivity | eauto].
  - destruct H as [-> Hf]. rewrite Hf. split.
    + split; [intros [e He]; discriminate He | discriminate].
    + intros err E. now injection E as <-.
Qed.


(** X4.  Of the paths of an Event, a successful hook changes [slug] and
    [date] at most, and each of the two only when the path it is computed
    from ([title], [date]) is set or modified. *)
Theorem hook_changes_slug_and_date :
  forall host (this : document IEvent.t) e,
    Event.pre_save host this = Ok e ->
    (IEvent._id e = IEvent._id (fields this)
     /\ IEvent.title e = IEvent.title (fields this)
     /\ IEvent.description e = IEvent.description (fields this)
     /\ IEvent.overview e = IEvent.overview (fields this)
     /\ IEvent.image e = IEvent.image (fields this)
     /\ IEvent.venue e = IEvent.venue (fields this)
     /\ IEvent.location e = IEvent.location (fields this)
     /\ IEvent.time e = IEvent.time (fields this)
     /\ IEvent.mode e = IEvent.mode (fields this)
     /\ IEvent.audience e = IEvent.audience (fields this)
     /\ IEvent.agenda e = IEvent.agenda (fields this)
     /\ IEvent.organizer e = IEvent.organizer (fields this)
     /\ IEvent.tags e = IEvent.tags (fields this)
     /\ IEvent.createdAt e = IEvent.createdAt (fields this)
     /\ IEvent.updatedAt e = IEvent.updatedAt (fields this))
    /\ (isModified "title" this = false -> IEvent.slug e = IEvent.slug (fields this))
    /\ (isModified "date" this = false -> IEvent.date e = IEvent.date (fields this)).
Proof.
  intros host this e H. destruct (pre_save_fields _ _ _ H) as (E & Hs & Hd & _).
  split; [rewrite E; repeat split; reflexivity|]. split.
  - intros Hm. now rewrite Hm in Hs.
  - intros Hm. now rewrite Hm in Hd.
Qed.

Lemma hook_changes_slug_and_date_witness :
  exists e,
    Event.pre_save Sample.strict_host
      (mkDocument Sample.conf false ["time"; "date"]) = Ok e
    /\ IEvent.title e = "My Event" /\ IEvent.tags e = ["ai"; "infra"]
    /\ IEvent.slug e = "my-event".
Proof.
  eexists. split; [vm_compute; reflexivity|].
  pose proof (hook_changes_slug_and_date Sample.strict_host
                (mkDocument Sample.conf false ["time"; "date"]) _ eq_refl) as H.
  destruct H as ((_ & Ht & _ & _ & _ & _ & _ & _ & _ & _ & _ & _ & Hg & _) & Hs & _).
  split; [exact Ht|]. split; [exact Hg|]. exact (Hs eq_refl).
Defined.

(** X5.  The hook is idempotent: the fields it returns pass it again
    unchanged, under any date parser, whatever subset of the paths is still
    marked as modified in the second save. *)
Theorem hook_idempotent :
  forall host host' (this that : document IEvent.t) e,
    Event.pre_save host this = Ok e ->
    fields that = e ->
    (forall path, isModified path that = true -> isModified path this = true) ->
    Event.pre_save host' that = Ok e.
Proof.
  intros host host' this that e H Hf Hsub.
  destruct (pre_save_fields _ _ _ H) as (_ & Hs & Hd & Ht & Ha & Hg).
  destruct (pre_save_other_fields _ _ _ H) as (Kt & Km & Ka & Kg).
  destruct that as [f n p]. cbn [fields] in Hf. subst f.
  assert (G : Event.generate_slug (mkDocument e n p) = mkDocument e n p).
  { unfold Event.generate_slug.
    destruct (isModified "title" (mkDocument e n p)) eqn:M; [|reflexivity].
    rewrite (Hsub _ M) in Hs. cbn [fields isNew modifiedPaths].
    assert (Hfix : Event.slug_setter (IEvent.slug e) = IEvent.slug e)
      by (rewrite Hs; apply slug_setter_slugify).
    rewrite Kt, <- Hs. now rewrite Hfix, with_slug_eta. }
  assert (D : Event.normalize_date host' (mkDocument e n p) = Ok (mkDocument e n p)).
  { rewrite normalize_date_eq.
    destruct (isModified "date" (mkDocument e n p)) eqn:M; [|reflexivity].
    rewrite (Hsub _ M) in Hd. destruct Hd as (t & Hp & Hdate).
    cbn [fields isNew modifiedPaths]. rewrite Hdate.
    rewrite (parse_iso_date host' t (parse_in_range _ _ _ Hp)).
    rewrite iso_date_utc_midnight, <- Hdate, with_date_eta. reflexivity. }
  unfold Event.pre_save. rewrite G, D.
  unfold Event.validate_time.
  assert (T : isModified "time" (mkDocument e n p)
              && negb (Re.test Event.timeRegex (IEvent.time (fields (mkDocument e n p))))
              = false).
  { destruct (isModified "time" (mkDocument e n p)) eqn:M; [|reflexivity].
    unfold Inv.time_passes in Ht. rewrite (Hsub _ M) in Ht.
    cbn [fields negb orb andb] in *. rewrite Km, Ht. reflexivity. }
  rewrite T. unfold Event.validate_arrays. cbn [fields].
  unfold Inv.has_agenda in Ha. unfold Inv.has_tags in Hg.
  rewrite Ka, Kg. apply negb_true_iff in Ha, Hg. rewrite Ha, Hg. reflexivity.
Qed.

Lemma hook_idempotent_witness :
  exists e,
    Event.pre_save Sample.strict_host
      (Sample.draft "My Event" "2024-03-05T23:30:00-05:00" "9:30") = Ok e
    /\ IEvent.date e = "2024-03-06"
    /\ Event.pre_save (fun _ => Some 0%Z) (mkDocument e false ["date"; "title"]) = Ok e.
Proof.
  eexists. split; [vm_compute; reflexivity|]. split; [reflexivity|].
  apply (hook_idempotent Sample.strict_host (fun _ => Some 0%Z)
           (Sample.draft "My Event" "2024-03-05T23:30:00-05:00" "9:30")).
  - vm_compute. reflexivity.
  - reflexivity.
  - intros path. unfold isModified. cbn [modifiedPaths Sample.draft existsb].
    intros Hp. apply orb_true_iff in Hp. destruct Hp as [Hp|Hp].
    + rewrite Hp. now rewrite !orb_true_r.
    + apply orb_true_iff in Hp. destruct Hp as [Hp|Hp]; [|discriminate].
      now rewrite Hp.
Defined.

(* ================================================================== *)
(** * Properties of the Booking model *)
(* ================================================================== *)

Lemma validate_inv :
  forall e w u w',
    Booking.validate e w = (Ok u, w') -> Re.test Booking.emailRegex e = true /\ w' = w.
Proof.
  intros e w u w'. unfold Booking.validate, throw, ret.
  destruct (Str.is_empty e); [discriminate|].
  destruct (Re.test Booking.emailRegex e); [|discriminate].
  intros H. injection H as _ <-. auto.
Qed.

Lemma insertOne_guard :
  forall b w b' w',
    Booking.insertOne b w = (Ok b', w') ->
    Spec.booked (IBooking.eventId b) (IBooking.email b) w = false.
Proof.
  intros b w b' w' H. unfold Booking.insertOne in H.
  apply bind_inv in H. destruct H as [(a & w1 & Hq & Hk)|(e & _ & E)];
    [|discriminate E].
  apply round_trip_frame in Hq. subst w1. cbn [bookings answered] in Hk.
  unfold Spec.booked. destruct (existsb _ _); [discriminate Hk | reflexivity].
Qed.

(** A [create] that returns has validated the address after the setters and
    passed the unique index; the document is the one built from the world it
    started in. *)
Lemma create_checked :
  forall id e w b w',
    Booking.create id e w = (Ok b, w') ->
    Re.test Booking.emailRegex (Booking.email_setter e) = true
    /\ Spec.booked id (Booking.email_setter e) w = false
    /\ b = Spec.booking_of w id (Booking.email_setter e).
Proof.
  intros id e w b w' H. unfold Booking.create in H.
  apply bind_inv in H. destruct H as [(this & w1 & Hn & H)|(err & Hn & _)];
    [|discriminate Hn].
  injection Hn as <- <-.
  apply bind_inv in H. destruct H as [(u & w2 & Hv & H)|(err & _ & E)];
    [|discriminate E].
  apply validate_inv in Hv. destruct Hv as [Hre ->].
  apply bind_inv in H. destruct H as [(u' & w3 & Hp & H)|(err & _ & E)];
    [|discriminate E].
  apply pre_save_frame in Hp. destruct Hp as (Hpb & _ & _).
  pose proof (insertOne_guard _ _ _ _ H) as Hg.
  apply insertOne_inv in H. destruct H as (_ & -> & _).
  cbn [fields IBooking.email IBooking.eventId] in *.
  split; [exact Hre|]. split; [|reflexivity].
  unfold Spec.booked in *. now rewrite Hpb in Hg.
Qed.

(** An address that matches the pattern after the setters is a fixed point
    of the setters. *)
Lemma email_setter_fixed :
  forall e,
    Re.test Booking.emailRegex (Booking.email_setter e) = true ->
    Booking.email_setter (Booking.email_setter e) = Booking.email_setter e.
Proof.
  intros e H. apply email_no_space in H. unfold Booking.email_setter in *.
  assert (Hl : Str.toLowerCase (Str.trim (Str.toLowerCase e))
               = Str.trim (Str.toLowerCase e)).
  { rewrite (trim_toLowerCase e). apply toLowerCase_idempotent. }
  rewrite Hl. now apply trim_fixed.
Qed.

Lemma find_app_last :
  forall A (p : A -> bool) l x,
    existsb p l = false -> p x = true -> find p (l ++ [x])%list = Some x.
Proof.
  intros A p l x Hl Hx. induction l as [|a l IH]; simpl in *.
  - now rewrite Hx.
  - apply orb_false_iff in Hl. destruct Hl as [Ha Hl]. rewrite Ha. auto.
Qed.

Lemma booked_key :
  forall id e w,
    Spec.booked id e w = false -> ~ In (id, e) (List.map Inv.key (bookings w)).
Proof.
  intros id e w H Hin. apply in_map_iff in Hin. destruct Hin as (b & Hk & Hin).
  unfold Spec.booked in H.
  assert (Ht : existsb (Booking.same_key id e) (bookings w) = true).
  { apply existsb_exists. exists b. split; [exact Hin|].
    unfold Inv.key in Hk. injection Hk as <- <-. unfold Booking.same_key.
    unfold ObjectId.eqb. now rewrite N.eqb_refl, String.eqb_refl. }
  congruence.
Qed.

Lemma NoDup_snoc :
  forall A (l : list A) x, NoDup l -> ~ In x l -> NoDup (l ++ [x])%list.
Proof.
  intros A l x Hl Hx. induction Hl as [|a l Ha Hl IH]; simpl.
  - constructor; [auto | constructor].
  - constructor.
    + intros Hin. apply in_app_or in Hin. destruct Hin as [Hin|[->|[]]].
      * contradiction.
      * apply Hx. now left.
    + apply IH. intros Hin. apply Hx. now right.
Qed.

(** The three invariants of the Booking collection survive the append of a
    document that references a stored Event, is not booked yet and carries a
    validated address. *)
Lemma append_keeps_invariants :
  forall w w' b,
    events w' = events w -> bookings w' = (bookings w ++ [b])%list ->
    Spec.event_exists (IBooking.eventId b) w = true ->
    Spec.booked (IBooking.eventId b) (IBooking.email b) w = false ->
    Re.test Booking.emailRegex (IBooking.email b) = true ->
    Booking.email_setter (IBooking.email b) = IBooking.email b ->
    (Inv.unique_bookings w -> Inv.unique_bookings w')
    /\ (Inv.stored_emails_normal w -> Inv.stored_emails_normal w')
    /\ (Spec.referential_integrity w -> Spec.referential_integrity w').
Proof.
  intros w w' b He Hb Hex Hnb Hre Hfix. split; [|split].
  - unfold Inv.unique_bookings. rewrite Hb, map_app. cbn [List.map].
    intros H. apply NoDup_snoc; [exact H|]. now apply booked_key.
  - unfold Inv.stored_emails_normal. rewrite Hb. intros H b' Hin.
    apply in_app_or in Hin. destruct Hin as [Hin|[<-|[]]]; auto.
  - unfold Spec.referential_integrity, Spec.event_exists. rewrite Hb, He.
    intros H b' Hin. apply in_app_or in Hin. destruct Hin as [Hin|[<-|[]]].
    + exact (H b' Hin).
    + exact Hex.
Qed.

Lemma same_collections_invariants :
  forall w w',
    events w' = events w -> bookings w' = bookings w ->
    (Inv.unique_bookings w -> Inv.unique_bookings w')
    /\ (Inv.stored_emails_normal w -> Inv.stored_emails_normal w')
    /\ (Spec.referential_integrity w -> Spec.referential_integrity w').
Proof.
  intros w w' He Hb.
  unfold Inv.unique_bookings, Inv.stored_emails_normal, Spec.referential_integrity,
    Spec.event_exists.
  rewrite Hb, He. auto.
Qed.

(** X8.  A Booking that [Booking.create] has returned is what
    [Booking.findOne] finds for the same event and any spelling of the
    address that the setters of the schema map to the same stored address,
    as soon as the store answers. *)
Theorem created_booking_is_found :
  forall id e e' w b w',
    Booking.create id e w = (Ok b, w') ->
    Booking.email_setter e' = Booking.email_setter e ->
    hd None (faults w') = None ->
    fst (Booking.findOne id e' w') = Ok (Some b).
Proof.
  intros id e e' w b w' H He Hf.
  destruct (create_checked _ _ _ _ _ H) as (_ & Hnb & _).
  apply create_inv in H. destruct H as (_ & Hid & Hmail & Hb & _).
  rewrite (findOne_ok id e' w' Hf). cbn [fst]. rewrite Hb, He. f_equal.
  apply find_app_last; [exact Hnb|].
  unfold Booking.same_key, ObjectId.eqb.
  now rewrite Hid, Hmail, N.eqb_refl, String.eqb_refl.
Qed.

Lemma created_booking_is_found_witness :
  exists b w',
    Booking.create (ObjectId.ofString Sample.conf_id) "  Ann@Example.com " Sample.world
    = (Ok b, w')
    /\ IBooking.email b = "ann@example.com"
    /\ fst (Booking.findOne (ObjectId.ofString Sample.conf_id) "ANN@EXAMPLE.COM" w')
       = Ok (Some b).
Proof.
  eexists. eexists. split; [vm_compute; reflexivity|]. split; [reflexivity|].
  apply (created_booking_is_found (ObjectId.ofString Sample.conf_id)
           "  Ann@Example.com " "ANN@EXAMPLE.COM" Sample.world).
  - vm_compute. reflexivity.
  - reflexivity.
  - reflexivity.
Defined.

(** X9.  Whatever it is given and whatever the store does, [Booking.create]
    keeps the three invariants of the Booking collection: no two Bookings
    with the same event and address (the unique compound index), every stored
    address valid and in the form the setters produce (the [validate],
    [trim] and [lowercase] options), every Booking attached to a stored Event
    (the pre-save hook). *)
Theorem create_keeps_invariants :
  forall id e w,
    Inv.unique_bookings w -> Inv.stored_emails_normal w ->
    Spec.referential_integrity w ->
    Inv.unique_bookings (snd (Booking.create id e w))
    /\ Inv.stored_emails_normal (snd (Booking.create id e w))
    /\ Spec.referential_integrity (snd (Booking.create id e w)).
Proof.
  intros id e w Hu Hn Hr.
  destruct (Booking.create id e w) as [[b|err] w'] eqn:H; cbn [snd].
  - destruct (create_checked _ _ _ _ _ H) as (Hre & Hnb & _).
    apply create_inv in H. destruct H as (He & Hid & Hmail & Hb & Hex).
    destruct (append_keeps_invariants w w' b He Hb) as (I1 & I2 & I3).
    + now rewrite Hid.
    + now rewrite Hid, Hmail.
    + now rewrite Hmail.
    + rewrite Hmail. now apply email_setter_fixed.
    + auto.
  - apply create_inv in H. destruct H as (He & Hb).
    destruct (same_collections_invariants w w' He Hb) as (I1 & I2 & I3). auto.
Qed.

Lemma create_keeps_invariants_witness :
  Inv.unique_bookings
    (snd (Booking.create (ObjectId.ofString Sample.conf_id) "Ann@Example.com"
            Sample.world))
  /\ Inv.stored_emails_normal
       (snd (Booking.create (ObjectId.ofString Sample.conf_id) "Ann@Example.com"
               Sample.world))
  /\ Spec.referential_integrity
       (snd (Booking.create (ObjectId.ofString Sample.conf_id) "Ann@Example.com"
               Sample.world)).
Proof.
  apply (create_keeps_invariants (ObjectId.ofString Sample.conf_id) "Ann@Example.com"
           Sample.world).
  - constructor.
  - intros b Hin. destruct Hin.
  - intros b Hin. destruct Hin.
Defined.

(* ================================================================== *)
(** * Properties of createBooking *)
(* ================================================================== *)

(** ** Identifiers written and read *)

Lemma digit_value_spec :
  forall c, Char.hex c = true ->
    (ObjectId.digit_value c < 16)%N
    /\ ObjectId.digit_char (ObjectId.digit_value c) = Char.toLower c.
Proof. intros c; each_char c. Qed.

Lemma hex_digits_parse_hex :
  forall s j acc rest,
    Str.all Char.hex s = true ->
    ObjectId.hex_digits (String.length s + j) (ObjectId.parse_hex acc s) rest
    = ObjectId.hex_digits j acc (Str.toLowerCase s ++ rest).
Proof.
  induction s as [|c s IH]; intros j acc rest H; [reflexivity|].
  cbn [Str.all] in H. apply andb_true_iff in H. destruct H as [Hc Hs].
  destruct (digit_value_spec c Hc) as [Hlt Hd].
  cbn [String.length ObjectId.parse_hex].
  replace (S (String.length s) + j)%nat with (String.length s + S j)%nat by lia.
  rewrite (IH (S j) _ rest Hs). cbn [ObjectId.hex_digits].
  assert (Hq : ((16 * acc + ObjectId.digit_value c) / 16 = acc)%N).
  { symmetry. apply N.div_unique with (r := ObjectId.digit_value c); [exact Hlt|].
    reflexivity. }
  assert (Hr : ((16 * acc + ObjectId.digit_value c) mod 16 = ObjectId.digit_value c)%N).
  { symmetry. apply N.mod_unique with (q := acc); [exact Hlt | reflexivity]. }
  rewrite Hq, Hr, Hd. reflexivity.
Qed.

(** Writing the identifier read from 24 hexadecimal digits gives the digits
    back, in lower case. *)
Lemma toString_ofString :
  forall s, ObjectId.isValid s = true ->
            ObjectId.toString (ObjectId.ofString s) = Str.toLowerCase s.
Proof.
  intros s H. unfold ObjectId.isValid in H. apply andb_true_iff in H.
  destruct H as [Hl Hh]. apply Nat.eqb_eq in Hl.
  unfold ObjectId.toString, ObjectId.ofString.
  replace 24%nat with (String.length s + 0)%nat by lia.
  rewrite (hex_digits_parse_hex s 0 0%N "" Hh). cbn [ObjectId.hex_digits].
  apply append_nil_r.
Qed.

(** ** The answer and the effect *)

(** [createBooking] returns; it never touches the Events; it either fails and
    leaves the Bookings alone, or reports the Booking it has appended, built
    from the checked input. *)
Lemma createBooking_effect :
  forall eventId email w,
    exists r w',
      BookingActions.createBooking eventId email w = (Ok r, w')
      /\ events w' = events w
      /\ ((BookingActions.success r = false /\ BookingActions.data r = None
           /\ bookings w' = bookings w)
          \/ (ObjectId.isValid eventId = true
              /\ Re.test Booking.emailRegex email = true
              /\ Spec.event_exists (ObjectId.ofString eventId) w = true
              /\ Spec.booked (ObjectId.ofString eventId) (Str.toLowerCase email) w = false
              /\ r = BookingActions.Created
                       (Spec.booking_of w (ObjectId.ofString eventId)
                                        (Str.toLowerCase email))
              /\ bookings w'
                 = (bookings w ++ [Spec.booking_of w (ObjectId.ofString eventId)
                                                   (Str.toLowerCase email)])%list)).
Proof.
  intros eventId email w.
  assert (Herr : forall err, BookingActions.data (BookingActions.on_error err) = None).
  { intros [msg|]; [|reflexivity]. unfold BookingActions.on_error.
    destruct (Str.includes "duplicate key" msg); [reflexivity|].
    destruct (Str.includes "does not exist" msg); [reflexivity|].
    destruct (Str.includes "validation failed" msg); reflexivity. }
  unfold BookingActions.createBooking, try_catch, BookingActions.createBooking_try.
  destruct (Str.is_empty eventId || Str.is_empty (Str.trim eventId));
    [unfold ret; eauto 8|].
  destruct (Str.is_empty email || Str.is_empty (Str.trim email));
    [unfold ret; eauto 8|].
  destruct (Re.test Booking.emailRegex email) eqn:Hem; cbn [negb];
    [|unfold ret; eauto 8].
  destruct (ObjectId.isValid eventId) eqn:Hid; cbn [negb]; [|unfold ret; eauto 8].
  destruct (email_normal_form email Hem) as [Ht Hset].
  destruct (BookingActions.createBooking_store eventId email w) as [o w'] eqn:H.
  unfold BookingActions.createBooking_store, connectDB in H.
  apply bind_inv in H. destruct H as [(u & w1 & Hc & H)|(e & Hc & ->)].
  2:{ apply round_trip_frame in Hc. subst w'. unfold ret.
      do 2 eexists. split; [reflexivity|]. split; [reflexivity|]. left.
      split; [apply on_error_rejects|]. split; [apply Herr | reflexivity]. }
  apply round_trip_frame in Hc. subst w1.
  apply bind_inv in H. destruct H as [(ex & w2 & Hq & H)|(e & Hq & ->)].
  2:{ apply query_frame in Hq. subst w'. unfold ret.
      do 2 eexists. split; [reflexivity|]. split; [reflexivity|]. left.
      split; [apply on_error_rejects|]. split; [apply Herr | reflexivity]. }
  apply query_frame in Hq. subst w2.
  destruct ex as [found|].
  { injection H as <- <-. unfold ret. do 2 eexists. split; [reflexivity|].
    split; [reflexivity|]. left. repeat split. }
  apply bind_inv in H. destruct H as [(b & w3 & Hcr & H)|(e & Hcr & ->)].
  - injection H as <- <-.
    destruct (create_checked _ _ _ _ _ Hcr) as (_ & Hnb & Hb).
    apply create_inv in Hcr. destruct Hcr as (He & _ & _ & Hbk & Hex).
    rewrite Hset in Hnb, Hb.
    unfold ret. do 2 eexists. split; [reflexivity|]. split; [exact He|]. right.
    split; [reflexivity|]. split; [reflexivity|]. split; [exact Hex|].
    split; [exact Hnb|]. rewrite Hbk, Hb. split; reflexivity.
  - apply create_inv in Hcr. destruct Hcr as [He Hb].
    unfold ret. do 2 eexists. split; [reflexivity|]. split; [exact He|]. left.
    split; [apply on_error_rejects|]. split; [apply Herr | exact Hb].
Qed.

Lemma answers_le :
  forall m n w, (m <= n)%nat -> Spec.answers n w -> Spec.answers m w.
Proof. unfold Spec.answers. intros m n w Hmn H i Hi. apply H. lia. Qed.

(** X10.  [createBooking] always returns a response and never touches the
    Events; the response reports success exactly when one Booking has been
    appended, for the event read from [eventId] and the lower-cased address,
    and a failure carries no data and leaves the Bookings as they were,
    whatever the store does. *)
Theorem createBooking_success_iff_stored :
  forall eventId email w,
    exists r w',
      BookingActions.createBooking eventId email w = (Ok r, w')
      /\ events w' = events w
      /\ if BookingActions.success r
         then exists b,
                r = BookingActions.Created b
                /\ bookings w' = (bookings w ++ [b])%list
                /\ IBooking.eventId b = ObjectId.ofString eventId
                /\ IBooking.email b = Str.toLowerCase email
         else BookingActions.data r = None /\ bookings w' = bookings w.
Proof.
  intros eventId email w.
  destruct (createBooking_effect eventId email w) as (r & w' & H & He & Hcases).
  exists r, w'. split; [exact H|]. split; [exact He|].
  destruct Hcases as [(Hs & Hd & Hb)|(_ & _ & _ & _ & Hr & Hb)].
  - rewrite Hs. auto.
  - rewrite Hr. cbn [BookingActions.success BookingActions.Created].
    eexists. split; [reflexivity|]. split; [exact Hb|]. split; reflexivity.
Qed.

(** X11.  [createBooking] keeps the three invariants of the Booking
    collection (unique pairs of event and address, stored addresses valid and
    normalized, every Booking attached to a stored Event) on every input and
    whatever the store does. *)
Theorem createBooking_keeps_invariants :
  forall eventId email w,
    Inv.unique_bookings w -> Inv.stored_emails_normal w ->
    Spec.referential_integrity w ->
    Inv.unique_bookings (snd (BookingActions.createBooking eventId email w))
    /\ Inv.stored_emails_normal (snd (BookingActions.createBooking eventId email w))
    /\ Spec.referential_integrity (snd (BookingActions.createBooking eventId email w)).
Proof.
  intros eventId email w Hu Hn Hr.
  destruct (createBooking_effect eventId email w) as (r & w' & -> & He & Hcases).
  cbn [snd].
  destruct Hcases as [(_ & _ & Hb)|(_ & Hem & Hex & Hnb & _ & Hb)].
  - destruct (same_collections_invariants w w' He Hb) as (I1 & I2 & I3). auto.
  - destruct (append_keeps_invariants w w' _ He Hb) as (I1 & I2 & I3);
      cbn [Spec.booking_of IBooking.eventId IBooking.email]; auto.
    + now apply email_toLowerCase.
    + destruct (email_normal_form email Hem) as [Ht Hset].
      now rewrite <- Ht at 1.
Qed.

Lemma createBooking_keeps_invariants_witness :
  Inv.unique_bookings
    (snd (BookingActions.createBooking Sample.conf_id "Ann@Example.com" Sample.world))
  /\ Inv.stored_emails_normal
       (snd (BookingActions.createBooking Sample.conf_id "Ann@Example.com" Sample.world))
  /\ Spec.referential_integrity
       (snd (BookingActions.createBooking Sample.conf_id "Ann@Example.com" Sample.world)).
Proof.
  apply (createBooking_keeps_invariants Sample.conf_id "Ann@Example.com" Sample.world).
  - constructor.
  - intros b Hin. destruct Hin.
  - intros b Hin. destruct Hin.
Defined.

(** X12.  On a store that answers four round trips, a checked input has one
    of three answers, decided by the collections alone: AlreadyBooked when a
    Booking for the event and the lower-cased address is stored, otherwise
    the new Booking when the Event is stored, otherwise EventNotFound. *)
Theorem createBooking_on_answering_store :
  forall eventId email w,
    Spec.answers 4 w ->
    ObjectId.isValid eventId = true -> Re.test Booking.emailRegex email = true ->
    fst (BookingActions.createBooking eventId email w)
    = Ok (if Spec.booked (ObjectId.ofString eventId) (Str.toLowerCase email) w
          then BookingActions.AlreadyBooked
          else if Spec.event_exists (ObjectId.ofString eventId) w
          then BookingActions.Created
                 (Spec.booking_of w (ObjectId.ofString eventId) (Str.toLowerCase email))
          else BookingActions.EventNotFound).
Proof.
  intros eventId email w Ha Hid Hem.
  destruct (Spec.booked (ObjectId.ofString eventId) (Str.toLowerCase email) w) eqn:Hb.
  - rewrite (createBooking_duplicate eventId email w
               (answers_le 2 4 w ltac:(lia) Ha) Hid Hem Hb). reflexivity.
  - destruct (Spec.event_exists (ObjectId.ofString eventId) w) eqn:Hex.
    + pose proof (createBooking_fresh eventId email w Ha Hid Hem Hex Hb) as H.
      cbv zeta in H. rewrite H. reflexivity.
    + rewrite (createBooking_missing_event eventId email w
                 (answers_le 3 4 w ltac:(lia) Ha) Hid Hem Hex Hb). reflexivity.
Qed.

Lemma createBooking_on_answering_store_witness :
  fst (BookingActions.createBooking Sample.conf_id "Ann@Example.com" Sample.world)
  = Ok (BookingActions.Created
          (Spec.booking_of Sample.world (ObjectId.ofString Sample.conf_id)
                           "ann@example.com")).
Proof.
  apply (createBooking_on_answering_store Sample.conf_id "Ann@Example.com" Sample.world).
  - intros i Hi. destruct i as [|[|[|[|i]]]]; reflexivity.
  - reflexivity.
  - reflexivity.
Defined.

(** X13.  When the connection or the duplicate check fails, [createBooking]
    does not throw: it answers with what its [catch] clause makes of the
    error, which is never a success, after exactly the round trips made so
    far and with both collections as they were. *)
Theorem createBooking_store_failure :
  forall eventId email err w k,
    (k < 2)%nat -> Spec.answers k w -> Spec.fails_at k err w ->
    ObjectId.isValid eventId = true -> Re.test Booking.emailRegex email = true ->
    BookingActions.createBooking eventId email w
    = (Ok (BookingActions.on_error err), Nat.iter (S k) answered w)
    /\ BookingActions.success (BookingActions.on_error err) = false.
Proof.
  intros eventId email err w k Hk Ha Hf Hid Hem.
  split; [|apply on_error_rejects].
  unfold BookingActions.createBooking, try_catch.
  rewrite (createBooking_try_checked eventId email w Hid Hem).
  unfold BookingActions.createBooking_store, connectDB.
  destruct k as [|[|k]]; [| |lia].
  - apply fails_at_now in Hf.
    erewrite bind_throw by (apply round_trip_fail; exact Hf). reflexivity.
  - destruct (answers_next 0 w Ha) as [H0 _].
    erewrite bind_ok by (apply round_trip_ok; exact H0).
    apply fails_at_next, fails_at_now in Hf.
    erewrite bind_throw by (apply query_fail; exact Hf). reflexivity.
Qed.

Lemma createBooking_store_failure_witness :
  BookingActions.createBooking Sample.conf_id "ann@example.com" Sample.offline
  = (Ok (BookingActions.mkResponse false "Failed to create booking. Please try again."
           None (Some "connect ECONNREFUSED")),
     answered Sample.offline)
  /\ BookingActions.success
       (BookingActions.on_error (ErrorObj "connect ECONNREFUSED")) = false.
Proof.
  apply (createBooking_store_failure Sample.conf_id "ann@example.com"
           (ErrorObj "connect ECONNREFUSED") Sample.offline 0).
  - lia.
  - intros i Hi. lia.
  - reflexivity.
  - reflexivity.
  - reflexivity.
Defined.

(** X14.  The data of a successful response echo the input in normal form:
    the [eventId] and the [email] come back in lower case, and the
    [bookingId] is the identifier the driver drew for the document. *)
Theorem booking_data_echo :
  forall eventId email w r w',
    BookingActions.createBooking eventId email w = (Ok r, w') ->
    BookingActions.success r = true ->
    BookingActions.data r
    = Some (BookingActions.mkData (ObjectId.toString (next_oid w))
                                  (Str.toLowerCase eventId) (Str.toLowerCase email)).
Proof.
  intros eventId email w r w' H Hs.
  destruct (createBooking_effect eventId email w) as (r0 & w0 & H0 & _ & Hcases).
  rewrite H in H0. injection H0 as <- <-.
  destruct Hcases as [(Hf & _)|(Hid & _ & _ & _ & -> & _)]; [congruence|].
  cbn [BookingActions.data BookingActions.Created Spec.booking_of IBooking._id
       IBooking.eventId IBooking.email].
  now rewrite (toString_ofString eventId Hid).
Qed.

Lemma booking_data_echo_witness :
  BookingActions.data
    (BookingActions.Created
       (Spec.booking_of Sample.world (ObjectId.ofString "507F1F77BCF86CD799439011")
                        "ann@example.com"))
  = Some (BookingActions.mkData (ObjectId.toString (next_oid Sample.world))
                                (Str.toLowerCase "507F1F77BCF86CD799439011")
                                (Str.toLowerCase "Ann@Example.com")).
Proof.
  apply (booking_data_echo "507F1F77BCF86CD799439011" "Ann@Example.com" Sample.world
           _ (snd (BookingActions.createBooking "507F1F77BCF86CD799439011"
                     "Ann@Example.com" Sample.world))).
  - vm_compute. reflexivity.
  - reflexivity.
Defined.

(* ================================================================== *)
(** * Properties of the GET route *)
(* ================================================================== *)

Lemma GET_on_error_status :
  forall err,
    Route.status (Route.on_error err) = 500%nat
    /\ Route.event (Route.on_error err) = None.
Proof.
  intros [msg|]; [|split; reflexivity]. unfold Route.on_error.
  destruct (Str.includes "MONGODB_URI" msg); split; reflexivity.
Qed.

(** The five ways [GET] returns. *)
Lemma GET_effect :
  forall slug w,
    exists r w',
      Route.GET slug w = (Ok r, w')
      /\ Inv.same_collections w w'
      /\ ((Route.status r = 400%nat /\ Route.event r = None /\ w' = w
           /\ Re.test Route.slugRegex slug = false)
          \/ (Route.status r = 500%nat /\ Route.event r = None
              /\ Re.test Route.slugRegex slug = true)
          \/ (Route.status r = 404%nat /\ Route.event r = None
              /\ Re.test Route.slugRegex slug = true
              /\ find (fun e => String.eqb (IEvent.slug e) slug) (events w) = None)
          \/ (Route.status r = 200%nat
              /\ Re.test Route.slugRegex slug = true
              /\ exists e, Route.event r = Some e
                           /\ find (fun e => String.eqb (IEvent.slug e) slug) (events w)
                              = Some e)).
Proof.
  intros slug w. unfold Route.GET, try_catch, Route.GET_try.
  destruct (Str.is_empty slug) eqn:He.
  { destruct slug; [|discriminate]. unfold ret. do 2 eexists.
    split; [reflexivity|]. split; [split; reflexivity|]. left. repeat split. }
  destruct (Re.test Route.slugRegex slug) eqn:Hre; cbn [negb].
  2:{ unfold ret. do 2 eexists. split; [reflexivity|].
      split; [split; reflexivity|]. left. repeat split. }
  destruct (bind connectDB _ w) as [o w'] eqn:H.
  unfold connectDB in H.
  apply bind_inv in H. destruct H as [(u & w1 & Hc & H)|(e & Hc & ->)].
  2:{ apply round_trip_frame in Hc. subst w'. unfold ret.
      destruct (GET_on_error_status e) as [Hs Hv].
      do 2 eexists. split; [reflexivity|]. split; [split; reflexivity|].
      right. left. auto. }
  apply round_trip_frame in Hc. subst w1.
  apply bind_inv in H. destruct H as [(ev & w2 & Hq & H)|(e & Hq & ->)].
  2:{ apply query_frame in Hq. subst w'. unfold ret.
      destruct (GET_on_error_status e) as [Hs Hv].
      do 2 eexists. split; [reflexivity|]. split; [split; reflexivity|].
      right. left. auto. }
  unfold Event.findOne in Hq. rewrite (slug_setter_fixed slug Hre) in Hq.
  destruct (query_cases _ (fun w => find (fun e => String.eqb (IEvent.slug e) slug)
              (events w)) (answered w)) as [E|[e E]];
    rewrite E in Hq; [|discriminate Hq].
  injection Hq as <- <-. cbn [events answered] in H.
  destruct (find _ (events w)) as [e|] eqn:Hfind;
    unfold ret in H; injection H as <- <-.
  - do 2 eexists. split; [reflexivity|]. split; [split; reflexivity|].
    right. right. right. split; [reflexivity|]. split; [reflexivity|].
    exists e. split; reflexivity.
  - do 2 eexists. split; [reflexivity|]. split; [split; reflexivity|].
    right. right. left. repeat split.
Qed.

(** X15.  [GET] always returns a response; its status is 200, 400, 404 or
    500; it carries an event exactly when the status is 200; and it leaves
    both collections as they were. *)
Theorem GET_total :
  forall slug w,
    exists r w',
      Route.GET slug w = (Ok r, w')
      /\ Inv.known_status (Route.status r) = true
      /\ Inv.is_some (Route.event r) = (Route.status r =? 200)%nat
      /\ Inv.same_collections w w'.
Proof.
  intros slug w. destruct (GET_effect slug w) as (r & w' & H & Hc & Hcases).
  exists r, w'. split; [exact H|].
  destruct Hcases as [(Hs & Hv & _)|[(Hs & Hv & _)|[(Hs & Hv & _)|(Hs & _ & e & Hv & _)]]];
    rewrite Hs, Hv; (split; [reflexivity|]); (split; [reflexivity | exact Hc]).
Qed.

(** X16.  What a status of [GET] says about the collection, whatever the
    state of the store: with 200 the event returned is stored and has the
    requested slug; with 404 no stored event has it; with 400 the slug does
    not match the pattern and the store has not been reached. *)
Theorem GET_status_sound :
  forall slug w r w',
    Route.GET slug w = (Ok r, w') ->
    (Route.status r = 200%nat ->
     exists e, Route.event r = Some e /\ In e (events w) /\ IEvent.slug e = slug)
    /\ (Route.status r = 404%nat ->
        forall e, In e (events w) -> IEvent.slug e <> slug)
    /\ (Route.status r = 400%nat -> Re.test Route.slugRegex slug = false /\ w' = w).
Proof.
  intros slug w r w' H.
  destruct (GET_effect slug w) as (r0 & w0 & H0 & _ & Hcases).
  rewrite H in H0. injection H0 as <- <-.
  destruct Hcases
    as [(Hs & _ & Hw & Hre)|[(Hs & _)|[(Hs & _ & _ & Hf)|(Hs & _ & e & Hv & Hf)]]];
    rewrite Hs; (split; [|split]); try discriminate; intros _.
  - auto.
  - intros e Hin Heq. pose proof (find_none _ _ Hf e Hin) as Hn.
    cbn beta in Hn. rewrite Heq, String.eqb_refl in Hn. discriminate.
  - exists e. split; [exact Hv|]. apply find_some in Hf. destruct Hf as [Hin Heq].
    apply String.eqb_eq in Heq. auto.
Qed.

Lemma GET_status_sound_witness :
  Route.GET "my-event" Sample.world
  = (Ok (Route.json 200 "Event fetched successfully" (Some Sample.conf) None),
     answered (answered Sample.world))
  /\ exists e,
       Route.event (Route.json 200 "Event fetched successfully" (Some Sample.conf) None)
       = Some e
       /\ In e (events Sample.world) /\ IEvent.slug e = "my-event".
Proof.
  assert (H : Route.GET "my-event" Sample.world
              = (Ok (Route.json 200 "Event fetched successfully" (Some Sample.conf) None),
                 answered (answered Sample.world)))
    by (vm_compute; reflexivity).
  split; [exact H|].
  destruct (GET_status_sound "my-event" Sample.world _ _ H) as (H200 & _ & _).
  exact (H200 eq_refl).
Defined.

(** X17.  When the connection or the query fails, [GET] answers 500 with no
    event, after exactly the round trips made so far; an error whose message
    names MONGODB_URI is reported as a configuration error and its message
    is not passed on. *)
Theorem GET_store_failure :
  forall slug err w k,
    (k < 2)%nat -> Spec.answers k w -> Spec.fails_at k err w ->
    Re.test Route.slugRegex slug = true ->
    Route.GET slug w = (Ok (Route.on_error err), Nat.iter (S k) answered w)
    /\ Route.status (Route.on_error err) = 500%nat
    /\ Route.event (Route.on_error err) = None
    /\ (forall msg, err = ErrorObj msg -> Str.includes "MONGODB_URI" msg = true ->
        Route.on_error err = Route.json 500 "Database configuration error" None None).
Proof.
  intros slug err w k Hk Ha Hf Hre.
  split; [|split; [apply GET_on_error_status|split; [apply GET_on_error_status|]]].
  - unfold Route.GET, try_catch, Route.GET_try.
    rewrite (slug_pattern_not_empty slug Hre), Hre. cbn [negb].
    unfold connectDB. destruct k as [|[|k]]; [| |lia].
    + apply fails_at_now in Hf.
      erewrite bind_throw by (apply round_trip_fail; exact Hf). reflexivity.
    + destruct (answers_next 0 w Ha) as [H0 _].
      erewrite bind_ok by (apply round_trip_ok; exact H0).
      apply fails_at_next, fails_at_now in Hf.
      erewrite bind_throw by (apply query_fail; exact Hf). reflexivity.
  - intros msg -> Hm. unfold Route.on_error. now rewrite Hm.
Qed.

Lemma GET_store_failure_witness :
  Route.GET "my-event"
    (mkWorld [Sample.conf] []
       [Some (ErrorObj "Please define the MONGODB_URI environment variable")]
       0 4096%N 0%Z)
  = (Ok (Route.json 500 "Database configuration error" None None),
     mkWorld [Sample.conf] [] [] 1 4096%N 0%Z).
Proof.
  pose proof (GET_store_failure "my-event"
                (ErrorObj "Please define the MONGODB_URI environment variable")
                (mkWorld [Sample.conf] []
                   [Some (ErrorObj "Please define the MONGODB_URI environment variable")]
                   0 4096%N 0%Z) 0) as H.
  destruct H as (H & _ & _ & Hm).
  - lia.
  - intros i Hi. lia.
  - reflexivity.
  - reflexivity.
  - rewrite H. rewrite (Hm _ eq_refl eq_refl). reflexivity.
Defined.

(* ================================================================== *)
(** * Properties of getSimilarEventsBySlug *)
(* ================================================================== *)

Lemma In_limit :
  forall n (l : list IEvent.t) e, In e (Event.limit n l) -> In e l.
Proof.
  intros n l e. unfold Event.limit. destruct (n =? 0)%Z; [auto|].
  intros H. rewrite <- (firstn_skipn (Z.to_nat (Z.abs n)) l).
  apply in_or_app. now left.
Qed.

Lemma limit_length :
  forall n (l : list IEvent.t),
    n <> 0%Z -> (List.length (Event.limit n l) <= Z.to_nat (Z.abs n))%nat.
Proof.
  intros n l Hn. unfold Event.limit.
  destruct (n =? 0)%Z eqn:E; [apply Z.eqb_eq in E; contradiction|].
  apply firstn_le_length.
Qed.

Lemma recent_first_firstn :
  forall k l, Spec.recent_first l -> Spec.recent_first (firstn k l).
Proof.
  unfold Spec.recent_first. induction k as [|k IH]; intros l H; [constructor|].
  destruct l as [|a l]; [constructor|]. cbn [firstn].
  apply StronglySorted_inv in H. destruct H as [Hs Ha].
  constructor; [now apply IH|].
  apply Forall_forall. intros x Hx. rewrite Forall_forall in Ha. apply Ha.
  rewrite <- (firstn_skipn k l). apply in_or_app. now left.
Qed.

Lemma recent_first_limit :
  forall n l, Spec.recent_first l -> Spec.recent_first (Event.limit n l).
Proof.
  intros n l H. unfold Event.limit. destruct (n =? 0)%Z; [exact H|].
  now apply recent_first_firstn.
Qed.

(** The ways [getSimilarEventsBySlug] returns: with nothing, or with the
    answer of the second query for the event the first query has found. *)
Lemma getSimilar_effect :
  forall slug limit w,
    exists l w',
      EventActions.getSimilarEventsBySlug slug limit w = (Ok l, w')
      /\ Inv.same_collections w w'
      /\ (l = []
          \/ exists src,
               find (fun e => String.eqb (IEvent.slug e) (Event.slug_setter slug))
                    (events w) = Some src
               /\ l = Event.limit (match limit with Some n => n | None => 5%Z end)
                        (Event.sort_recent (filter (Spec.similar src) (events w)))).
Proof.
  intros slug limit w.
  unfold EventActions.getSimilarEventsBySlug, try_catch,
    EventActions.getSimilarEventsBySlug_try.
  destruct (Str.is_empty slug || Str.is_empty (Str.trim slug)).
  { unfold ret. do 2 eexists. split; [reflexivity|]. split; [split; reflexivity|].
    now left. }
  destruct (bind connectDB _ w) as [o w'] eqn:H.
  unfold connectDB in H.
  apply bind_inv in H. destruct H as [(u & w1 & Hc & H)|(e & Hc & ->)].
  2:{ apply round_trip_frame in Hc. subst w'. unfold ret. do 2 eexists.
      split; [reflexivity|]. split; [split; reflexivity | now left]. }
  apply round_trip_frame in Hc. subst w1.
  apply bind_inv in H. destruct H as [(ev & w2 & Hq & H)|(e & Hq & ->)].
  2:{ apply query_frame in Hq. subst w'. unfold ret. do 2 eexists.
      split; [reflexivity|]. split; [split; reflexivity | now left]. }
  unfold Event.findOne in Hq.
  destruct (query_cases _ (fun w => find (fun e => String.eqb (IEvent.slug e)
              (Event.slug_setter slug)) (events w)) (answered w)) as [E|[e E]];
    rewrite E in Hq; [|discriminate Hq].
  injection Hq as <- <-. cbn [events answered] in H.
  destruct (find _ (events w)) as [src|] eqn:Hfind.
  2:{ unfold ret in H. injection H as <- <-. do 2 eexists.
      split; [reflexivity|]. split; [split; reflexivity | now left]. }
  destruct (List.length (IEvent.tags src) =? 0)%nat.
  { unfold ret in H. injection H as <- <-. do 2 eexists.
    split; [reflexivity|]. split; [split; reflexivity | now left]. }
  unfold Event.find_ne_id_in_tags in H.
  match type of H with
  | query ?f ?v = _ => destruct (query_cases _ f v) as [E'|[e E']]; rewrite E' in H
  end; injection H as <- <-; unfold ret.
  - do 2 eexists. split; [reflexivity|]. split; [split; reflexivity|].
    right. exists src. split; [reflexivity|]. cbn [events answered].
    f_equal. f_equal. apply filter_ext. intros e. unfold Spec.similar.
    now rewrite in_any_shares_tag.
  - do 2 eexists. split; [reflexivity|]. split; [split; reflexivity | now left].
Qed.

(** X18.  For a missing or blank slug [getSimilarEventsBySlug] returns the
    empty list without reaching the store. *)
Theorem getSimilar_blank_slug :
  forall slug limit w,
    Spec.blank slug = true ->
    EventActions.getSimilarEventsBySlug slug limit w = (Ok [], w).
Proof.
  intros slug limit w H.
  unfold EventActions.getSimilarEventsBySlug, try_catch,
    EventActions.getSimilarEventsBySlug_try.
  now rewrite blank_test, H.
Qed.

Lemma getSimilar_blank_slug_witness :
  EventActions.getSimilarEventsBySlug "   " None Sample.offline = (Ok [], Sample.offline).
Proof.
  apply (getSimilar_blank_slug "   " None Sample.offline). reflexivity.
Defined.

(** X19.  Whatever the slug, the limit and the state of the store, the list
    [getSimilarEventsBySlug] returns is sound: each of its events is stored,
    is another event than a stored event with the requested slug and shares a
    tag with it; the list is ordered most recent first; a limit other than 0
    bounds its length by the absolute value of the limit; and both
    collections are left as they were. *)
Theorem getSimilar_sound :
  forall slug limit w l w',
    EventActions.getSimilarEventsBySlug slug limit w = (Ok l, w') ->
    Inv.same_collections w w'
    /\ (forall e, In e l ->
        In e (events w)
        /\ exists src, In src (events w)
                       /\ IEvent.slug src = Event.slug_setter slug
                       /\ Spec.similar src e = true)
    /\ Spec.recent_first l
    /\ (forall n, limit = Some n -> n <> 0%Z ->
        (List.length l <= Z.to_nat (Z.abs n))%nat)
    /\ (limit = None -> (List.length l <= 5)%nat).
Proof.
  intros slug limit w l w' H.
  destruct (getSimilar_effect slug limit w) as (l0 & w0 & H0 & Hc & Hcases).
  rewrite H in H0. injection H0 as <- <-. split; [exact Hc|].
  destruct Hcases as [->|(src & Hfind & ->)].
  - split; [intros e []|]. split; [constructor|].
    split; [intros; cbn [List.length]; lia | intros; cbn [List.length]; lia].
  - split; [|split; [|split]].
    + intros e Hin. apply In_limit in Hin.
      apply (Permutation_in _ (sort_recent_perm _)) in Hin.
      apply filter_In in Hin. destruct Hin as [Hin Hsim].
      split; [exact Hin|]. exists src. apply find_some in Hfind.
      destruct Hfind as [Hs Heq]. apply String.eqb_eq in Heq. auto.
    + apply recent_first_limit, sort_recent_sorted.
    + intros n -> Hn. now apply limit_length.
    + intros ->. apply (limit_length 5). discriminate.
Qed.

Lemma getSimilar_sound_witness :
  exists l w',
    EventActions.getSimilarEventsBySlug "my-event" (Some (-1)%Z) Sample.world = (Ok l, w')
    /\ List.map IEvent.slug l = ["ai-summit"]
    /\ (forall e, In e l ->
        In e (events Sample.world)
        /\ exists src, In src (events Sample.world)
                       /\ IEvent.slug src = Event.slug_setter "my-event"
                       /\ Spec.similar src e = true)
    /\ Spec.recent_first l
    /\ (List.length l <= 1)%nat.
Proof.
  eexists. eexists. split; [vm_compute; reflexivity|]. split; [reflexivity|].
  destruct (getSimilar_sound "my-event" (Some (-1)%Z) Sample.world _
              (answered (answered (answered Sample.world))) ltac:(vm_compute; reflexivity))
    as (_ & Hin & Hs & Hn & _).
  split; [exact Hin|]. split; [exact Hs|].
  apply (Hn (-1)%Z eq_refl). discriminate.
Defined.

(* ================================================================== *)
(** * Properties of the BookEvent component *)
(* ================================================================== *)

Lemma truthy_trim :
  forall s, BookEvent.truthy (Str.trim s) = negb (Spec.blank s).
Proof. intros s. reflexivity. Qed.

(** X20.  A submit with a missing or blank address is stopped in the
    component: whatever the server action is, it is not called, nothing is
    captured, the state only gains the error "Email is required"; and the
    form of such a state has its submit button disabled. *)
Theorem submit_blank_email :
  forall createBooking eventId st log w,
    Spec.blank (BookEvent.email st) = true ->
    BookEvent.handleSubmit createBooking eventId st log w
    = ((BookEvent.mkState (BookEvent.email st) (BookEvent.submitted st)
                          (BookEvent.loading st) (Some "Email is required"), log), w)
    /\ (BookEvent.submitted st = false ->
        exists d e l, BookEvent.render st = BookEvent.Form d true e l).
Proof.
  intros cb eventId st log w H. split.
  - unfold BookEvent.handleSubmit. rewrite truthy_trim, H. reflexivity.
  - intros Hs. unfold BookEvent.render. rewrite Hs, truthy_trim, H.
    rewrite orb_true_r. eauto.
Qed.

Lemma submit_blank_email_witness :
  BookEvent.handleSubmit BookingActions.createBooking Sample.conf_id
    (BookEvent.mkState "   " false false None) [] Sample.world
  = ((BookEvent.mkState "   " false false (Some "Email is required"), []), Sample.world)
  /\ (false = false ->
      exists d e l,
        BookEvent.render (BookEvent.mkState "   " false false None)
        = BookEvent.Form d true e l).
Proof.
  apply (submit_blank_email BookingActions.createBooking Sample.conf_id
           (BookEvent.mkState "   " false false None) [] Sample.world).
  reflexivity.
Defined.



(** X22.  From the form to the collection: when the store answers, the
    Event is stored and the address typed in the form, once trimmed, is well
    formed and not booked yet for the event, a submit stores the Booking for
    the trimmed, lower-cased address, captures booking_successful with its
    identifier and shows the success state. *)
Theorem form_booking_stored :
  forall eventId st log w,
    Spec.answers 4 w ->
    ObjectId.isValid eventId = true ->
    Re.test Booking.emailRegex (Str.trim (BookEvent.email st)) = true ->
    Spec.event_exists (ObjectId.ofString eventId) w = true ->
    Spec.booked (ObjectId.ofString eventId)
                (Str.toLowerCase (Str.trim (BookEvent.email st))) w = false ->
    BookEvent.handleSubmit BookingActions.createBooking eventId st log w
    = ((BookEvent.mkState "" true false None,
        (log ++ [BookEvent.booking_successful eventId (Str.trim (BookEvent.email st))
                   (Some (ObjectId.toString (next_oid w)))
                   (JsDate.toISOString (now w))])%list),
       mkWorld (events w)
               (bookings w ++ [Spec.booking_of w (ObjectId.ofString eventId)
                                 (Str.toLowerCase (Str.trim (BookEvent.email st)))])
               (tl (tl (tl (tl (faults w))))) (4 + round_trips w)
               (N.succ (next_oid w)) (now w)).
Proof.
  intros eventId st log w Ha Hid Hem Hex Hnb. unfold BookEvent.handleSubmit.
  unfold BookEvent.truthy. rewrite (email_not_empty _ Hem). cbn [negb].
  pose proof (createBooking_fresh eventId (Str.trim (BookEvent.email st)) w
                Ha Hid Hem Hex Hnb) as H.
  cbv zeta in H. rewrite H. reflexivity.
Qed.

Lemma form_booking_stored_witness :
  exists log' w',
    BookEvent.handleSubmit BookingActions.createBooking Sample.conf_id
      (BookEvent.mkState "  Ann@Example.com " false false None) [] Sample.world
    = ((BookEvent.mkState "" true false None, log'), w')
    /\ List.map IBooking.email (bookings w') = ["ann@example.com"].
Proof.
  do 2 eexists.
  rewrite (form_booking_stored Sample.conf_id
             (BookEvent.mkState "  Ann@Example.com " false false None) []
             Sample.world).
  - split; reflexivity.
  - intros i Hi. destruct i as [|[|[|[|i]]]]; reflexivity.
  - reflexivity.
  - reflexivity.
  - reflexivity.
  - reflexivity.
Defined.

(** X23.  Whatever the server action is, a submit that switches the
    component to its success message has cleared the address, so "Book another
    spot" shows an empty form without error whose submit button is
    disabled. *)
Theorem view_after_booking :
  forall createBooking eventId st log w st' log' w',
    BookEvent.handleSubmit createBooking eventId st log w = ((st', log'), w') ->
    BookEvent.submitted st = false -> BookEvent.submitted st' = true ->
    BookEvent.render st' = BookEvent.SuccessMessage
    /\ BookEvent.render (BookEvent.bookAnother st')
       = BookEvent.Form false true None "Book Your Spot".
Proof.
  intros cb eventId st log w st' log' w' H Hs Hs'.
  unfold BookEvent.handleSubmit in H.
  destruct (negb (BookEvent.truthy (Str.trim (BookEvent.email st)))).
  { injection H as <- _ _. cbn [BookEvent.submitted] in Hs'. congruence. }
  destruct (cb eventId (Str.trim (BookEvent.email st)) w) as [[r|err] w1].
  - destruct (BookingActions.success r).
    + injection H as <- _ _. split; reflexivity.
    + injection H as <- _ _. cbn [BookEvent.submitted] in Hs'. congruence.
  - injection H as <- _ _. cbn [BookEvent.submitted] in Hs'. congruence.
Qed.

Lemma view_after_booking_witness :
  BookEvent.render
    (fst (fst (BookEvent.handleSubmit BookingActions.createBooking Sample.conf_id
                 (BookEvent.mkState "ann@example.com" false false None) []
                 Sample.world)))
  = BookEvent.SuccessMessage
  /\ BookEvent.render
       (BookEvent.bookAnother
          (fst (fst (BookEvent.handleSubmit BookingActions.createBooking Sample.conf_id
                       (BookEvent.mkState "ann@example.com" false false None) []
                       Sample.world))))
     = BookEvent.Form false true None "Book Your Spot".
Proof.
  apply (view_after_booking BookingActions.createBooking Sample.conf_id
           (BookEvent.mkState "ann@example.com" false false None) [] Sample.world
           _ (snd (fst (BookEvent.handleSubmit BookingActions.createBooking
                          Sample.conf_id
                          (BookEvent.mkState "ann@example.com" false false None) []
                          Sample.world)))
           (snd (BookEvent.handleSubmit BookingActions.createBooking Sample.conf_id
                   (BookEvent.mkState "ann@example.com" false false None) []
                   Sample.world))).
  - vm_compute. reflexivity.
  - reflexivity.
  - vm_compute. reflexivity.
Defined.

(** X24.  The form never shows a stale error: after any change of the
    input the rendered form has no error paragraph and holds the typed value,
    and its submit button is enabled exactly when the component is not
    loading and the value is not blank. *)
Theorem typing_hides_error :
  forall value st,
    BookEvent.submitted st = false ->
    BookEvent.email (BookEvent.onChange value st) = value
    /\ BookEvent.render (BookEvent.onChange value st)
       = BookEvent.Form (BookEvent.loading st)
                        (BookEvent.loading st || Spec.blank value) None
                        (if BookEvent.loading st then "Booking..." else "Book Your Spot").
Proof.
  intros value st Hs. split; [reflexivity|].
  unfold BookEvent.render, BookEvent.onChange.
  cbn [BookEvent.submitted BookEvent.loading BookEvent.email BookEvent.error].
  rewrite Hs, truthy_trim, negb_involutive.
  destruct (BookEvent.error st) as [msg|]; [|reflexivity].
  destruct (BookEvent.truthy msg) eqn:Hm; [reflexivity|]. now rewrite Hm.
Qed.

Lemma typing_hides_error_witness :
  BookEvent.email
    (BookEvent.onChange "a"
       (BookEvent.mkState "" false false (Some "Email is required"))) = "a"
  /\ BookEvent.render
       (BookEvent.onChange "a"
          (BookEvent.mkState "" false false (Some "Email is required")))
     = BookEvent.Form false (false || Spec.blank "a") None "Book Your Spot".
Proof.
  apply (typing_hides_error "a"
           (BookEvent.mkState "" false false (Some "Email is required"))).
  reflexivity.
Defined.

(* ================================================================== *)
(** * The schema validators and the hook *)
(* ================================================================== *)

(** X25.  The two array checks at the end of the hook repeat the validators
    of the schema: on a document whose [agenda] and [tags] satisfy them, the
    hook throws neither EmptyAgenda nor EmptyTags, and it succeeds exactly
    when the date check and the time check pass. *)
Theorem array_checks_covered_by_schema :
  forall host (this : document IEvent.t),
    EventSchema.array_validator (IEvent.agenda (fields this)) = true ->
    EventSchema.array_validator (IEvent.tags (fields this)) = true ->
    Event.pre_save host this <> Throw Event.EmptyAgenda
    /\ Event.pre_save host this <> Throw Event.EmptyTags
    /\ ((exists e, Event.pre_save host this = Ok e)
        <-> Inv.date_passes host this && Inv.time_passes this = true).
Proof.
  intros host this Ha Hg.
  assert (Ha' : Inv.has_agenda this = true).
  { unfold Inv.has_agenda. unfold EventSchema.array_validator in Ha.
    destruct (IEvent.agenda (fields this)); [discriminate Ha | reflexivity]. }
  assert (Hg' : Inv.has_tags this = true).
  { unfold Inv.has_tags. unfold EventSchema.array_validator in Hg.
    destruct (IEvent.tags (fields this)); [discriminate Hg | reflexivity]. }
  pose proof (hook_checks host this) as H. rewrite Ha', Hg' in H.
  destruct (Event.pre_save host this) as [e|err].
  - destruct H as (Hd & Ht & _). rewrite Hd, Ht.
    split; [discriminate|]. split; [discriminate|]. split; eauto.
  - destruct H as [-> Hf]. rewrite !andb_true_r in Hf. rewrite Hf.
    destruct (Inv.date_passes host this); destruct (Inv.time_passes this);
      try discriminate Hf; cbn [negb];
      (split; [intros E; cbv in E; discriminate E|]);
      (split; [intros E; cbv in E; discriminate E|]);
      (split; [intros [e He]; discriminate He | discriminate]).
Qed.

Lemma array_checks_covered_by_schema_witness :
  Event.pre_save Sample.strict_host (Sample.draft "My Event" "2024-03-05" "14:30")
  <> Throw Event.EmptyAgenda
  /\ Event.pre_save Sample.strict_host (Sample.draft "My Event" "2024-03-05" "14:30")
     <> Throw Event.EmptyTags
  /\ ((exists e,
         Event.pre_save Sample.strict_host (Sample.draft "My Event" "2024-03-05" "14:30")
         = Ok e)
      <-> Inv.date_passes Sample.strict_host
            (Sample.draft "My Event" "2024-03-05" "14:30")
          && Inv.time_passes (Sample.draft "My Event" "2024-03-05" "14:30") = true).
Proof.
  apply (array_checks_covered_by_schema Sample.strict_host
           (Sample.draft "My Event" "2024-03-05" "14:30")).
  - reflexivity.
  - reflexivity.
Defined.
